(** * MCDashboard: the bot manager of [backend/src/bot-manager.ts]

    A shallow embedding of the [BotManager] class (account store, log ring
    buffer, connection lifecycle, stat extraction and the 'update' event)
    together with the properties its specification states about it.

    Conventions of the embedding:
    - a JavaScript string is the list of its UTF-16 code units;
    - a JavaScript number is an IEEE 754 binary64 value ([spec_float] at
      precision 53, maximal exponent 1024), with the operations of
      [Floats.SpecFloat];
    - a [Map] is an association list in insertion order, the way
      [Map.prototype.values] iterates it;
    - the methods run in a state-and-exception monad over the manager's
      fields, to which the trace of observable effects is added (the
      'update' emissions and the calls made on the protocol libraries). *)

From Stdlib Require Import String Ascii DecimalString.
From Stdlib Require Import List ZArith NArith Bool Lia.
From Stdlib Require Import Floats.SpecFloat.
Import ListNotations.

Set Implicit Arguments.

(** ** JavaScript strings *)

Module Js.

Definition jsstring := list N.

(** An ASCII literal as a JavaScript string. *)
Definition str (s : string) : jsstring :=
  map N_of_ascii (list_ascii_of_string s).

Definition unit_eqb (a b : N) : bool := N.eqb a b.

Fixpoint eqb (a b : jsstring) : bool :=
  match a, b with
  | [], [] => true
  | x :: a', y :: b' => unit_eqb x y && eqb a' b'
  | _, _ => false
  end.

(** [startsWith s p]: [p] is a prefix of [s]. *)
Fixpoint startsWith (s p : jsstring) : bool :=
  match p, s with
  | [], _ => true
  | _ :: _, [] => false
  | x :: p', y :: s' => unit_eqb x y && startsWith s' p'
  end.

(** [String.prototype.includes]. *)
Fixpoint includes (s p : jsstring) : bool :=
  startsWith s p ||
  match s with
  | [] => false
  | _ :: s' => includes s' p
  end.

(** [String.prototype.split] with a non-empty string separator: the
    separator is searched from left to right, occurrences do not overlap.
    [skip] counts the units of a matched separator still to be dropped and
    [cur] is the current piece, reversed. *)
Fixpoint split_aux (sep : jsstring) (skip : nat) (cur s : jsstring)
  : list jsstring :=
  match s with
  | [] => [rev cur]
  | c :: s' =>
      match skip with
      | S k => split_aux sep k cur s'
      | O =>
          if startsWith s sep
          then rev cur :: split_aux sep (length sep - 1) [] s'
          else split_aux sep 0 (c :: cur) s'
      end
  end.

Definition split (s sep : jsstring) : list jsstring := split_aux sep 0 [] s.

(** Line terminators: LF, CR, LS, PS. *)
Definition isLineTerminator (c : N) : bool :=
  existsb (N.eqb c) [10; 13; 8232; 8233]%N.

(** White space of [String.prototype.trim]: WhiteSpace and LineTerminator. *)
Definition isWhiteSpace (c : N) : bool :=
  existsb (N.eqb c) [9; 11; 12; 32; 160; 5760; 8239; 8287; 12288; 65279]%N
  || ((8192 <=? c) && (c <=? 8202))%N
  || isLineTerminator c.

Fixpoint trimStart (s : jsstring) : jsstring :=
  match s with
  | c :: s' => if isWhiteSpace c then trimStart s' else s
  | [] => []
  end.

Definition trim (s : jsstring) : jsstring :=
  rev (trimStart (rev (trimStart s))).

(** [\d] of a regular expression: the ASCII digits. *)
Definition isDigit (c : N) : bool := ((48 <=? c) && (c <=? 57))%N.

(** The full stop. *)
Definition DOT : N := 46.

(** The longest prefix of units satisfying [p], and the rest. *)
Fixpoint span (p : N -> bool) (s : jsstring) : jsstring * jsstring :=
  match s with
  | c :: s' =>
      if p c then let (a, b) := span p s' in (c :: a, b) else ([], s)
  | [] => ([], [])
  end.

(** [String.prototype.toLowerCase].  The ASCII letters are mapped here; the
    Unicode case table for the other code units is not part of the
    repository and is taken as the parameter [lower]. *)
Definition lowerUnit (lower : N -> jsstring) (c : N) : jsstring :=
  if (c <? 128)%N
  then [if ((65 <=? c) && (c <=? 90))%N then (c + 32)%N else c]
  else lower c.

Definition toLowerCase (lower : N -> jsstring) (s : jsstring) : jsstring :=
  flat_map (lowerUnit lower) s.

End Js.

Import Js.

(** ** JavaScript numbers *)

Module Num.

Definition number := spec_float.

Definition prec : Z := 53.
Definition emax : Z := 1024.

(** The number nearest to an integer. *)
Definition ofZ (z : Z) : number := binary_normalize prec emax z 0 false.

Definition zero : number := S754_zero false.

Definition mul : number -> number -> number := SFmul prec emax.

(** [a === b] on numbers: [NaN] differs from itself, the two zeros are
    equal. *)
Definition strictEq (a b : number) : bool := SFeqb a b.

(** [ToBoolean] of a number is false on the zeros and on [NaN]. *)
Definition isFalsy (x : number) : bool :=
  match x with
  | S754_zero _ | S754_nan => true
  | _ => false
  end.

Definition digitVal (c : N) : Z := Z.of_N (c - 48).

Definition digitsZ (ds : jsstring) : Z :=
  fold_left (fun a c => 10 * a + digitVal c)%Z ds 0%Z.

(** An integer as an unrounded operand of the division below. *)
Definition exactZ (z : Z) : number :=
  match z with
  | Z0 => S754_zero false
  | Zpos p => S754_finite false p 0
  | Zneg p => S754_finite true p 0
  end.

(** The number value of the decimal literal [ip.fp]: the quotient of the
    integer [ip fp] by [10 ^ |fp|], rounded once to nearest, ties to
    even. *)
Definition ofDecimal (ip fp : jsstring) : number :=
  SFdiv prec emax (exactZ (digitsZ (ip ++ fp)))
                  (exactZ (10 ^ Z.of_nat (List.length fp))).

(** [parseFloat] on an unsigned decimal literal without exponent, which is
    the only shape the regular expressions of the manager pass to it:
    digits, an optional dot, digits; [NaN] when there is no digit. *)
Definition parseFloat (s : jsstring) : number :=
  let (ip, r) := span isDigit s in
  let fp := match r with
            | c :: r' => if (c =? DOT)%N then fst (span isDigit r') else []
            | [] => []
            end in
  match ip, fp with
  | [], [] => S754_nan
  | _, _ => ofDecimal ip fp
  end.

End Num.

Import Num.

(** ** Data model *)

Inductive BotType := java | bedrock.

Inductive Status := online | offline | connecting | error.

Record BotStats := {
  shards : number;
  money : number;
  kills : number;
  deaths : number
}.

Record BotAccount := {
  id : jsstring;
  username : jsstring;
  type : BotType;
  status : Status;
  logs : list jsstring;
  accountData : BotStats
}.

(** A row of the table [accounts (id TEXT PRIMARY KEY, username TEXT,
    type TEXT)]. *)
Record Row := {
  row_id : jsstring;
  row_username : jsstring;
  row_type : BotType
}.

(** A connection object of one of the protocol libraries. *)
Definition handle := nat.

(** What the manager does that is visible outside of it. *)
Inductive effect :=
| Emit (snapshot : list BotAccount)       (* this.emit('update', ...) *)
| CreateBot (host user : jsstring)         (* mineflayer.createBot *)
| CreateClient (host user : jsstring)      (* bedrock-protocol createClient *)
| Quit (bot : handle)                      (* bot.quit() *)
| Close (bot : handle).                    (* bot.close() *)

Inductive opened :=
| Opened (bot : handle)
| OpenFailed (message : jsstring).

(** What the manager reads from its environment. *)
Record World := {
  SERVER_IP : jsstring;                         (* process.env.SERVER_IP *)
  toLocaleTimeString : nat -> jsstring;         (* the n-th reading of the clock *)
  unicodeLower : N -> jsstring;                 (* case table outside ASCII *)
  createBot : jsstring -> jsstring -> opened;   (* host, username *)
  createClient : jsstring -> jsstring -> opened
}.

(** The fields of [BotManager]; [db] is the table behind [this.db],
    [trace] the effects so far in the order they happened, [clock] the
    number of clock readings so far. *)
Record BotManager := {
  bots : list (jsstring * handle);
  accounts : list (jsstring * BotAccount);
  db : list Row;
  trace : list effect;
  clock : nat
}.

Inductive exn :=
| DuplicateId (key : jsstring)     (* SQLite: PRIMARY KEY constraint failed *)
| OpenError (message : jsstring)   (* thrown by an opener *)
| SyntaxError (message : jsstring) (* thrown by [JSON.parse] *)
| TypeError (message : jsstring).  (* a property or a method that is not
                                      there *)

Definition message (e : exn) : jsstring :=
  match e with
  | DuplicateId _ => str "UNIQUE constraint failed: accounts.id"
  | OpenError m | SyntaxError m | TypeError m => m
  end.

(** ** [Map] as an association list in insertion order *)

Section JsMap.
Variable V : Type.

Fixpoint map_get (k : jsstring) (m : list (jsstring * V)) : option V :=
  match m with
  | [] => None
  | (k', v) :: m' => if Js.eqb k k' then Some v else map_get k m'
  end.

(** [Map.prototype.set]: an existing key keeps its place. *)
Fixpoint map_set (k : jsstring) (v : V) (m : list (jsstring * V))
  : list (jsstring * V) :=
  match m with
  | [] => [(k, v)]
  | (k', v') :: m' =>
      if Js.eqb k k' then (k, v) :: m' else (k', v') :: map_set k v m'
  end.

Fixpoint map_delete (k : jsstring) (m : list (jsstring * V))
  : list (jsstring * V) :=
  match m with
  | [] => []
  | (k', v') :: m' =>
      if Js.eqb k k' then map_delete k m' else (k', v') :: map_delete k m'
  end.

Definition map_values (m : list (jsstring * V)) : list V := map snd m.

Definition keys (m : list (jsstring * V)) : list jsstring := map fst m.
End JsMap.

(** ** The monad of the methods: state, and exceptions that keep the state
    reached when they are thrown *)

Inductive outcome (A : Type) :=
| Return (a : A)
| Throw (e : exn).

Arguments Throw {A} e.

Definition M (A : Type) := BotManager -> outcome A * BotManager.

Definition ret {A} (a : A) : M A := fun s => (Return a, s).

Definition bind {A B} (m : M A) (f : A -> M B) : M B :=
  fun s =>
    match m s with
    | (Return a, s') => f a s'
    | (Throw e, s') => (Throw e, s')
    end.

Definition throw {A} (e : exn) : M A := fun s => (Throw e, s).

(** [try { m } catch (err) { h err }] *)
Definition try_catch {A} (m : M A) (h : exn -> M A) : M A :=
  fun s =>
    match m s with
    | (Return a, s') => (Return a, s')
    | (Throw e, s') => h e s'
    end.

Declare Scope js_scope.
Delimit Scope js_scope with js.
Notation "x <- m ;; k" := (bind m (fun x => k))
  (at level 61, m at next level, right associativity) : js_scope.
Notation "m ;; k" := (bind m (fun _ => k))
  (at level 61, right associativity) : js_scope.
Open Scope js_scope.

Definition gets {A} (f : BotManager -> A) : M A := fun s => (Return (f s), s).

Definition modify (f : BotManager -> BotManager) : M unit :=
  fun s => (Return tt, f s).

Definition set_bots b (s : BotManager) : BotManager :=
  {| bots := b; accounts := accounts s; db := db s;
     trace := trace s; clock := clock s |}.

Definition set_accounts a (s : BotManager) : BotManager :=
  {| bots := bots s; accounts := a; db := db s;
     trace := trace s; clock := clock s |}.

Definition set_db d (s : BotManager) : BotManager :=
  {| bots := bots s; accounts := accounts s; db := d;
     trace := trace s; clock := clock s |}.

Definition set_trace t (s : BotManager) : BotManager :=
  {| bots := bots s; accounts := accounts s; db := db s;
     trace := t; clock := clock s |}.

Definition set_clock c (s : BotManager) : BotManager :=
  {| bots := bots s; accounts := accounts s; db := db s;
     trace := trace s; clock := c |}.

(** An effect happens: it is added at the end of the trace. *)
Definition perform (e : effect) : M unit :=
  modify (fun s => set_trace (trace s ++ [e]) s).

(** Field updates of an account object. *)
Definition with_status (st : Status) (a : BotAccount) : BotAccount :=
  {| id := id a; username := username a; type := type a; status := st;
     logs := logs a; accountData := accountData a |}.

Definition with_logs (l : list jsstring) (a : BotAccount) : BotAccount :=
  {| id := id a; username := username a; type := type a; status := status a;
     logs := l; accountData := accountData a |}.

Definition with_accountData (d : BotStats) (a : BotAccount) : BotAccount :=
  {| id := id a; username := username a; type := type a; status := status a;
     logs := logs a; accountData := d |}.

(** The keys of [accountData]. *)
Inductive StatKey := Kshards | Kmoney | Kkills | Kdeaths.

Definition stat (k : StatKey) (d : BotStats) : number :=
  match k with
  | Kshards => shards d
  | Kmoney => money d
  | Kkills => kills d
  | Kdeaths => deaths d
  end.

Definition set_stat (k : StatKey) (v : number) (d : BotStats) : BotStats :=
  match k with
  | Kshards => {| shards := v; money := money d; kills := kills d; deaths := deaths d |}
  | Kmoney => {| shards := shards d; money := v; kills := kills d; deaths := deaths d |}
  | Kkills => {| shards := shards d; money := money d; kills := v; deaths := deaths d |}
  | Kdeaths => {| shards := shards d; money := money d; kills := kills d; deaths := v |}
  end.

Definition zeroStats : BotStats :=
  {| shards := zero; money := zero; kills := zero; deaths := zero |}.

(** ** The text of a statistic *)

Definition SECTION_SIGN : N := 167.

(** [s.replace(/§X/g, '')] where [X] is one unit satisfying [p]: matches are
    taken from left to right and do not overlap. *)
Fixpoint stripCodes (p : N -> bool) (s : jsstring) : jsstring :=
  match s with
  | [] => []
  | a :: t =>
      match t with
      | c :: t' =>
          if (a =? SECTION_SIGN)%N && p c
          then stripCodes p t'
          else a :: stripCodes p t
      | [] => [a]
      end
  end.

(** [.] of a regular expression without the [s] flag. *)
Definition isDot (c : N) : bool := negb (isLineTerminator c).

(** [[0-9a-fk-or]] *)
Definition isColorCode (c : N) : bool :=
  isDigit c || ((97 <=? c) && (c <=? 102))%N
            || ((107 <=? c) && (c <=? 111))%N || (c =? 114)%N.

(** The units of the class [[★$🗡☠⌛⌚]]; without the [u] flag the dagger
    U+1F5E1 contributes its two surrogates. *)
Definition glyphs : list N := [9733; 36; 55357; 56801; 9760; 8987; 8986]%N.

Definition isGlyph (c : N) : bool := existsb (N.eqb c) glyphs.

Definition stripGlyphs (s : jsstring) : jsstring :=
  filter (fun c => negb (isGlyph c)) s.

(** [[kmb]] *)
Definition isSuffix (c : N) : bool :=
  (c =? 107)%N || (c =? 109)%N || (c =? 98)%N.

(** The number pattern of the manager: group 1 is [\d+ \.? \d*] (one or more
    digits, an optional dot, any number of digits, all greedy), group 2 an
    optional [[kmb]].  [numberAt] is its match at a digit: groups 1 and 2. *)
Definition numberAt (s : jsstring) : jsstring * option N :=
  let (ds, r) := span isDigit s in
  let (dot, r1) := match r with
                   | c :: r' => if (c =? DOT)%N then ([DOT], r') else ([], r)
                   | [] => ([], r)
                   end in
  let (fs, r2) := span isDigit r1 in
  (ds ++ dot ++ fs,
   match r2 with
   | c :: _ => if isSuffix c then Some c else None
   | [] => None
   end).

(** [s.match] with the number pattern: the leftmost match starts at the
    first digit of [s]; [None] is the [null] of no match. *)
Fixpoint matchNumber (s : jsstring) : option (jsstring * option N) :=
  match s with
  | [] => None
  | c :: s' => if isDigit c then Some (numberAt s) else matchNumber s'
  end.

(** [{ k: 1e3, m: 1e6, b: 1e9 }[suffix] || 1], which is also the chain of
    comparisons of [updateNumericStat]. *)
Definition multiplier (suffix : option N) : number :=
  match suffix with
  | Some 107%N => ofZ 1000
  | Some 109%N => ofZ 1000000
  | Some 98%N => ofZ 1000000000
  | _ => ofZ 1
  end.

(** The labels of [updateStat], in the order of its array. *)
Definition labels : list (StatKey * jsstring) :=
  [(Kmoney, str "money"); (Kshards, str "shards")].

Section Extraction.
Variable w : World.

(** Step 1 of [updateStat]. *)
Definition clean (rawText : jsstring) : jsstring :=
  toLowerCase (unicodeLower w) (stripGlyphs (stripCodes isDot rawText)).

(** Step 2: [['money', 'shards'].find(l => clean.includes(l))]. *)
Definition findLabel (cl : jsstring) : option (StatKey * jsstring) :=
  find (fun l => includes cl (snd l)) labels.

(** Step 3: [clean.split(label)[1]?.trim() || ""]. *)
Definition valuePart (cl label : jsstring) : jsstring :=
  match nth_error (split cl label) 1 with
  | Some v => trim v
  | None => []
  end.

(** The key and the value [updateStat] computes from a text, when it
    computes one: lines 395 to 414 of the method. *)
Definition extract (rawText : jsstring) : option (StatKey * number) :=
  let cl := clean rawText in
  match findLabel cl with
  | None => None
  | Some (key, label) =>
      match matchNumber (valuePart cl label) with
      | None => None
      | Some (numStr, suffix) =>
          Some (key, mul (parseFloat numStr) (multiplier suffix))
      end
  end.
End Extraction.

(** ** The methods of [BotManager] *)

Section Methods.
Variable w : World.

Definition getAccounts : M (list BotAccount) :=
  gets (fun s => map_values (accounts s)).

Definition emit_update : M unit :=
  snapshot <- getAccounts ;; perform (Emit snapshot).

Definition accounts_get (k : jsstring) : M (option BotAccount) :=
  gets (fun s => map_get k (accounts s)).

(** A write to a field of the account object stored under [k]. *)
Definition store (k : jsstring) (a : BotAccount) : M unit :=
  modify (fun s => set_accounts (map_set k a (accounts s)) s).

Definition now : M jsstring :=
  fun s => (Return (toLocaleTimeString w (clock s)), set_clock (S (clock s)) s).

(** [Array.prototype.shift] *)
Definition shift (l : list jsstring) : list jsstring := tl l.

Definition log (k msg : jsstring) : M unit :=
  account <- accounts_get k ;;
  match account with
  | Some account =>
      t <- now ;;
      let pushed := logs account ++ [str "[" ++ t ++ str "] " ++ msg] in
      let kept := if 100 <? List.length pushed then shift pushed else pushed in
      store k (with_logs kept account) ;;
      emit_update
  | None => ret tt
  end.

(** [INSERT INTO accounts]: the primary key rejects a second row with
    the same id. *)
Definition db_insert (r : Row) : M unit :=
  rows <- gets db ;;
  if existsb (fun r' => Js.eqb (row_id r) (row_id r')) rows
  then throw (DuplicateId (row_id r))
  else modify (fun s => set_db (rows ++ [r]) s).

(** [DELETE FROM accounts WHERE id = ?] *)
Definition db_delete (k : jsstring) : M unit :=
  modify (fun s =>
    set_db (filter (fun r => negb (Js.eqb k (row_id r))) (db s)) s).

Definition fresh (k user : jsstring) (t : BotType) : BotAccount :=
  {| id := k; username := user; type := t; status := offline;
     logs := []; accountData := zeroStats |}.

Definition addAccount (account : Row) : M unit :=
  db_insert account ;;
  modify (fun s => set_accounts
    (map_set (row_id account)
       (fresh (row_id account) (row_username account) (row_type account))
       (accounts s)) s) ;;
  emit_update.

Definition disconnectBot (k : jsstring) : M unit :=
  bot <- gets (fun s => map_get k (bots s)) ;;
  match bot with
  | Some bot =>
      log k ([55357; 56588]%N ++ str " Disconnecting manually...") ;;
      account <- accounts_get k ;;
      match option_map type account with
      | Some java => perform (Quit bot)
      | _ => perform (Close bot)
      end ;;
      modify (fun s => set_bots (map_delete k (bots s)) s)
  | None => ret tt
  end.

Definition removeAccount (k : jsstring) : M unit :=
  disconnectBot k ;;
  db_delete k ;;
  modify (fun s => set_accounts (map_delete k (accounts s)) s) ;;
  emit_update.

Definition typeName (t : BotType) : jsstring :=
  match t with
  | java => str "java"
  | bedrock => str "bedrock"
  end.

(** The call of an opener: it returns a connection object or throws. *)
Definition open (call : effect) (r : opened) : M handle :=
  perform call ;;
  match r with
  | Opened bot => ret bot
  | OpenFailed m => throw (OpenError m)
  end.

Definition connectJava (k user : jsstring) : M unit :=
  try_catch
    (bot <- open (CreateBot (SERVER_IP w) user) (createBot w (SERVER_IP w) user) ;;
     modify (fun s => set_bots (map_set k bot (bots s)) s))
    (fun err => log k (str "Connection failed: " ++ message err)).

Definition connectBedrock (k user : jsstring) : M unit :=
  try_catch
    (client <- open (CreateClient (SERVER_IP w) user)
                    (createClient w (SERVER_IP w) user) ;;
     modify (fun s => set_bots (map_set k client (bots s)) s))
    (fun err => log k (str "Bedrock Connection failed: " ++ message err)).

Definition connectBot (k : jsstring) : M unit :=
  account <- accounts_get k ;;
  match account with
  | None => ret tt
  | Some account =>
      match status account with
      | online => ret tt
      | _ =>
          store k (with_status connecting account) ;;
          emit_update ;;
          log k (str "Connecting to " ++ SERVER_IP w ++ str " ("
                 ++ typeName (type account) ++ str ")...") ;;
          match type account with
          | java => connectJava k (username account)
          | bedrock => connectBedrock k (username account)
          end
      end
  end.

Definition updateStat (k rawText : jsstring) : M unit :=
  if match rawText with [] => true | _ => false end
     || Js.eqb rawText (str "undefined")
  then ret tt
  else
    account <- accounts_get k ;;
    match account with
    | None => ret tt
    | Some account =>
        let cl := clean w rawText in
        match findLabel cl with
        | None => ret tt
        | Some (key, label) =>
            match matchNumber (valuePart cl label) with
            | Some (numStr, suffix) =>
                let finalVal := mul (parseFloat numStr) (multiplier suffix) in
                if negb (strictEq (stat key (accountData account)) finalVal)
                then
                  store k (with_accountData
                             (set_stat key finalVal (accountData account))
                             account) ;;
                  emit_update
                else ret tt
            | None => ret tt
            end
        end
    end.
End Methods.

(** ** The event handlers registered on a connection *)

(** An entry of a scoreboard, as the 'scoreUpdated' handler reads it. *)
Record ScoreItem := {
  displayName : option jsstring;
  name : jsstring
}.

Section Handlers.
Variable w : World.

(** The helper [updateNumericStat] of the 'scoreUpdated' handler; the
    account object it closes over is the one stored under [k]. *)
Definition updateNumericStat (k cleanText : jsstring) (key : StatKey)
           (searchStr : jsstring) : M bool :=
  account <- accounts_get k ;;
  match account with
  | None => ret false
  | Some account =>
      if includes cleanText searchStr
      then
        match matchNumber (toLowerCase (unicodeLower w) cleanText) with
        | Some (numStr, suffix) =>
            let parsed := parseFloat numStr in
            let numPart := if isFalsy parsed then zero else parsed in
            let finalVal := mul numPart (multiplier suffix) in
            if negb (strictEq (stat key (accountData account)) finalVal)
            then
              store k (with_accountData
                         (set_stat key finalVal (accountData account))
                         account) ;;
              ret true
            else ret false
        | None => ret false
        end
      else ret false
  end.

(** [bot.on('scoreUpdated', ...)]; [item] is the entry found in the
    scoreboard, if any. *)
Definition onScoreUpdated (k : jsstring) (item : option ScoreItem) : M unit :=
  account <- accounts_get k ;;
  match item, account with
  | Some item, Some _ =>
      let text := match displayName item with
                  | Some d => d
                  | None => name item
                  end in
      let cleanText := stripCodes isColorCode text in
      shardsChanged <- updateNumericStat k cleanText Kshards (str "Shards") ;;
      moneyChanged <- updateNumericStat k cleanText Kmoney (str "Money") ;;
      if shardsChanged || moneyChanged then emit_update else ret tt
  | _, _ => ret tt
  end.

(** [bot.on('login', ...)] and [client.on('spawn', ...)], which differ in
    the text they log. *)
Definition onJoin (k msg : jsstring) : M unit :=
  account <- accounts_get k ;;
  match account with
  | Some account =>
      store k (with_status online account) ;;
      log w k msg ;;
      emit_update
  | None => ret tt
  end.

(** The 'error', 'end' and 'close' handlers: log, set the status,
    emit. *)
Definition onStop (st : Status) (k msg : jsstring) : M unit :=
  log w k msg ;;
  account <- accounts_get k ;;
  match account with
  | Some account => store k (with_status st account)
  | None => ret tt
  end ;;
  emit_update.

(** [client.on('set_score', ...)] *)
Fixpoint onSetScore (k : jsstring) (entries : list jsstring) : M unit :=
  match entries with
  | [] => ret tt
  | e :: rest => updateStat w k e ;; onSetScore k rest
  end.
End Handlers.

(** ** The AFK menu *)

(** A number in a template literal; the numbers here are indices. *)
Definition numberToString (n : nat) : jsstring :=
  str (NilEmpty.string_of_uint (Nat.to_uint n)).

(** [Array.prototype.findIndex]; [None] is the -1 of no match. *)
Fixpoint findIndex (A : Type) (p : A -> bool) (l : list A) : option nat :=
  match l with
  | [] => None
  | x :: l' => if p x then Some 0 else option_map S (findIndex p l')
  end.

(** A slot of a window of the Java connection: its number and, when it has
    NBT data, the text [JSON.stringify] gives for them. *)
Record Slot := {
  slot : nat;
  nbt : option jsstring
}.

(** An element of the array [buttons] of a form. *)
Inductive Button :=
| Button_text (text : jsstring)  (* an object with a string under [text] *)
| Button_bad (msg : jsstring).   (* any other value: [b.text.toLowerCase()]
                                    throws a TypeError, of message [msg] *)

(** What [JSON.parse(packet.data)] gives, as far as the
    'modal_form_request' handler looks at it. *)
Inductive FormData :=
| Unparsable (msg : jsstring)    (* not JSON: a SyntaxError *)
| NoButtons (msg : jsstring)     (* a value with no array under [buttons]:
                                    [formData.buttons.findIndex] throws a
                                    TypeError *)
| Form (buttons : list Button).

Section AfkMenu.
Variable w : World.

(** The test of the 'modal_form_request' handler on the text of a
    button. *)
Definition isAfkButton (text : jsstring) : bool :=
  let txt := toLowerCase (unicodeLower w) text in
  includes txt (str "random afk area") || includes txt (str "click to teleport").

(** [formData.buttons.findIndex(b => ...)]: the buttons are tested in
    order up to the first that passes; the test throws at a button that has
    no text. *)
Fixpoint scanButtons (buttons : list Button) : exn + option nat :=
  match buttons with
  | [] => inr None
  | Button_bad m :: _ => inl (TypeError m)
  | Button_text text :: rest =>
      if isAfkButton text then inr (Some 0)
      else match scanButtons rest with
           | inr btnIdx => inr (option_map S btnIdx)
           | inl err => inl err
           end
  end.

(** Lines 447 to 454 of the handler: the index it answers with, or what it
    throws. *)
Definition formIndex (data : FormData) : exn + nat :=
  match data with
  | Unparsable m => inl (SyntaxError m)
  | NoButtons m => inl (TypeError m)
  | Form buttons =>
      match scanButtons buttons with
      | inr (Some btnIdx) => inr btnIdx
      | inr None => inr 0
      | inl err => inl err
      end
  end.

Definition targetIdx (buttons : list jsstring) : nat :=
  match findIndex isAfkButton buttons with
  | Some btnIdx => btnIdx
  | None => 0
  end.

(** [client.on('modal_form_request', ...)] on the texts of the buttons of
    the form; the value returned is the index it queues in the
    'modal_form_response'. *)
Definition onModalFormRequest (k : jsstring) (buttons : list jsstring)
  : M nat :=
  log w k (str "Clicking button index " ++ numberToString (targetIdx buttons)
           ++ str "...") ;;
  ret (targetIdx buttons).

(** The test of the 'windowOpen' handler on a slot, which may be null. *)
Definition isAfkItem (s : option Slot) : bool :=
  match s with
  | Some item =>
      match nbt item with
      | Some json =>
          includes (toLowerCase (unicodeLower w) json)
                   (str "click to teleport to a random afk area")
      | None => false
      end
  | None => false
  end.

(** [bot.on('windowOpen', ...)] on the slots of the window; the value
    returned is the slot it clicks, if it clicks one. *)
Definition onWindowOpen (k : jsstring) (slots : list (option Slot))
  : M (option nat) :=
  match find isAfkItem slots with
  | Some (Some item) =>
      log w k (str "Clicking button index " ++ numberToString (slot item)
               ++ str "...") ;;
      ret (Some (slot item))
  | _ =>
      log w k (str "Could not find the Random AFK item") ;;
      ret None
  end.

(** [client.on('modal_form_request', ...)] on the packet: [JSON.parse],
    [findIndex] and the reading of the texts are outside of any [try], so
    what they throw leaves the handler, before anything is logged. *)
Definition onModalFormPacket (k : jsstring) (data : FormData) : M nat :=
  match formIndex data with
  | inl err => throw err
  | inr idx =>
      log w k (str "Clicking button index " ++ numberToString idx
               ++ str "...") ;;
      ret idx
  end.
End AfkMenu.

(** ** Runs of the manager *)

(** The calls that reach the manager: the commands of the server and the
    events of the connections.  [Log] stands for the public method and for
    the handlers that only log ('spawn', 'message', 'kicked', 'text', 'kick'
    and the login-link callback), [UpdateStat] for the 'teams' handler when
    it has a text. *)
Inductive op :=
| AddAccount (account : Row)
| RemoveAccount (k : jsstring)
| ConnectBot (k : jsstring)
| DisconnectBot (k : jsstring)
| Log (k msg : jsstring)
| UpdateStat (k rawText : jsstring)
| SetScore (k : jsstring) (entries : list jsstring)
| ScoreUpdated (k : jsstring) (item : option ScoreItem)
| Login (k : jsstring)
| Spawn (k : jsstring)
| JavaError (k msg : jsstring)
| BedrockError (k msg : jsstring)
| End (k reason : jsstring)
| Closed (k : jsstring)
| WindowOpen (k : jsstring) (slots : list (option Slot))
| ModalFormRequest (k : jsstring) (data : FormData).

Definition run (w : World) (o : op) : M unit :=
  match o with
  | AddAccount account => addAccount account
  | RemoveAccount k => removeAccount w k
  | ConnectBot k => connectBot w k
  | DisconnectBot k => disconnectBot w k
  | Log k msg => log w k msg
  | UpdateStat k rawText => updateStat w k rawText
  | SetScore k entries => onSetScore w k entries
  | ScoreUpdated k item => onScoreUpdated w k item
  | Login k => onJoin w k (str "Logged in successfully!")
  | Spawn k => onJoin w k (str "Bedrock bot spawned!")
  | JavaError k msg => onStop w error k (str "Error: " ++ msg)
  | BedrockError k msg => onStop w error k (str "Bedrock Error: " ++ msg)
  | End k reason =>
      onStop w offline k
        (str "Bot disconnected. Reason: "
         ++ match reason with [] => str "Socket closed" | _ => reason end)
  | Closed k => onStop w offline k (str "Bedrock connection closed.")
  | WindowOpen k slots => onWindowOpen w k slots ;; ret tt
  | ModalFormRequest k data => onModalFormPacket w k data ;; ret tt
  end.

(** The state after a call, whether it returned or threw. *)
Definition after (w : World) (o : op) (s : BotManager) : BotManager :=
  snd (run w o s).

(** [loadAccounts] *)
Definition loadAccounts (rows : list Row) : list (jsstring * BotAccount) :=
  fold_left
    (fun m row =>
       map_set (row_id row)
               (fresh (row_id row) (row_username row) (row_type row)) m)
    rows [].

(** [new BotManager(dbPath)] on a database file that holds [rows]. *)
Definition newBotManager (rows : list Row) : BotManager :=
  {| bots := []; accounts := loadAccounts rows; db := rows;
     trace := []; clock := 0 |}.

Definition row_ids (rows : list Row) : list jsstring := map row_id rows.

(** The states the manager goes through; the primary key makes the ids of
    the rows it starts from distinct. *)
Inductive reachable : BotManager -> Prop :=
| reach_new : forall rows,
    NoDup (row_ids rows) -> reachable (newBotManager rows)
| reach_step : forall w o s,
    reachable s -> reachable (after w o s).

(** The 'update' emissions of a trace, oldest first. *)
Fixpoint emissions (t : list effect) : list (list BotAccount) :=
  match t with
  | [] => []
  | Emit snapshot :: t' => snapshot :: emissions t'
  | _ :: t' => emissions t'
  end.

(** ** The methods as state transformers, and the invariant *)

(** The line [log] writes at clock reading [c]. *)
Definition stamp (w : World) (c : nat) (msg : jsstring) : jsstring :=
  str "[" ++ toLocaleTimeString w c ++ str "] " ++ msg.

(** [push] followed by the conditional [shift] of [log]. *)
Definition pushShift (l : list jsstring) (line : jsstring) : list jsstring :=
  if 100 <? List.length (l ++ [line]) then shift (l ++ [line]) else l ++ [line].

Definition stored (k : jsstring) (a : BotAccount) (s : BotManager) :=
  set_accounts (map_set k a (accounts s)) s.

Definition performed (e : effect) (s : BotManager) :=
  set_trace (trace s ++ [e]) s.

Definition emitted (s : BotManager) :=
  performed (Emit (map_values (accounts s))) s.

Definition logged (w : World) (k msg : jsstring) (s : BotManager) :=
  match map_get k (accounts s) with
  | Some a =>
      emitted (stored k (with_logs (pushShift (logs a) (stamp w (clock s) msg)) a)
                      (set_clock (S (clock s)) s))
  | None => s
  end.

Definition closing (account : option BotAccount) (bot : handle) : effect :=
  match option_map type account with
  | Some java => Quit bot
  | _ => Close bot
  end.

Definition DISCONNECTING : jsstring :=
  [55357; 56588]%N ++ str " Disconnecting manually...".

Definition disconnected (w : World) (k : jsstring) (s : BotManager) :=
  match map_get k (bots s) with
  | Some bot =>
      let s1 := logged w k DISCONNECTING s in
      let s2 := performed (closing (map_get k (accounts s1)) bot) s1 in
      set_bots (map_delete k (bots s2)) s2
  | None => s
  end.

Definition removed (w : World) (k : jsstring) (s : BotManager) :=
  let s1 := disconnected w k s in
  let s2 := set_db (filter (fun r => negb (Js.eqb k (row_id r))) (db s1)) s1 in
  emitted (set_accounts (map_delete k (accounts s2)) s2).

Definition added (account : Row) (s : BotManager) :=
  emitted
    (stored (row_id account)
       (fresh (row_id account) (row_username account) (row_type account))
       (set_db (db s ++ [account]) s)).

(** The opener call of a variant and the text logged when it throws. *)
Definition openerCall (w : World) (t : BotType) (user : jsstring) : effect :=
  match t with
  | java => CreateBot (SERVER_IP w) user
  | bedrock => CreateClient (SERVER_IP w) user
  end.

Definition openerResult (w : World) (t : BotType) (user : jsstring) : opened :=
  match t with
  | java => createBot w (SERVER_IP w) user
  | bedrock => createClient w (SERVER_IP w) user
  end.

Definition failureText (t : BotType) (m : jsstring) : jsstring :=
  match t with
  | java => str "Connection failed: " ++ m
  | bedrock => str "Bedrock Connection failed: " ++ m
  end.

Definition opening (w : World) (t : BotType) (k user : jsstring)
           (s : BotManager) :=
  let s1 := performed (openerCall w t user) s in
  match openerResult w t user with
  | Opened bot => set_bots (map_set k bot (bots s1)) s1
  | OpenFailed m => logged w k (failureText t m) s1
  end.

Definition CONNECTING (w : World) (t : BotType) : jsstring :=
  str "Connecting to " ++ SERVER_IP w ++ str " (" ++ typeName t ++ str ")...".

(** The state in which [connectBot] calls the opener. *)
Definition announced (w : World) (k : jsstring) (a : BotAccount)
           (s : BotManager) :=
  logged w k (CONNECTING w (type a))
         (emitted (stored k (with_status connecting a) s)).

Definition connected (w : World) (k : jsstring) (s : BotManager) :=
  match map_get k (accounts s) with
  | None => s
  | Some a =>
      match status a with
      | online => s
      | _ => opening w (type a) k (username a) (announced w k a s)
      end
  end.

(** [updateStat] returns at once on an empty text and on the text
    "undefined". *)
Definition ignored (rawText : jsstring) : bool :=
  match rawText with [] => true | _ => false end
  || Js.eqb rawText (str "undefined").

(** The merge of a value into the statistics of the account under [k]. *)
Definition merged (k : jsstring) (key : StatKey) (v : number)
           (s : BotManager) :=
  match map_get k (accounts s) with
  | Some a =>
      if strictEq (stat key (accountData a)) v then s
      else emitted (stored k (with_accountData
                                (set_stat key v (accountData a)) a) s)
  | None => s
  end.

Definition statUpdated (w : World) (k rawText : jsstring) (s : BotManager) :=
  if ignored rawText then s
  else match extract w rawText with
       | Some (key, v) => merged k key v s
       | None => s
       end.

Definition scoresSet (w : World) (k : jsstring) (entries : list jsstring)
           (s : BotManager) :=
  fold_left (fun s e => statUpdated w k e s) entries s.

(** The value [updateNumericStat] computes from the text of an entry for
    the label [searchStr], when it computes one. *)
Definition scoreValue (w : World) (cleanText searchStr : jsstring)
  : option number :=
  if includes cleanText searchStr
  then match matchNumber (toLowerCase (unicodeLower w) cleanText) with
       | Some (numStr, suffix) =>
           let parsed := parseFloat numStr in
           Some (mul (if isFalsy parsed then zero else parsed)
                     (multiplier suffix))
       | None => None
       end
  else None.

(** The same merge without the emission. *)
Definition mergedQuietly (k : jsstring) (key : StatKey) (v : option number)
           (s : BotManager) : bool * BotManager :=
  match map_get k (accounts s), v with
  | Some a, Some v =>
      if strictEq (stat key (accountData a)) v then (false, s)
      else (true, stored k (with_accountData
                              (set_stat key v (accountData a)) a) s)
  | _, _ => (false, s)
  end.

Definition itemText (item : ScoreItem) : jsstring :=
  stripCodes isColorCode
    match displayName item with
    | Some d => d
    | None => name item
    end.

Definition scoreUpdated (w : World) (k : jsstring) (item : option ScoreItem)
           (s : BotManager) :=
  match item, map_get k (accounts s) with
  | Some item, Some _ =>
      let r1 := mergedQuietly k Kshards
                  (scoreValue w (itemText item) (str "Shards")) s in
      let r2 := mergedQuietly k Kmoney
                  (scoreValue w (itemText item) (str "Money")) (snd r1) in
      if fst r1 || fst r2 then emitted (snd r2) else snd r2
  | _, _ => s
  end.

Definition joined (w : World) (k msg : jsstring) (s : BotManager) :=
  match map_get k (accounts s) with
  | Some a => emitted (logged w k msg (stored k (with_status online a) s))
  | None => s
  end.

Definition stopped (w : World) (st : Status) (k msg : jsstring)
           (s : BotManager) :=
  let s1 := logged w k msg s in
  emitted match map_get k (accounts s1) with
          | Some a => stored k (with_status st a) s1
          | None => s1
          end.

Definition boundedLogs (kv : jsstring * BotAccount) : Prop :=
  List.length (logs (snd kv)) <= 100.

(** The account map mirrors the table, key for key and in the same order;
    every connection belongs to an account; no log exceeds 100 lines. *)
Record Inv (s : BotManager) : Prop := {
  inv_keys : keys (accounts s) = row_ids (db s);
  inv_bots : incl (keys (bots s)) (keys (accounts s));
  inv_logs : Forall boundedLogs (accounts s)
}.

(** ** Runs of log appends *)

(** [msgs] appended one after the other to the log of the account [k]. *)
Definition appendLogs (w : World) (k : jsstring) (msgs : list jsstring)
           (s : BotManager) : BotManager :=
  fold_left (fun s msg => after w (Log k msg) s) msgs s.

(** The lines these appends write, the first one at clock reading [c]. *)
Fixpoint stamps (w : World) (c : nat) (msgs : list jsstring) : list jsstring :=
  match msgs with
  | [] => []
  | msg :: rest => stamp w c msg :: stamps w (S c) rest
  end.

(** The last [n] elements of a list, in order. *)
Definition lastN (A : Type) (n : nat) (l : list A) : list A :=
  skipn (List.length l - n) l.

(** ** Sample inputs *)

Definition plainWorld : World :=
  {| SERVER_IP := str "play.example.net";
     toLocaleTimeString := fun _ => str "12:00:00 PM";
     unicodeLower := fun c => [c];
     createBot := fun _ _ => Opened 1;
     createClient := fun _ _ => OpenFailed (str "ping timed out") |}.

Definition steve : Row :=
  {| row_id := str "a1"; row_username := str "Steve"; row_type := java |}.

Definition alex : Row :=
  {| row_id := str "b2"; row_username := str "Alex"; row_type := bedrock |}.

(** A manager started on an empty table to which the two accounts were
    added. *)
Definition twoAccounts : BotManager :=
  after plainWorld (AddAccount alex)
    (after plainWorld (AddAccount steve) (newBotManager [])).

(** The same manager once the first account is connected. *)
Definition steveConnected : BotManager :=
  after plainWorld (ConnectBot (str "a1")) twoAccounts.

(** ** Values of statistics *)

(** The numbers that are not [NaN] and carry no minus sign. *)
Definition nonNegative (x : number) : Prop :=
  match x with
  | S754_nan => False
  | S754_zero sg | S754_infinity sg | S754_finite sg _ _ => sg = false
  end.

(** ** The shape of a number in a text *)

(** [p] holds of the first unit of [l]. *)
Definition headIs (p : N -> bool) (l : jsstring) : bool :=
  match l with
  | c :: _ => p c
  | [] => false
  end.

Definition noDigit (l : jsstring) : bool :=
  forallb (fun c => negb (isDigit c)) l.

(** The part [\.? \d*] of the pattern, greedy: either nothing, and then
    neither a dot nor a digit comes next, or a dot and all the digits that
    follow it, possibly none. *)
Definition isFraction (frac next : jsstring) : Prop :=
  (frac = [] /\ headIs (fun c => isDigit c || (c =? DOT)%N) next = false)
  \/ (exists fs, frac = DOT :: fs /\ forallb isDigit fs = true
                 /\ headIs isDigit next = false).

(** The part [([kmb])?] of the pattern: one of the three letters when it
    comes next, nothing otherwise. *)
Definition isSuffixPart (sf rest : jsstring) : Prop :=
  (exists c, sf = [c] /\ isSuffix c = true)
  \/ (sf = [] /\ headIs isSuffix rest = false).

(** [v] read as: units that are not digits, then the leftmost longest
    match [ds frac sf] of the grammar digits[.][digits][k|m|b], then the
    rest. *)
Record NumberShape (v pre ds frac sf rest : jsstring) : Prop := {
  shape_eq : v = pre ++ ds ++ frac ++ sf ++ rest;
  shape_pre : noDigit pre = true;
  shape_ds : ds <> [];
  shape_digits : forallb isDigit ds = true;
  shape_frac : isFraction frac (sf ++ rest);
  shape_suffix : isSuffixPart sf rest
}.

(** ** The grammar in the words of the specification *)

(** The number at a digit as the specification describes it,
    "digits[.digits][k|m|b]": a dot belongs to the number only when digits
    follow it.  For comparison with [numberAt]. *)
Definition specNumberAt (s : jsstring) : jsstring * option N :=
  let (ds, r) := span isDigit s in
  let (frac, r1) := match r with
                    | c :: r' =>
                        if (c =? DOT)%N && headIs isDigit r'
                        then let (fs, r'') := span isDigit r' in
                             (DOT :: fs, r'')
                        else ([], r)
                    | [] => ([], r)
                    end in
  (ds ++ frac,
   match r1 with
   | c :: _ => if isSuffix c then Some c else None
   | [] => None
   end).

Fixpoint specMatchNumber (s : jsstring) : option (jsstring * option N) :=
  match s with
  | [] => None
  | c :: s' => if isDigit c then Some (specNumberAt s) else specMatchNumber s'
  end.

(** [extract] with the grammar of the specification in the place of the
    pattern of the code. *)
Definition specExtract (w : World) (rawText : jsstring)
  : option (StatKey * number) :=
  let cl := clean w rawText in
  match findLabel cl with
  | None => None
  | Some (key, label) =>
      match specMatchNumber (valuePart cl label) with
      | None => None
      | Some (numStr, suffix) =>
          Some (key, mul (parseFloat numStr) (multiplier suffix))
      end
  end.

(** ** Texts that differ in the case of ASCII letters *)



(** A scoreboard entry whose text is [t]. *)
Definition entry (t : jsstring) : ScoreItem :=
  {| displayName := None; name := t |}.

(** ** The text after a label *)

(** [String.prototype.indexOf]: the index of the first occurrence of [sep]
    in [s]; [None] is the -1 of no occurrence. *)
Fixpoint indexOf (s sep : jsstring) : option nat :=
  if startsWith s sep then Some 0
  else match s with
       | [] => None
       | _ :: s' => option_map S (indexOf s' sep)
       end.

(** The text that follows the occurrence of [label] at index [n]. *)
Definition following (cl label : jsstring) (n : nat) : jsstring :=
  skipn (n + List.length label) cl.


(** ** The calls by kind *)

(** The id a call is about. *)
Definition target (o : op) : jsstring :=
  match o with
  | AddAccount account => row_id account
  | RemoveAccount k | ConnectBot k | DisconnectBot k | Log k _
  | UpdateStat k _ | SetScore k _ | ScoreUpdated k _ | Login k | Spawn k
  | JavaError k _ | BedrockError k _ | End k _ | Closed k
  | WindowOpen k _ | ModalFormRequest k _ => k
  end.

(** The line the AFK handlers log for the index they choose. *)
Definition clicking (idx : nat) : jsstring :=
  str "Clicking button index " ++ numberToString idx ++ str "...".

(** The line the 'windowOpen' handler logs. *)
Definition windowLine (w : World) (slots : list (option Slot)) : jsstring :=
  match find (isAfkItem w) slots with
  | Some (Some item) => clicking (slot item)
  | _ => str "Could not find the Random AFK item"
  end.

(** The state a call leaves, method by method. *)
Definition effectOf (w : World) (o : op) (s : BotManager) : BotManager :=
  match o with
  | AddAccount account =>
      if existsb (fun r => Js.eqb (row_id account) (row_id r)) (db s)
      then s else added account s
  | RemoveAccount k => removed w k s
  | ConnectBot k => connected w k s
  | DisconnectBot k => disconnected w k s
  | Log k msg => logged w k msg s
  | UpdateStat k rawText => statUpdated w k rawText s
  | SetScore k entries => scoresSet w k entries s
  | ScoreUpdated k item => scoreUpdated w k item s
  | Login k => joined w k (str "Logged in successfully!") s
  | Spawn k => joined w k (str "Bedrock bot spawned!") s
  | JavaError k msg => stopped w error k (str "Error: " ++ msg) s
  | BedrockError k msg => stopped w error k (str "Bedrock Error: " ++ msg) s
  | End k reason =>
      stopped w offline k
        (str "Bot disconnected. Reason: "
         ++ match reason with [] => str "Socket closed" | _ => reason end) s
  | Closed k => stopped w offline k (str "Bedrock connection closed.") s
  | WindowOpen k slots => logged w k (windowLine w slots) s
  | ModalFormRequest k data =>
      match formIndex w data with
      | inr idx => logged w k (clicking idx) s
      | inl _ => s
      end
  end.

(** The calls that write the table, and the calls that write [bots]. *)
Definition writesTable (o : op) : bool :=
  match o with
  | AddAccount _ | RemoveAccount _ => true
  | _ => false
  end.

Definition writesBots (o : op) : bool :=
  match o with
  | ConnectBot _ | DisconnectBot _ | RemoveAccount _ => true
  | _ => false
  end.

(** The events that report that the connection has joined the server. *)
Definition isJoin (o : op) : bool :=
  match o with
  | Login _ | Spawn _ => true
  | _ => false
  end.

(** ** What a call may write to an account *)

(** The calls that append to the log of the account. *)
Definition writesLogs (o : op) : bool :=
  match o with
  | AddAccount _ | UpdateStat _ _ | SetScore _ _ | ScoreUpdated _ _ => false
  | _ => true
  end.

(** The status a call assigns, for the calls that assign one. *)
Definition statusSet (o : op) : option Status :=
  match o with
  | ConnectBot _ => Some connecting
  | Login _ | Spawn _ => Some online
  | JavaError _ _ | BedrockError _ _ => Some error
  | End _ _ | Closed _ => Some offline
  | _ => None
  end.

(** The calls that assign statistics. *)
Definition writesStats (o : op) : bool :=
  match o with
  | UpdateStat _ _ | SetScore _ _ | ScoreUpdated _ _ => true
  | _ => false
  end.

(** One assignment to a field of an account object, as the call [o] may
    make it. *)
Inductive update (o : op) : BotAccount -> BotAccount -> Prop :=
| update_logs : forall a line,
    writesLogs o = true ->
    update o a (with_logs (pushShift (logs a) line) a)
| update_status : forall a st,
    statusSet o = Some st -> update o a (with_status st a)
| update_stat : forall a key v,
    writesStats o = true ->
    key = Kmoney \/ key = Kshards ->
    nonNegative v ->
    update o a (with_accountData (set_stat key v (accountData a)) a).

(** Any number of such assignments, one after the other. *)
Inductive updates (o : op) : BotAccount -> BotAccount -> Prop :=
| updates_none : forall a, updates o a a
| updates_more : forall a b c, updates o a b -> update o b c -> updates o a c.

(** From [s] to [s'] the accounts under the other ids are the same, and
    the account under [k0], which is neither added nor removed, has gone
    through assignments of the call [o]. *)
Definition changes (o : op) (k0 : jsstring) (s s' : BotManager) : Prop :=
  (forall k, k <> k0 -> map_get k (accounts s') = map_get k (accounts s))
  /\ match map_get k0 (accounts s), map_get k0 (accounts s') with
     | Some a, Some a' => updates o a a'
     | None, None => True
     | _, _ => False
     end.

(** ** New lines of a log *)

(** The most lines a call appends to the log of its account. *)
Definition linesBound (o : op) : nat :=
  match o with
  | ConnectBot _ => 2
  | _ => if writesLogs o then 1 else 0
  end.

(** A line that [log] wrote at a clock reading from [c] on and before
    [c']. *)
Definition stampedIn (w : World) (c c' : nat) (line : jsstring) : Prop :=
  exists t msg, c <= t < c' /\ line = stamp w t msg.

(** From [s] to [s'] the account under [k], when there is one with at
    most 100 lines, has got [n] new lines at the end of its log, one for
    each reading of the clock, and has lost the lines that a log of 100
    lines has no room for. *)
Definition appended (w : World) (k : jsstring) (n : nat)
           (s s' : BotManager) : Prop :=
  forall a,
    map_get k (accounts s) = Some a -> List.length (logs a) <= 100 ->
    clock s' = clock s + n
    /\ exists a' lines,
         map_get k (accounts s') = Some a'
         /\ List.length lines = n
         /\ Forall (stampedIn w (clock s) (clock s')) lines
         /\ logs a' = lastN 100 (logs a ++ lines).

(** ** Statistics in good order *)

(** Kills and deaths are zero, money and shards are numbers that are not
    NaN and not negative. *)
Definition statsInOrder (a : BotAccount) : Prop :=
  kills (accountData a) = zero
  /\ deaths (accountData a) = zero
  /\ nonNegative (money (accountData a))
  /\ nonNegative (shards (accountData a)).

(** ** Accounts and rows *)

(** The account carries the identity the row records. *)
Definition mirrors (a : BotAccount) (r : Row) : Prop :=
  id a = row_id r /\ username a = row_username r /\ type a = row_type r.

(** The account [loadAccounts] makes of a row. *)
Definition ofRow (r : Row) : jsstring * BotAccount :=
  (row_id r, fresh (row_id r) (row_username r) (row_type r)).

(** An account as it is after a restart: its identity, and nothing of
    what it went through. *)
Definition restarted (kv : jsstring * BotAccount) : jsstring * BotAccount :=
  (fst kv, fresh (id (snd kv)) (username (snd kv)) (type (snd kv))).

(** ** Removing every account *)

(** The loop of the test set-up: [removeAccount] for every account of a
    list. *)
Definition removeEach (w : World) (l : list BotAccount) (s : BotManager)
  : BotManager :=
  fold_left (fun s acc => after w (RemoveAccount (id acc)) s) l s.

(** ** Observers *)

(** The last 'update' emitted carries the list of accounts as it is. *)
Definition current (s : BotManager) : Prop :=
  exists earlier,
    emissions (trace s) = earlier ++ [map_values (accounts s)].

(** ** The control messages of the server *)

(** A message [{ type, id? }]: an id that is missing or empty is falsy. *)
Definition truthy (id : option jsstring) : bool :=
  match id with
  | Some (_ :: _) => true
  | _ => false
  end.

(** The [message] handler of the '/ws' route of [server.ts]. *)
Definition wsMessage (w : World) (type : jsstring) (id : option jsstring)
  : M unit :=
  let k := match id with Some k => k | None => [] end in
  if Js.eqb type (str "connect") && truthy id then connectBot w k
  else if Js.eqb type (str "disconnect") && truthy id then disconnectBot w k
  else ret tt.

(** * Properties *)

(** ** Strings and maps *)

Lemma eqb_eq (a b : jsstring) : Js.eqb a b = true <-> a = b.
Proof.
  revert b; induction a as [|x a IH]; intros [|y b]; simpl; split; intro H;
    try reflexivity; try discriminate.
  - apply andb_true_iff in H as [Hx Hab].
    apply N.eqb_eq in Hx. apply IH in Hab. congruence.
  - injection H as -> ->. apply andb_true_iff; split.
    + apply N.eqb_refl.
    + now apply IH.
Qed.

Lemma eqb_refl (a : jsstring) : Js.eqb a a = true.
Proof. now apply eqb_eq. Qed.

Lemma eqb_neq (a b : jsstring) : Js.eqb a b = false <-> a <> b.
Proof.
  split.
  - intros H E. apply eqb_eq in E. congruence.
  - intro H. destruct (Js.eqb a b) eqn:E; [|reflexivity].
    apply eqb_eq in E. contradiction.
Qed.

Section MapFacts.
Variable V : Type.
Implicit Types (m : list (jsstring * V)) (k : jsstring) (v : V).

Lemma map_get_none k m : map_get k m = None <-> ~ In k (keys m).
Proof.
  induction m as [|[k' v'] m IH]; simpl.
  - tauto.
  - destruct (Js.eqb k k') eqn:E.
    + apply eqb_eq in E. subst. split; [discriminate | intro H; tauto].
    + apply eqb_neq in E. rewrite IH. split; intro H.
      * intros [H1 | H1]; [congruence | tauto].
      * tauto.
Qed.

Lemma map_get_some k m v : map_get k m = Some v -> In k (keys m).
Proof.
  intro H. destruct (in_dec (list_eq_dec N.eq_dec) k (keys m)) as [Hi | Hn].
  - assumption.
  - apply map_get_none in Hn. congruence.
Qed.

Lemma map_get_in k m v : map_get k m = Some v -> In (k, v) m.
Proof.
  induction m as [|[k' v'] m IH]; simpl; [discriminate|].
  destruct (Js.eqb k k') eqn:E.
  - apply eqb_eq in E. intros [= ->]. subst. now left.
  - intro H. right. now apply IH.
Qed.

Lemma keys_set_present k v m :
  In k (keys m) -> keys (map_set k v m) = keys m.
Proof.
  induction m as [|[k' v'] m IH]; simpl; [tauto|].
  destruct (Js.eqb k k') eqn:E; simpl.
  - apply eqb_eq in E. now subst.
  - apply eqb_neq in E. intros [H | H]; [congruence|].
    f_equal. now apply IH.
Qed.

Lemma keys_set_absent k v m :
  ~ In k (keys m) -> keys (map_set k v m) = keys m ++ [k].
Proof.
  induction m as [|[k' v'] m IH]; simpl; [reflexivity|].
  destruct (Js.eqb k k') eqn:E; simpl.
  - apply eqb_eq in E. subst. tauto.
  - intro H. f_equal. apply IH. tauto.
Qed.

Lemma keys_delete k m :
  keys (map_delete k m) = filter (fun k' => negb (Js.eqb k k')) (keys m).
Proof.
  induction m as [|[k' v'] m IH]; simpl; [reflexivity|].
  destruct (Js.eqb k k'); simpl; now rewrite IH.
Qed.

Lemma map_delete_absent k m : ~ In k (keys m) -> map_delete k m = m.
Proof.
  induction m as [|[k' v'] m IH]; simpl; [reflexivity|].
  intro H. destruct (Js.eqb k k') eqn:E.
  - apply eqb_eq in E. subst. tauto.
  - f_equal. apply IH. tauto.
Qed.

Lemma get_set_same k v m : map_get k (map_set k v m) = Some v.
Proof.
  induction m as [|[k' v'] m IH]; simpl.
  - now rewrite eqb_refl.
  - destruct (Js.eqb k k') eqn:E; simpl.
    + now rewrite eqb_refl.
    + now rewrite E.
Qed.

Lemma get_set_other k k' v m :
  k' <> k -> map_get k' (map_set k v m) = map_get k' m.
Proof.
  intro Hne. induction m as [|[k0 v0] m IH]; simpl.
  - apply eqb_neq in Hne. now rewrite Hne.
  - destruct (Js.eqb k k0) eqn:E; simpl.
    + apply eqb_eq in E. subst k0.
      apply eqb_neq in Hne. now rewrite Hne.
    + destruct (Js.eqb k' k0); [reflexivity | exact IH].
Qed.

Lemma get_delete_same k m : map_get k (map_delete k m) = None.
Proof.
  induction m as [|[k' v'] m IH]; simpl; [reflexivity|].
  destruct (Js.eqb k k') eqn:E; simpl; [exact IH | now rewrite E].
Qed.

Lemma Forall_map_set (P : jsstring * V -> Prop) k v m :
  Forall P m -> P (k, v) -> Forall P (map_set k v m).
Proof.
  intros Hm Hkv. induction Hm as [|[k' v'] m Hx Hm IH]; simpl.
  - now constructor.
  - destruct (Js.eqb k k'); now constructor.
Qed.

Lemma Forall_map_delete (P : jsstring * V -> Prop) k m :
  Forall P m -> Forall P (map_delete k m).
Proof.
  intro Hm. induction Hm as [|[k' v'] m Hx Hm IH]; simpl.
  - constructor.
  - destruct (Js.eqb k k'); [assumption | now constructor].
Qed.
End MapFacts.

Lemma filter_id_absent (k : jsstring) (l : list jsstring) :
  ~ In k l -> filter (fun k' => negb (Js.eqb k k')) l = l.
Proof.
  induction l as [|x l IH]; simpl; [reflexivity|].
  intro H. destruct (Js.eqb k x) eqn:E; simpl.
  - apply eqb_eq in E. subst. tauto.
  - f_equal. apply IH. tauto.
Qed.

Lemma row_ids_filter (k : jsstring) (rows : list Row) :
  row_ids (filter (fun r => negb (Js.eqb k (row_id r))) rows)
  = filter (fun k' => negb (Js.eqb k k')) (row_ids rows).
Proof.
  induction rows as [|r rows IH]; simpl; [reflexivity|].
  destruct (Js.eqb k (row_id r)); simpl; now rewrite IH.
Qed.

Lemma existsb_row_ids (k : jsstring) (rows : list Row) :
  existsb (fun r => Js.eqb k (row_id r)) rows = true <-> In k (row_ids rows).
Proof.
  induction rows as [|r rows IH]; simpl.
  - split; [discriminate | tauto].
  - rewrite orb_true_iff, IH, eqb_eq. split; intros [H | H]; auto.
Qed.

(** ** The methods as state transformers *)

Lemma log_eq w k msg s : log w k msg s = (Return tt, logged w k msg s).
Proof.
  unfold log, logged, bind, accounts_get, gets.
  destruct (map_get k (accounts s)); reflexivity.
Qed.

Lemma disconnectBot_eq w k s :
  disconnectBot w k s = (Return tt, disconnected w k s).
Proof.
  unfold disconnectBot, disconnected, bind, gets.
  destruct (map_get k (bots s)) as [bot|]; [|reflexivity].
  change ([55357; 56588]%N ++ str " Disconnecting manually...")
    with DISCONNECTING.
  rewrite log_eq. unfold accounts_get, gets, closing. cbv zeta.
  destruct (option_map type (map_get k (accounts (logged w k DISCONNECTING s))))
    as [[|]|]; reflexivity.
Qed.

Lemma removeAccount_eq w k s :
  removeAccount w k s = (Return tt, removed w k s).
Proof.
  unfold removeAccount, removed, bind. now rewrite disconnectBot_eq.
Qed.

Lemma addAccount_eq account s :
  addAccount account s =
  if existsb (fun r => Js.eqb (row_id account) (row_id r)) (db s)
  then (Throw (DuplicateId (row_id account)), s)
  else (Return tt, added account s).
Proof.
  unfold addAccount, added, db_insert, bind, gets, throw, modify. simpl.
  destruct (existsb _ (db s)); reflexivity.
Qed.

Lemma connectJava_eq w k user s :
  connectJava w k user s = (Return tt, opening w java k user s).
Proof.
  unfold connectJava, opening, try_catch, bind, open, perform, modify.
  simpl. destruct (createBot w (SERVER_IP w) user); simpl.
  - reflexivity.
  - now rewrite log_eq.
Qed.

Lemma connectBedrock_eq w k user s :
  connectBedrock w k user s = (Return tt, opening w bedrock k user s).
Proof.
  unfold connectBedrock, opening, try_catch, bind, open, perform, modify.
  simpl. destruct (createClient w (SERVER_IP w) user); simpl.
  - reflexivity.
  - now rewrite log_eq.
Qed.

Lemma connectBot_eq w k s : connectBot w k s = (Return tt, connected w k s).
Proof.
  unfold connectBot, connected, bind, accounts_get, gets.
  destruct (map_get k (accounts s)) as [a|]; [|reflexivity].
  assert (H : (store k (with_status connecting a);;
               emit_update;;
               log w k (str "Connecting to " ++ SERVER_IP w ++ str " ("
                        ++ typeName (type a) ++ str ")...");;
               match type a with
               | java => connectJava w k (username a)
               | bedrock => connectBedrock w k (username a)
               end) s
              = (Return tt, opening w (type a) k (username a) (announced w k a s))).
  { unfold bind, store, modify, emit_update, getAccounts, gets, perform. simpl.
    rewrite log_eq. unfold announced, CONNECTING, emitted, performed, stored.
    destruct (type a); [apply connectJava_eq | apply connectBedrock_eq]. }
  destruct (status a); try exact H. reflexivity.
Qed.

Lemma updateStat_eq w k rawText s :
  updateStat w k rawText s = (Return tt, statUpdated w k rawText s).
Proof.
  unfold updateStat, statUpdated, ignored, extract, merged.
  destruct (_ || _); [reflexivity|].
  unfold bind, accounts_get, gets.
  destruct (map_get k (accounts s)) as [a|].
  - destruct (findLabel (clean w rawText)) as [[key label]|]; [|reflexivity].
    destruct (matchNumber _) as [[numStr suffix]|]; [|reflexivity].
    destruct (strictEq _ _); reflexivity.
  - destruct (findLabel (clean w rawText)) as [[key label]|]; [|reflexivity].
    destruct (matchNumber _) as [[numStr suffix]|]; reflexivity.
Qed.

Lemma onSetScore_eq w k entries s :
  onSetScore w k entries s = (Return tt, scoresSet w k entries s).
Proof.
  revert s. induction entries as [|e rest IH]; intro s; simpl.
  - reflexivity.
  - unfold bind. rewrite updateStat_eq. apply IH.
Qed.

Lemma updateNumericStat_eq w k cleanText key searchStr s :
  updateNumericStat w k cleanText key searchStr s =
  (Return (fst (mergedQuietly k key (scoreValue w cleanText searchStr) s)),
   snd (mergedQuietly k key (scoreValue w cleanText searchStr) s)).
Proof.
  unfold updateNumericStat, mergedQuietly, scoreValue, bind, accounts_get, gets.
  destruct (map_get k (accounts s)) as [a|]; [|reflexivity].
  destruct (includes cleanText searchStr); [|reflexivity].
  destruct (matchNumber _) as [[numStr suffix]|]; [|reflexivity].
  cbv zeta. destruct (strictEq _ _); reflexivity.
Qed.

Lemma onScoreUpdated_eq w k item s :
  onScoreUpdated w k item s = (Return tt, scoreUpdated w k item s).
Proof.
  unfold onScoreUpdated, scoreUpdated, bind, accounts_get, gets.
  destruct item as [item|]; [|reflexivity].
  destruct (map_get k (accounts s)) as [a|]; [|reflexivity].
  fold (itemText item). rewrite updateNumericStat_eq.
  rewrite updateNumericStat_eq. cbv zeta.
  destruct (fst _ || fst _); reflexivity.
Qed.

Lemma onJoin_eq w k msg s : onJoin w k msg s = (Return tt, joined w k msg s).
Proof.
  unfold onJoin, joined, bind, accounts_get, gets.
  destruct (map_get k (accounts s)) as [a|]; [|reflexivity].
  unfold store, modify. now rewrite log_eq.
Qed.

Lemma onStop_eq w st k msg s :
  onStop w st k msg s = (Return tt, stopped w st k msg s).
Proof.
  unfold onStop, stopped, bind. rewrite log_eq.
  unfold accounts_get, gets. cbv zeta.
  destruct (map_get k (accounts (logged w k msg s))); reflexivity.
Qed.

Lemma onWindowOpen_eq w k slots s :
  onWindowOpen w k slots s
  = (Return match find (isAfkItem w) slots with
            | Some (Some item) => Some (slot item)
            | _ => None
            end,
     logged w k (windowLine w slots) s).
Proof.
  unfold onWindowOpen, windowLine, clicking.
  destruct (find (isAfkItem w) slots) as [[item|]|];
    unfold bind; now rewrite log_eq.
Qed.

Lemma onModalFormPacket_eq w k data s :
  onModalFormPacket w k data s
  = match formIndex w data with
    | inr idx => (Return idx, logged w k (clicking idx) s)
    | inl err => (Throw err, s)
    end.
Proof.
  unfold onModalFormPacket, clicking.
  destruct (formIndex w data) as [err|idx]; [reflexivity|].
  unfold bind. now rewrite log_eq.
Qed.

(** ** The invariant of the manager *)

Lemma Inv_ext s s' :
  bots s' = bots s -> accounts s' = accounts s -> db s' = db s ->
  Inv s -> Inv s'.
Proof.
  intros Hb Ha Hd [H1 H2 H3]. constructor; rewrite ?Hb, ?Ha, ?Hd; assumption.
Qed.

Lemma Inv_performed e s : Inv s -> Inv (performed e s).
Proof. now apply Inv_ext. Qed.

Lemma Inv_emitted s : Inv s -> Inv (emitted s).
Proof. now apply Inv_ext. Qed.

Lemma Inv_set_clock c s : Inv s -> Inv (set_clock c s).
Proof. now apply Inv_ext. Qed.

Lemma Inv_stored k a s :
  Inv s -> In k (keys (accounts s)) -> List.length (logs a) <= 100 ->
  Inv (stored k a s).
Proof.
  intros [H1 H2 H3] Hk Ha. constructor; simpl.
  - now rewrite keys_set_present.
  - now rewrite keys_set_present.
  - now apply Forall_map_set.
Qed.

Lemma Inv_account s k a :
  Inv s -> map_get k (accounts s) = Some a -> List.length (logs a) <= 100.
Proof.
  intros [_ _ H] Hg. apply map_get_in in Hg.
  rewrite Forall_forall in H. exact (H _ Hg).
Qed.

Lemma pushShift_length l line :
  List.length l <= 100 -> List.length (pushShift l line) <= 100.
Proof.
  intro H. unfold pushShift, shift.
  destruct (Nat.ltb_spec 100 (List.length (l ++ [line]))) as [Hlt | Hle].
  - rewrite length_app in Hlt. simpl in Hlt.
    destruct l as [|x l]; simpl in *; [lia|].
    rewrite length_app. simpl. lia.
  - exact Hle.
Qed.

Lemma Inv_logged w k msg s : Inv s -> Inv (logged w k msg s).
Proof.
  intro H. unfold logged. destruct (map_get k (accounts s)) as [a|] eqn:E.
  - apply Inv_emitted, Inv_stored.
    + now apply Inv_set_clock.
    + simpl. eapply map_get_some; eassumption.
    + simpl. apply pushShift_length. eapply Inv_account; eassumption.
  - assumption.
Qed.

Lemma keys_set_in (V : Type) k (v : V) m k' :
  In k' (keys (map_set k v m)) -> k' = k \/ In k' (keys m).
Proof.
  destruct (in_dec (list_eq_dec N.eq_dec) k (keys m)) as [Hi | Hn].
  - rewrite keys_set_present by assumption. tauto.
  - rewrite keys_set_absent by assumption. rewrite in_app_iff. simpl.
    intros [H | [H | []]]; auto.
Qed.

Lemma keys_delete_in (V : Type) k (m : list (jsstring * V)) k' :
  In k' (keys (map_delete k m)) <-> In k' (keys m) /\ k' <> k.
Proof.
  rewrite keys_delete, filter_In, negb_true_iff, eqb_neq.
  split; intros [H1 H2]; split; auto.
Qed.

Lemma Inv_bots_delete k s :
  Inv s -> Inv (set_bots (map_delete k (bots s)) s).
Proof.
  intros [H1 H2 H3]. constructor; simpl; try assumption.
  intros k' Hk'. apply keys_delete_in in Hk'. apply H2. tauto.
Qed.

Lemma Inv_bots_set k bot s :
  Inv s -> In k (keys (accounts s)) ->
  Inv (set_bots (map_set k bot (bots s)) s).
Proof.
  intros [H1 H2 H3] Hk. constructor; simpl; try assumption.
  intros k' Hk'. apply keys_set_in in Hk' as [-> | Hk']; auto.
Qed.

Lemma Inv_disconnected w k s : Inv s -> Inv (disconnected w k s).
Proof.
  intro H. unfold disconnected. destruct (map_get k (bots s)); [|assumption].
  cbv zeta. apply Inv_bots_delete, Inv_performed, Inv_logged, H.
Qed.

Lemma logged_bots w k msg s : bots (logged w k msg s) = bots s.
Proof. unfold logged. now destruct (map_get k (accounts s)). Qed.

Lemma logged_db w k msg s : db (logged w k msg s) = db s.
Proof. unfold logged. now destruct (map_get k (accounts s)). Qed.

Lemma logged_keys w k msg s :
  keys (accounts (logged w k msg s)) = keys (accounts s).
Proof.
  unfold logged. destruct (map_get k (accounts s)) eqn:E; [|reflexivity].
  simpl. apply keys_set_present. eapply map_get_some; eassumption.
Qed.

Lemma disconnected_no_bot w k s : ~ In k (keys (bots (disconnected w k s))).
Proof.
  unfold disconnected. destruct (map_get k (bots s)) eqn:E.
  - simpl. rewrite keys_delete_in. tauto.
  - now apply map_get_none.
Qed.

Lemma Inv_removed w k s : Inv s -> Inv (removed w k s).
Proof.
  intro H. unfold removed. cbv zeta. apply Inv_emitted.
  pose proof (disconnected_no_bot w k s) as Hnb.
  apply (Inv_disconnected w k) in H. destruct H as [H1 H2 H3].
  constructor; simpl.
  - now rewrite keys_delete, row_ids_filter, H1.
  - intros k' Hk'. apply keys_delete_in. split.
    + now apply H2.
    + intros ->. contradiction.
  - now apply Forall_map_delete.
Qed.

Lemma Inv_added account s :
  Inv s -> ~ In (row_id account) (row_ids (db s)) -> Inv (added account s).
Proof.
  intros [H1 H2 H3] Hn. unfold added. apply Inv_emitted.
  assert (Hn' : ~ In (row_id account) (keys (accounts s)))
    by (rewrite H1; exact Hn).
  constructor; simpl.
  - rewrite keys_set_absent by exact Hn'.
    unfold row_ids. rewrite map_app. simpl. fold (row_ids (db s)).
    now rewrite <- H1.
  - intros k' Hk'. rewrite keys_set_absent by exact Hn'.
    apply in_app_iff. left. now apply H2.
  - apply Forall_map_set; [assumption|]. unfold boundedLogs. simpl. lia.
Qed.

Lemma Inv_opening w t k user s :
  Inv s -> In k (keys (accounts s)) -> Inv (opening w t k user s).
Proof.
  intros H Hk. unfold opening. cbv zeta.
  destruct (openerResult w t user).
  - apply Inv_bots_set; [now apply Inv_performed | exact Hk].
  - now apply Inv_logged, Inv_performed.
Qed.

Lemma Inv_connected w k s : Inv s -> Inv (connected w k s).
Proof.
  intro H. unfold connected.
  destruct (map_get k (accounts s)) as [a|] eqn:E; [|assumption].
  assert (Hk : In k (keys (accounts s))) by (eapply map_get_some; eassumption).
  assert (Ha : Inv (announced w k a s)).
  { unfold announced. apply Inv_logged, Inv_emitted, Inv_stored; auto.
    simpl. eapply Inv_account; eassumption. }
  assert (Hk' : In k (keys (accounts (announced w k a s)))).
  { unfold announced. rewrite logged_keys. simpl.
    now rewrite keys_set_present. }
  destruct (status a); auto using Inv_opening.
Qed.

Lemma Inv_merged k key v s : Inv s -> Inv (merged k key v s).
Proof.
  intro H. unfold merged. destruct (map_get k (accounts s)) as [a|] eqn:E;
    [|assumption].
  destruct (strictEq _ _); [assumption|].
  apply Inv_emitted, Inv_stored; auto.
  - eapply map_get_some; eassumption.
  - simpl. eapply Inv_account; eassumption.
Qed.

Lemma Inv_statUpdated w k rawText s : Inv s -> Inv (statUpdated w k rawText s).
Proof.
  intro H. unfold statUpdated. destruct (ignored rawText); [assumption|].
  destruct (extract w rawText) as [[key v]|]; [|assumption].
  now apply Inv_merged.
Qed.

Lemma Inv_scoresSet w k entries s : Inv s -> Inv (scoresSet w k entries s).
Proof.
  revert s. induction entries as [|e rest IH]; intros s H; simpl.
  - assumption.
  - apply IH. now apply Inv_statUpdated.
Qed.

Lemma Inv_mergedQuietly k key v s : Inv s -> Inv (snd (mergedQuietly k key v s)).
Proof.
  intro H. unfold mergedQuietly.
  destruct (map_get k (accounts s)) as [a|] eqn:E; [|assumption].
  destruct v as [v|]; [|assumption].
  destruct (strictEq _ _); [assumption|]. simpl.
  apply Inv_stored; auto.
  - eapply map_get_some; eassumption.
  - simpl. eapply Inv_account; eassumption.
Qed.

Lemma Inv_scoreUpdated w k item s : Inv s -> Inv (scoreUpdated w k item s).
Proof.
  intro H. unfold scoreUpdated. destruct item as [item|]; [|assumption].
  destruct (map_get k (accounts s)); [|assumption]. cbv zeta.
  destruct (fst _ || fst _);
    [apply Inv_emitted|]; now apply Inv_mergedQuietly, Inv_mergedQuietly.
Qed.

Lemma Inv_joined w k msg s : Inv s -> Inv (joined w k msg s).
Proof.
  intro H. unfold joined. destruct (map_get k (accounts s)) as [a|] eqn:E;
    [|assumption].
  apply Inv_emitted, Inv_logged, Inv_stored; auto.
  - eapply map_get_some; eassumption.
  - simpl. eapply Inv_account; eassumption.
Qed.

Lemma Inv_stopped w st k msg s : Inv s -> Inv (stopped w st k msg s).
Proof.
  intro H. unfold stopped. cbv zeta. apply Inv_emitted.
  apply (Inv_logged w k msg) in H.
  destruct (map_get k (accounts (logged w k msg s))) as [a|] eqn:E;
    [|assumption].
  apply Inv_stored; auto.
  - eapply map_get_some; eassumption.
  - simpl. eapply Inv_account; eassumption.
Qed.

(** Every call keeps the invariant, whether it returns or throws. *)
Lemma Inv_after w o s : Inv s -> Inv (after w o s).
Proof.
  intro H. unfold after. destruct o; simpl.
  - rewrite addAccount_eq.
    destruct (existsb _ (db s)) eqn:E; simpl; [assumption|].
    apply Inv_added; [assumption|]. intro Hin.
    apply existsb_row_ids in Hin. congruence.
  - rewrite removeAccount_eq. now apply Inv_removed.
  - rewrite connectBot_eq. now apply Inv_connected.
  - rewrite disconnectBot_eq. now apply Inv_disconnected.
  - rewrite log_eq. now apply Inv_logged.
  - rewrite updateStat_eq. now apply Inv_statUpdated.
  - rewrite onSetScore_eq. now apply Inv_scoresSet.
  - rewrite onScoreUpdated_eq. now apply Inv_scoreUpdated.
  - rewrite onJoin_eq. now apply Inv_joined.
  - rewrite onJoin_eq. now apply Inv_joined.
  - rewrite onStop_eq. now apply Inv_stopped.
  - rewrite onStop_eq. now apply Inv_stopped.
  - rewrite onStop_eq. now apply Inv_stopped.
  - rewrite onStop_eq. now apply Inv_stopped.
  - unfold bind. rewrite onWindowOpen_eq. now apply Inv_logged.
  - unfold bind. rewrite onModalFormPacket_eq.
    destruct (formIndex w data); [assumption|]. now apply Inv_logged.
Qed.

Lemma loadAccounts_spec rows m :
  NoDup (keys m ++ row_ids rows) ->
  Forall boundedLogs m ->
  let m' := fold_left
    (fun m row =>
       map_set (row_id row)
               (fresh (row_id row) (row_username row) (row_type row)) m)
    rows m in
  keys m' = keys m ++ row_ids rows /\ Forall boundedLogs m'.
Proof.
  revert m. induction rows as [|r rows IH]; intros m Hnd Hb; simpl.
  - now rewrite app_nil_r.
  - assert (Hn : ~ In (row_id r) (keys m)).
    { intro Hin. apply NoDup_remove_2 in Hnd. apply Hnd.
      apply in_app_iff. now left. }
    destruct (IH (map_set (row_id r)
                    (fresh (row_id r) (row_username r) (row_type r)) m))
      as [Hk Hf].
    + rewrite keys_set_absent by assumption. rewrite <- app_assoc. exact Hnd.
    + apply Forall_map_set; [assumption|]. unfold boundedLogs. simpl. lia.
    + split; [|exact Hf]. rewrite Hk, keys_set_absent by assumption.
      now rewrite <- app_assoc.
Qed.

Lemma Inv_new rows : NoDup (row_ids rows) -> Inv (newBotManager rows).
Proof.
  intro Hnd. destruct (@loadAccounts_spec rows []) as [Hk Hf];
    [exact Hnd | constructor |].
  constructor; simpl.
  - exact Hk.
  - intros k [].
  - exact Hf.
Qed.

Lemma reachable_Inv s : reachable s -> Inv s.
Proof.
  induction 1 as [rows Hnd | w o s Hr IH].
  - now apply Inv_new.
  - now apply Inv_after.
Qed.

(** ** The log ring buffer *)

Lemma lastN_all (A : Type) n (l : list A) :
  List.length l <= n -> lastN n l = l.
Proof.
  intro H. unfold lastN. replace (List.length l - n) with 0 by lia.
  reflexivity.
Qed.

Lemma lastN_length (A : Type) n (l : list A) :
  List.length (lastN n l) = Nat.min n (List.length l).
Proof. unfold lastN. rewrite length_skipn. lia. Qed.

Lemma lastN_app (A : Type) n (l r : list A) :
  lastN n (lastN n l ++ r) = lastN n (l ++ r).
Proof.
  destruct (Nat.le_gt_cases (List.length l) n) as [Hle | Hgt].
  - now rewrite (lastN_all l Hle).
  - unfold lastN at 1 3. rewrite !length_app, lastN_length.
    replace (Nat.min n (List.length l) + List.length r - n)
      with (List.length r) by lia.
    replace (List.length l + List.length r - n)
      with (List.length r + (List.length l - n)) by lia.
    rewrite <- skipn_skipn. f_equal. unfold lastN.
    rewrite skipn_app.
    replace (List.length l - n - List.length l) with 0 by lia.
    reflexivity.
Qed.

Lemma pushShift_lastN l line :
  List.length l <= 100 -> pushShift l line = lastN 100 (l ++ [line]).
Proof.
  intro H. unfold pushShift, shift, lastN.
  rewrite length_app. simpl.
  destruct (Nat.ltb_spec 100 (List.length l + 1)) as [Hlt | Hle].
  - replace (List.length l + 1 - 100) with 1 by lia. reflexivity.
  - replace (List.length l + 1 - 100) with 0 by lia. reflexivity.
Qed.

Lemma pushShift_full l line :
  List.length l <= 100 ->
  pushShift l line
  = (if List.length l =? 100 then tl l else l) ++ [line].
Proof.
  intro H. unfold pushShift, shift. rewrite length_app. simpl.
  destruct (Nat.eqb_spec (List.length l) 100) as [He | Hne].
  - replace (100 <? List.length l + 1) with true
      by (symmetry; apply Nat.ltb_lt; lia).
    destruct l; [discriminate | reflexivity].
  - replace (100 <? List.length l + 1) with false
      by (symmetry; apply Nat.ltb_ge; lia).
    reflexivity.
Qed.

Lemma logged_account w k msg s a :
  map_get k (accounts s) = Some a ->
  map_get k (accounts (logged w k msg s))
  = Some (with_logs (pushShift (logs a) (stamp w (clock s) msg)) a)
  /\ clock (logged w k msg s) = S (clock s).
Proof.
  intro H. unfold logged. rewrite H. simpl. split; [|reflexivity].
  apply get_set_same.
Qed.

Lemma appendLogs_cons w k msg rest s :
  appendLogs w k (msg :: rest) s = appendLogs w k rest (logged w k msg s).
Proof. unfold appendLogs, after. simpl. now rewrite log_eq. Qed.

Lemma appendLogs_account w k msgs : forall s a,
  map_get k (accounts s) = Some a ->
  List.length (logs a) <= 100 ->
  map_get k (accounts (appendLogs w k msgs s))
  = Some (with_logs (lastN 100 (logs a ++ stamps w (clock s) msgs)) a).
Proof.
  induction msgs as [|msg rest IH]; intros s a Hg Hb.
  - simpl. rewrite app_nil_r, lastN_all by assumption. now destruct a.
  - rewrite appendLogs_cons.
    destruct (logged_account w k msg s Hg) as [Hg' Hc].
    rewrite (IH _ _ Hg') by (simpl; now apply pushShift_length).
    simpl. rewrite Hc, pushShift_lastN, lastN_app, <- app_assoc by assumption.
    reflexivity.
Qed.

(** C1. In every state the manager reaches, the log of every account has
    at most 100 lines.  A run of appends to an account leaves it with the
    last 100 of the lines it had and the lines appended, in the order in
    which they were written, so with [min 100 (old + appended)] lines; one
    append to a log of 100 lines drops the line at index 0, keeps the order
    of the others and puts the new line last.  An append changes no other
    field of the account. *)
Theorem log_ring_buffer w s k a msgs msg :
  reachable s ->
  map_get k (accounts s) = Some a ->
  List.length (logs a) <= 100
  /\ (exists a',
        map_get k (accounts (appendLogs w k msgs s)) = Some a'
        /\ logs a' = lastN 100 (logs a ++ stamps w (clock s) msgs)
        /\ List.length (logs a')
           = Nat.min 100 (List.length (logs a) + List.length msgs)
        /\ id a' = id a /\ username a' = username a /\ type a' = type a
        /\ status a' = status a /\ accountData a' = accountData a)
  /\ (exists a',
        map_get k (accounts (after w (Log k msg) s)) = Some a'
        /\ logs a'
           = (if List.length (logs a) =? 100 then tl (logs a) else logs a)
             ++ [stamp w (clock s) msg]
        /\ (forall first rest,
              logs a = first :: rest -> List.length (logs a) = 100 ->
              logs a' = rest ++ [stamp w (clock s) msg])
        /\ id a' = id a /\ username a' = username a /\ type a' = type a
        /\ status a' = status a /\ accountData a' = accountData a).
Proof.
  intros Hr Hg. apply reachable_Inv in Hr.
  assert (Hb : List.length (logs a) <= 100) by (eapply Inv_account; eassumption).
  split; [exact Hb | split].
  - eexists. split; [exact (@appendLogs_account w k msgs s a Hg Hb)|].
    unfold with_logs; cbn [logs id username type status accountData].
    split; [reflexivity|]. split; [|now auto].
    rewrite lastN_length, length_app. f_equal.
    f_equal. clear. generalize (clock s).
    induction msgs as [|m r IH]; intro c; simpl; [reflexivity|].
    now rewrite IH.
  - eexists. split.
    + unfold after. simpl. rewrite log_eq. simpl.
      destruct (logged_account w k msg s Hg) as [-> _]. reflexivity.
    + unfold with_logs; cbn [logs id username type status accountData].
      rewrite pushShift_full by exact Hb.
      split; [reflexivity|]. split; [|now auto].
      intros first rest E L. rewrite L, E. reflexivity.
Qed.

Lemma log_ring_buffer_witness :
  (List.length (logs (fresh (str "a1") (str "Steve") java)) <= 100
   /\ (exists a',
         map_get (str "a1")
           (accounts (appendLogs plainWorld (str "a1")
                                 (map numberToString (seq 0 101)) twoAccounts))
         = Some a'
         /\ logs a'
            = lastN 100 (logs (fresh (str "a1") (str "Steve") java)
                         ++ stamps plainWorld (clock twoAccounts)
                                   (map numberToString (seq 0 101)))
         /\ List.length (logs a')
            = Nat.min 100
                (List.length (logs (fresh (str "a1") (str "Steve") java))
                 + List.length (map numberToString (seq 0 101)))
         /\ id a' = str "a1" /\ username a' = str "Steve" /\ type a' = java
         /\ status a' = offline /\ accountData a' = zeroStats)
   /\ (exists a',
         map_get (str "a1")
           (accounts (after plainWorld (Log (str "a1") (str "bye"))
                            twoAccounts))
         = Some a'
         /\ logs a'
            = (if List.length (logs (fresh (str "a1") (str "Steve") java))
                  =? 100
               then tl (logs (fresh (str "a1") (str "Steve") java))
               else logs (fresh (str "a1") (str "Steve") java))
              ++ [stamp plainWorld (clock twoAccounts) (str "bye")]
         /\ (forall first rest,
               logs (fresh (str "a1") (str "Steve") java) = first :: rest ->
               List.length (logs (fresh (str "a1") (str "Steve") java)) = 100 ->
               logs a' = rest ++ [stamp plainWorld (clock twoAccounts) (str "bye")])
         /\ id a' = str "a1" /\ username a' = str "Steve" /\ type a' = java
         /\ status a' = offline /\ accountData a' = zeroStats))
  /\ option_map logs
       (map_get (str "a1")
          (accounts (appendLogs plainWorld (str "a1")
                                (map numberToString (seq 0 101)) twoAccounts)))
     = Some (map (fun n => str "[12:00:00 PM] " ++ numberToString n)
                 (seq 1 100)).
Proof.
  split.
  - apply (@log_ring_buffer plainWorld twoAccounts (str "a1")
             (fresh (str "a1") (str "Steve") java)
             (map numberToString (seq 0 101)) (str "bye")).
    + unfold twoAccounts. do 2 apply reach_step. apply (reach_new []).
      constructor.
    + reflexivity.
  - vm_compute. reflexivity.
Defined.

(** ** The account store *)

Lemma filter_rows_absent (k : jsstring) (rows : list Row) :
  ~ In k (row_ids rows) ->
  filter (fun r => negb (Js.eqb k (row_id r))) rows = rows.
Proof.
  induction rows as [|r rows IH]; simpl; [reflexivity|].
  intro H. destruct (Js.eqb k (row_id r)) eqn:E; simpl.
  - apply eqb_eq in E. subst. tauto.
  - f_equal. apply IH. tauto.
Qed.

Lemma map_set_absent (V : Type) k (v : V) m :
  map_get k m = None -> map_set k v m = m ++ [(k, v)].
Proof.
  induction m as [|[k' v'] m IH]; simpl; [reflexivity|].
  destruct (Js.eqb k k'); [discriminate|].
  intro H. f_equal. now apply IH.
Qed.

Lemma map_values_app (V : Type) (m m' : list (jsstring * V)) :
  map_values (m ++ m') = map_values m ++ map_values m'.
Proof. apply map_app. Qed.

(** C4. In a state the manager reaches, [addAccount] with an id that is in
    the account map throws the duplicate-id error at once and leaves the
    whole state as it was: the table, the account map and the trace, so
    nothing is emitted.  With an id that is not in the map it returns, the
    row is the last row of the table, the account is the last of the map,
    with status offline, no log line and every statistic zero, and one
    'update' carrying the new list of accounts is emitted. *)
Theorem addAccount_contract account s :
  reachable s ->
  match map_get (row_id account) (accounts s) with
  | Some _ =>
      addAccount account s = (Throw (DuplicateId (row_id account)), s)
  | None =>
      let a := {| id := row_id account; username := row_username account;
                  type := row_type account; status := offline; logs := [];
                  accountData := {| shards := zero; money := zero;
                                    kills := zero; deaths := zero |} |} in
      addAccount account s =
      (Return tt,
       {| bots := bots s;
          accounts := accounts s ++ [(row_id account, a)];
          db := db s ++ [account];
          trace := trace s ++ [Emit (map_values (accounts s) ++ [a])];
          clock := clock s |})
  end.
Proof.
  intro Hr. apply reachable_Inv in Hr. destruct Hr as [Hk _ _].
  rewrite addAccount_eq.
  destruct (map_get (row_id account) (accounts s)) as [a0|] eqn:E.
  - apply map_get_some in E. rewrite Hk in E.
    apply existsb_row_ids in E. now rewrite E.
  - pose proof E as Hn. apply map_get_none in Hn. rewrite Hk in Hn.
    destruct (existsb _ (db s)) eqn:Ex.
    + apply existsb_row_ids in Ex. contradiction.
    + unfold added, emitted, performed, stored, set_trace, set_accounts.
      simpl. rewrite map_set_absent by exact E.
      rewrite map_values_app. reflexivity.
Qed.

Lemma addAccount_contract_witness :
  match map_get (row_id steve) (accounts twoAccounts) with
  | Some _ =>
      addAccount steve twoAccounts
      = (Throw (DuplicateId (row_id steve)), twoAccounts)
  | None =>
      let a := {| id := row_id steve; username := row_username steve;
                  type := row_type steve; status := offline; logs := [];
                  accountData := {| shards := zero; money := zero;
                                    kills := zero; deaths := zero |} |} in
      addAccount steve twoAccounts =
      (Return tt,
       {| bots := bots twoAccounts;
          accounts := accounts twoAccounts ++ [(row_id steve, a)];
          db := db twoAccounts ++ [steve];
          trace := trace twoAccounts
                   ++ [Emit (map_values (accounts twoAccounts) ++ [a])];
          clock := clock twoAccounts |})
  end.
Proof.
  apply addAccount_contract.
  unfold twoAccounts. do 2 apply reach_step. apply (reach_new []). constructor.
Defined.

(** C10. In a state the manager reaches, [removeAccount] with an id that is
    not in the account map returns and changes nothing but the trace: the
    account map, the table, the connections and the clock are as before,
    and the trace has one more effect, the 'update' carrying the whole list
    of accounts. *)
Theorem removeAccount_absent w s k :
  reachable s ->
  map_get k (accounts s) = None ->
  removeAccount w k s =
  (Return tt,
   {| bots := bots s; accounts := accounts s; db := db s;
      trace := trace s ++ [Emit (map_values (accounts s))];
      clock := clock s |}).
Proof.
  intros Hr Hg. apply reachable_Inv in Hr. destruct Hr as [Hk Hb _].
  apply map_get_none in Hg.
  assert (Hnb : map_get k (bots s) = None).
  { apply map_get_none. intro Hin. apply Hg. now apply Hb. }
  rewrite removeAccount_eq. unfold removed, disconnected. rewrite Hnb.
  cbv zeta. unfold emitted, performed, set_trace, set_accounts, set_db. simpl.
  rewrite filter_rows_absent by (rewrite <- Hk; exact Hg).
  rewrite map_delete_absent by exact Hg. reflexivity.
Qed.

Lemma removeAccount_absent_witness :
  removeAccount plainWorld (str "zz") twoAccounts =
  (Return tt,
   {| bots := bots twoAccounts; accounts := accounts twoAccounts;
      db := db twoAccounts;
      trace := trace twoAccounts ++ [Emit (map_values (accounts twoAccounts))];
      clock := clock twoAccounts |}).
Proof.
  apply removeAccount_absent.
  - unfold twoAccounts. do 2 apply reach_step. apply (reach_new []). constructor.
  - reflexivity.
Defined.

(** ** Connecting and disconnecting *)

Lemma map_set_set (V : Type) k (v v' : V) m :
  map_set k v' (map_set k v m) = map_set k v' m.
Proof.
  induction m as [|[k0 v0] m IH]; simpl.
  - now rewrite eqb_refl.
  - destruct (Js.eqb k k0) eqn:E; simpl.
    + now rewrite eqb_refl.
    + now rewrite E, IH.
Qed.

Lemma get_delete_other (V : Type) k k' (m : list (jsstring * V)) :
  k' <> k -> map_get k' (map_delete k m) = map_get k' m.
Proof.
  intro Hne. induction m as [|[k0 v0] m IH]; simpl; [reflexivity|].
  destruct (Js.eqb k k0) eqn:E; simpl.
  - apply eqb_eq in E. subst k0. apply eqb_neq in Hne. now rewrite Hne.
  - now rewrite IH.
Qed.

Lemma logged_get_other w k msg s k' :
  k' <> k -> map_get k' (accounts (logged w k msg s)) = map_get k' (accounts s).
Proof.
  intro Hne. unfold logged. destruct (map_get k (accounts s)); [|reflexivity].
  simpl. now apply get_set_other.
Qed.

Lemma logged_trace w k msg s a :
  map_get k (accounts s) = Some a ->
  trace (logged w k msg s)
  = trace s ++ [Emit (map_values (accounts (logged w k msg s)))].
Proof. intro H. unfold logged. now rewrite H. Qed.

Lemma logged_absent w k msg s :
  map_get k (accounts s) = None -> logged w k msg s = s.
Proof. intro H. unfold logged. now rewrite H. Qed.

Lemma opening_trace w t k user s :
  exists rest,
    trace (opening w t k user s) = trace s ++ openerCall w t user :: rest.
Proof.
  unfold opening. cbv zeta. destruct (openerResult w t user) as [bot|m].
  - exists []. reflexivity.
  - unfold logged.
    destruct (map_get k (accounts (performed (openerCall w t user) s))).
    + eexists. simpl. rewrite <- app_assoc. reflexivity.
    + exists []. reflexivity.
Qed.

Lemma pushShift_last l line : exists earlier, pushShift l line = earlier ++ [line].
Proof.
  unfold pushShift. destruct (100 <? List.length (l ++ [line])) eqn:E.
  - destruct l as [|x l']; [discriminate|]. now exists l'.
  - now exists l.
Qed.

(** C6. [connectBot] returns without touching the state (no field, no log
    line, no emission) when the id has no account or the account is online.
    Otherwise the opener of the account's variant is called in a state in
    which the account has status connecting and the "Connecting to" line as
    its last log line, after the two emissions that published them: the
    first carries the account with the new status and the log as it was, the
    second the account with the new line too.  Nothing else differs from
    the state of the call. *)
Theorem connectBot_guard w s k :
  (map_get k (accounts s) = None
   \/ (exists a, map_get k (accounts s) = Some a /\ status a = online) ->
   connectBot w k s = (Return tt, s))
  /\ (forall a,
        map_get k (accounts s) = Some a -> status a <> online ->
        exists s1 rest a1 a2,
          connectBot w k s
          = (Return tt, opening w (type a) k (username a) s1)
          /\ trace (opening w (type a) k (username a) s1)
             = trace s1 ++ openerCall w (type a) (username a) :: rest
          /\ map_get k (accounts s1) = Some a2
          /\ status a2 = connecting
          /\ logs a2
             = pushShift (logs a)
                 (stamp w (clock s)
                    (str "Connecting to " ++ SERVER_IP w ++ str " ("
                     ++ typeName (type a) ++ str ")..."))
          /\ (exists earlier,
                logs a2
                = earlier
                  ++ [stamp w (clock s)
                        (str "Connecting to " ++ SERVER_IP w ++ str " ("
                         ++ typeName (type a) ++ str ")...")])
          /\ id a2 = id a /\ username a2 = username a /\ type a2 = type a
          /\ accountData a2 = accountData a
          /\ status a1 = connecting /\ logs a1 = logs a
          /\ id a1 = id a /\ username a1 = username a /\ type a1 = type a
          /\ accountData a1 = accountData a
          /\ accounts s1 = map_set k a2 (accounts s)
          /\ bots s1 = bots s /\ db s1 = db s
          /\ trace s1
             = trace s ++ [Emit (map_values (map_set k a1 (accounts s)));
                           Emit (map_values (map_set k a2 (accounts s)))]).
Proof.
  split.
  - intros [Hn | [a [Ha Ho]]]; rewrite connectBot_eq; unfold connected.
    + now rewrite Hn.
    + now rewrite Ha, Ho.
  - intros a Ha Hs.
    destruct (opening_trace w (type a) k (username a) (announced w k a s))
      as [rest Hrest].
    set (a1 := with_status connecting a).
    set (a2 := with_logs
                 (pushShift (logs a)
                    (stamp w (clock s) (CONNECTING w (type a)))) a1).
    exists (announced w k a s), rest, a1, a2.
    assert (Hacc : accounts (announced w k a s) = map_set k a2 (accounts s)).
    { unfold announced, logged. simpl. rewrite get_set_same. simpl.
      now rewrite map_set_set. }
    split; [|split; [|split]].
    + rewrite connectBot_eq. unfold connected. rewrite Ha.
      destruct (status a); congruence.
    + exact Hrest.
    + rewrite Hacc. apply get_set_same.
    + split; [reflexivity|]. split; [reflexivity|].
      split; [apply pushShift_last|].
      do 10 (split; [reflexivity|]).
      split; [exact Hacc|].
      split; [unfold announced; now rewrite logged_bots|].
      split; [unfold announced; now rewrite logged_db|].
      unfold announced, logged. simpl. rewrite get_set_same. simpl.
      now rewrite map_set_set, <- app_assoc.
Qed.

Lemma connectBot_guard_witness :
  exists s1 rest a2,
    connectBot plainWorld (str "a1") twoAccounts
    = (Return tt, opening plainWorld java (str "a1") (str "Steve") s1)
    /\ trace (opening plainWorld java (str "a1") (str "Steve") s1)
       = trace s1 ++ openerCall plainWorld java (str "Steve") :: rest
    /\ map_get (str "a1") (accounts s1) = Some a2
    /\ status a2 = connecting
    /\ logs a2
       = [str "[12:00:00 PM] Connecting to play.example.net (java)..."].
Proof.
  destruct (proj2 (connectBot_guard plainWorld twoAccounts (str "a1"))
                  (fresh (str "a1") (str "Steve") java) eq_refl)
    as (s1 & rest & a1 & a2 & H1 & H2 & H3 & H4 & H5 & _).
  - discriminate.
  - exists s1, rest, a2. repeat split; assumption.
Defined.

(** C8. When the opener of the account's variant throws, [connectBot]
    still returns: the exception is caught in [connectJava] or
    [connectBedrock].  The account is left with status connecting and has,
    after the "Connecting to" line, the line that reports the failure as its
    last line; its other fields are as they were, no connection is stored
    and the table is untouched. *)
Theorem connectBot_opener_throws w s k a m :
  map_get k (accounts s) = Some a ->
  status a <> online ->
  openerResult w (type a) (username a) = OpenFailed m ->
  exists s' a',
    connectBot w k s = (Return tt, s')
    /\ map_get k (accounts s') = Some a'
    /\ status a' = connecting
    /\ logs a'
       = pushShift
           (pushShift (logs a)
              (stamp w (clock s)
                 (str "Connecting to " ++ SERVER_IP w ++ str " ("
                  ++ typeName (type a) ++ str ")...")))
           (stamp w (S (clock s))
              (match type a with
               | java => str "Connection failed: "
               | bedrock => str "Bedrock Connection failed: "
               end ++ m))
    /\ (exists earlier,
          logs a'
          = earlier
            ++ [stamp w (S (clock s))
                  (match type a with
                   | java => str "Connection failed: "
                   | bedrock => str "Bedrock Connection failed: "
                   end ++ m)])
    /\ id a' = id a /\ username a' = username a /\ type a' = type a
    /\ accountData a' = accountData a
    /\ bots s' = bots s
    /\ db s' = db s.
Proof.
  intros Ha Hs Ho. eexists. eexists. split; [|split].
  - rewrite connectBot_eq. unfold connected. rewrite Ha.
    destruct (status a) eqn:Est; try congruence; reflexivity.
  - unfold opening. rewrite Ho. cbv zeta.
    set (s1 := performed _ (announced w k a s)).
    assert (Hg : map_get k (accounts s1)
                 = Some (with_logs
                           (pushShift (logs a)
                              (stamp w (clock s) (CONNECTING w (type a))))
                           (with_status connecting a))).
    { unfold s1, announced, logged. simpl. rewrite get_set_same. simpl.
      apply get_set_same. }
    destruct (logged_account w k (failureText (type a) m) s1 Hg) as [Hg' _].
    exact Hg'.
  - assert (Hc : clock (performed (openerCall w (type a) (username a))
                                  (announced w k a s)) = S (clock s)).
    { unfold announced, logged. simpl. now rewrite get_set_same. }
    rewrite Hc.
    assert (Hf : failureText (type a) m
                 = match type a with
                   | java => str "Connection failed: "
                   | bedrock => str "Bedrock Connection failed: "
                   end ++ m).
    { unfold failureText. now destruct (type a). }
    rewrite Hf.
    split; [reflexivity|]. split; [reflexivity|].
    split; [apply pushShift_last|].
    do 4 (split; [reflexivity|]).
    unfold opening. rewrite Ho. cbv zeta.
    rewrite logged_bots, logged_db. simpl.
    unfold announced. rewrite logged_bots, logged_db. auto.
Qed.

Lemma connectBot_opener_throws_witness :
  exists s' a',
    connectBot plainWorld (str "b2") twoAccounts = (Return tt, s')
    /\ map_get (str "b2") (accounts s') = Some a'
    /\ status a' = connecting
    /\ logs a'
       = [str "[12:00:00 PM] Connecting to play.example.net (bedrock)...";
          str "[12:00:00 PM] Bedrock Connection failed: ping timed out"].
Proof.
  destruct (@connectBot_opener_throws plainWorld twoAccounts (str "b2")
              (fresh (str "b2") (str "Alex") bedrock) (str "ping timed out"))
    as (s' & a' & H1 & H2 & H3 & H4 & _).
  - reflexivity.
  - discriminate.
  - reflexivity.
  - exists s', a'. repeat split; assumption.
Defined.

(** C7. [disconnectBot] returns without touching the state when there is
    no connection under the id.  When there is one, it appends the
    "Disconnecting manually" line to the account's log (one emission), then
    calls [quit] on a java connection and [close] on any other, then drops
    the connection from [bots] and leaves the other connections.  The table
    and the other accounts are untouched, and the account itself keeps its
    id, username, type, status and statistics: only its log has changed. *)
Theorem disconnectBot_frame w s k :
  (map_get k (bots s) = None -> disconnectBot w k s = (Return tt, s))
  /\ (forall bot,
        map_get k (bots s) = Some bot ->
        exists s',
          disconnectBot w k s = (Return tt, s')
          /\ trace s'
             = trace (logged w k DISCONNECTING s)
               ++ [match option_map type (map_get k (accounts s)) with
                   | Some java => Quit bot
                   | _ => Close bot
                   end]
          /\ map_get k (bots s') = None
          /\ (forall k', k' <> k -> map_get k' (bots s') = map_get k' (bots s))
          /\ db s' = db s
          /\ (forall k', k' <> k ->
                map_get k' (accounts s') = map_get k' (accounts s))
          /\ match map_get k (accounts s) with
             | Some a =>
                 exists a',
                   map_get k (accounts s') = Some a'
                   /\ status a' = status a
                   /\ id a' = id a /\ username a' = username a
                   /\ type a' = type a /\ accountData a' = accountData a
                   /\ logs a' = pushShift (logs a)
                                          (stamp w (clock s) DISCONNECTING)
                   /\ trace (logged w k DISCONNECTING s)
                      = trace s ++ [Emit (map_values (accounts s'))]
             | None =>
                 accounts s' = accounts s
                 /\ trace (logged w k DISCONNECTING s) = trace s
             end).
Proof.
  split.
  - intro Hn. rewrite disconnectBot_eq. unfold disconnected. now rewrite Hn.
  - intros bot Hb. eexists. split.
    { rewrite disconnectBot_eq. unfold disconnected. rewrite Hb. reflexivity. }
    cbv zeta. simpl. rewrite logged_bots, logged_db.
    repeat match goal with |- _ /\ _ => split end.
    + f_equal. f_equal. unfold closing.
      destruct (map_get k (accounts s)) as [a|] eqn:Ea.
      * destruct (logged_account w k DISCONNECTING s Ea) as [-> _].
        reflexivity.
      * now rewrite logged_absent, Ea.
    + apply get_delete_same.
    + intros k' Hne. now apply get_delete_other.
    + reflexivity.
    + intros k' Hne. now apply logged_get_other.
    + destruct (map_get k (accounts s)) as [a|] eqn:Ea.
      * destruct (logged_account w k DISCONNECTING s Ea) as [Hg _].
        eexists. split; [exact Hg|]. simpl. repeat split.
        now apply logged_trace with (a := a).
      * rewrite logged_absent by assumption. auto.
Qed.

Lemma disconnectBot_frame_witness :
  exists s',
    disconnectBot plainWorld (str "a1") steveConnected = (Return tt, s')
    /\ map_get (str "a1") (bots s') = None
    /\ option_map status (map_get (str "a1") (accounts s'))
       = option_map status (map_get (str "a1") (accounts steveConnected)).
Proof.
  destruct (proj2 (disconnectBot_frame plainWorld steveConnected (str "a1"))
                  1 eq_refl)
    as [s' [H1 [_ [H3 [_ [_ [_ H7]]]]]]].
  exists s'. split; [exact H1|]. split; [exact H3|].
  simpl in H7. destruct H7 as [a' [Hg [Hst _]]].
  rewrite Hg. simpl. now rewrite Hst.
Defined.

(** ** The 'update' event *)

Lemma mergedQuietly_trace k key v s :
  trace (snd (mergedQuietly k key v s)) = trace s.
Proof.
  unfold mergedQuietly. destruct (map_get k (accounts s)); [|reflexivity].
  destruct v; [|reflexivity]. now destruct (strictEq _ _).
Qed.

Lemma mergedQuietly_false k key v s :
  fst (mergedQuietly k key v s) = false -> snd (mergedQuietly k key v s) = s.
Proof.
  unfold mergedQuietly. destruct (map_get k (accounts s)); [|reflexivity].
  destruct v; [|reflexivity]. destruct (strictEq _ _); [reflexivity|].
  discriminate.
Qed.

(** C5, as the code has it.  In a state the manager reaches: adding an
    account under a new id, appending a log line to an account there is and
    changing a statistic (from a text or from a scoreboard entry) each emit
    exactly one 'update', which carries the whole list of accounts after
    the change.  [removeAccount] does so when the id has no connection.
    When it has one, [removeAccount] emits twice: first the list in which
    the account is still present, with the "Disconnecting manually" line,
    then, after the connection is closed, the list after the removal. *)
Theorem one_update_per_mutation w s :
  reachable s ->
  (forall account,
      map_get (row_id account) (accounts s) = None ->
      let s' := after w (AddAccount account) s in
      trace s' = trace s ++ [Emit (map_values (accounts s'))])
  /\ (forall k msg a,
      map_get k (accounts s) = Some a ->
      let s' := after w (Log k msg) s in
      trace s' = trace s ++ [Emit (map_values (accounts s'))])
  /\ (forall k rawText a key v,
      map_get k (accounts s) = Some a ->
      ignored rawText = false ->
      extract w rawText = Some (key, v) ->
      strictEq (stat key (accountData a)) v = false ->
      let s' := after w (UpdateStat k rawText) s in
      map_get k (accounts s')
      = Some (with_accountData (set_stat key v (accountData a)) a)
      /\ trace s' = trace s ++ [Emit (map_values (accounts s'))])
  /\ (forall k item,
      let s' := after w (ScoreUpdated k item) s in
      accounts s' <> accounts s ->
      trace s' = trace s ++ [Emit (map_values (accounts s'))])
  /\ (forall k,
      map_get k (bots s) = None ->
      let s' := after w (RemoveAccount k) s in
      accounts s' = map_delete k (accounts s)
      /\ trace s' = trace s ++ [Emit (map_values (accounts s'))])
  /\ (forall k bot,
      map_get k (bots s) = Some bot ->
      let s' := after w (RemoveAccount k) s in
      exists a,
        map_get k (accounts s) = Some a
        /\ accounts s' = map_delete k (accounts s)
        /\ trace s'
           = trace s
             ++ [Emit (map_values (accounts (logged w k DISCONNECTING s)));
                 closing (Some a) bot;
                 Emit (map_values (accounts s'))]).
Proof.
  intro Hr. apply reachable_Inv in Hr.
  repeat match goal with |- _ /\ _ => split end.
  - intros account Hn s'. subst s'. unfold after. simpl.
    rewrite addAccount_eq.
    destruct (existsb _ (db s)) eqn:Ex; [|reflexivity].
    apply existsb_row_ids in Ex. rewrite <- (inv_keys Hr) in Ex.
    apply map_get_none in Hn. contradiction.
  - intros k msg a Ha s'. subst s'. unfold after. simpl. rewrite log_eq.
    simpl. now apply logged_trace with (a := a).
  - intros k rawText a key v Ha Hi He Hd s'. subst s'. unfold after. simpl.
    rewrite updateStat_eq. simpl. unfold statUpdated, merged.
    rewrite Hi, He, Ha, Hd. simpl. split; [apply get_set_same | reflexivity].
  - intros k item s' Hne. subst s'. unfold after in *. simpl in *.
    rewrite onScoreUpdated_eq in *. simpl in *. unfold scoreUpdated in *.
    destruct item as [item|]; [|contradiction].
    destruct (map_get k (accounts s)); [|contradiction].
    cbv zeta in *.
    set (r1 := mergedQuietly k Kshards _ s) in *.
    set (r2 := mergedQuietly k Kmoney _ (snd r1)) in *.
    destruct (fst r1 || fst r2) eqn:E.
    + simpl. unfold r2, r1. now rewrite !mergedQuietly_trace.
    + apply orb_false_iff in E as [E1 E2].
      exfalso. apply Hne. unfold r2 in *.
      rewrite (mergedQuietly_false _ _ _ _ E2).
      unfold r1 in *. now rewrite (mergedQuietly_false _ _ _ _ E1).
  - intros k Hn s'. subst s'. unfold after. simpl. rewrite removeAccount_eq.
    simpl. unfold removed, disconnected. rewrite Hn. split; reflexivity.
  - intros k bot Hb s'. subst s'. unfold after. simpl.
    rewrite removeAccount_eq. simpl. unfold removed, disconnected.
    rewrite Hb. cbv zeta.
    destruct (map_get k (accounts s)) as [a|] eqn:Ea.
    + exists a. split; [reflexivity|].
      destruct (logged_account w k DISCONNECTING s Ea) as [Hg _].
      rewrite Hg. simpl.
      rewrite (logged_trace w k DISCONNECTING s Ea), <- !app_assoc.
      split; [|reflexivity].
      unfold logged. rewrite Ea. simpl.
      clear. induction (accounts s) as [|[k0 v0] m IH]; simpl.
      * now rewrite eqb_refl.
      * destruct (Js.eqb k k0) eqn:E; simpl.
        -- now rewrite eqb_refl.
        -- now rewrite E, IH.
    + exfalso. apply map_get_none in Ea. apply Ea.
      apply (inv_bots Hr). eapply map_get_some; eassumption.
Qed.

Lemma one_update_per_mutation_witness :
  exists a,
    map_get (str "a1") (accounts steveConnected) = Some a
    /\ accounts (after plainWorld (RemoveAccount (str "a1")) steveConnected)
       = map_delete (str "a1") (accounts steveConnected)
    /\ trace (after plainWorld (RemoveAccount (str "a1")) steveConnected)
       = trace steveConnected
         ++ [Emit (map_values
                     (accounts (logged plainWorld (str "a1") DISCONNECTING
                                       steveConnected)));
             closing (Some a) 1;
             Emit (map_values
                     (accounts (after plainWorld (RemoveAccount (str "a1"))
                                      steveConnected)))].
Proof.
  refine (proj2 (proj2 (proj2 (proj2 (proj2
            (one_update_per_mutation plainWorld (s := steveConnected) _)))))
            (str "a1") 1 eq_refl).
  unfold steveConnected, twoAccounts. do 3 apply reach_step.
  apply (reach_new []). constructor.
Defined.

(** The claim C5 as the specification words it fails on a removal: the
    account [a1] is connected, and removing it emits two 'update' events,
    the first of which still lists the account. *)
Lemma removeAccount_connected_emits_twice :
  reachable steveConnected
  /\ map_get (str "a1") (bots steveConnected) = Some 1
  /\ emissions (trace (after plainWorld (RemoveAccount (str "a1"))
                             steveConnected))
     = emissions (trace steveConnected)
       ++ [map_values (accounts (logged plainWorld (str "a1") DISCONNECTING
                                        steveConnected));
           map_values (accounts (after plainWorld (RemoveAccount (str "a1"))
                                       steveConnected))]
  /\ List.length
       (emissions (trace (after plainWorld (RemoveAccount (str "a1"))
                                steveConnected)))
     = List.length (emissions (trace steveConnected)) + 2.
Proof.
  split.
  - unfold steveConnected, twoAccounts. do 3 apply reach_step.
    apply (reach_new []). constructor.
  - vm_compute. repeat split.
Qed.

(** ** The numbers the manager computes *)

Lemma shr_1_nonneg mrs : (0 <= shr_m mrs)%Z -> (0 <= shr_m (shr_1 mrs))%Z.
Proof.
  destruct mrs as [m r t]. simpl.
  destruct m as [|[p|p|]|[p|p|]]; simpl; lia.
Qed.

Lemma iter_shr_1_nonneg p : forall mrs,
  (0 <= shr_m mrs)%Z -> (0 <= shr_m (iter_pos shr_1 p mrs))%Z.
Proof.
  induction p as [p IH|p IH|]; intros mrs H; simpl.
  - apply IH, IH. now apply shr_1_nonneg.
  - now apply IH, IH.
  - now apply shr_1_nonneg.
Qed.

Lemma shr_fexp_nonneg m e l :
  (0 <= m)%Z -> (0 <= shr_m (fst (shr_fexp prec emax m e l)))%Z.
Proof.
  intro H. unfold shr_fexp, shr.
  assert (H0 : (0 <= shr_m (shr_record_of_loc m l))%Z)
    by (destruct l as [|[| |]]; exact H).
  destruct (_ - e)%Z; simpl; auto using iter_shr_1_nonneg.
Qed.

Lemma round_nearest_even_nonneg m l :
  (0 <= m)%Z -> (0 <= round_nearest_even m l)%Z.
Proof.
  intro H. unfold round_nearest_even.
  destruct l as [|[| |]]; try destruct (Z.even m); lia.
Qed.

Lemma binary_round_aux_sign sg m e l :
  (0 <= m)%Z ->
  match binary_round_aux prec emax sg m e l with
  | S754_nan => False
  | S754_zero sg' | S754_infinity sg' | S754_finite sg' _ _ => sg' = sg
  end.
Proof.
  intro H. unfold binary_round_aux.
  pose proof (shr_fexp_nonneg e l H) as H1.
  destruct (shr_fexp prec emax m e l) as [mrs' e']. simpl in H1.
  pose proof (shr_fexp_nonneg e' loc_Exact
                (round_nearest_even_nonneg (loc_of_shr_record mrs') H1)) as H2.
  destruct (shr_fexp prec emax _ e' loc_Exact) as [mrs'' e'']. simpl in H2.
  destruct (shr_m mrs'') as [|p|p]; try reflexivity.
  - now destruct (e'' <=? emax - prec)%Z.
  - lia.
Qed.

Lemma digitsZ_nonneg ds : (0 <= digitsZ ds)%Z.
Proof.
  unfold digitsZ.
  assert (H : forall a, (0 <= a)%Z ->
              (0 <= fold_left (fun a c => 10 * a + digitVal c) ds a)%Z).
  { induction ds as [|c ds IH]; intros a Ha.
    - exact Ha.
    - apply IH. unfold digitVal. lia. }
  apply H. lia.
Qed.

Lemma ofDecimal_nonNegative ip fp : nonNegative (ofDecimal ip fp).
Proof.
  unfold ofDecimal.
  assert (Hp : (0 < 10 ^ Z.of_nat (List.length fp))%Z)
    by (apply Z.pow_pos_nonneg; lia).
  pose proof (digitsZ_nonneg (ip ++ fp)) as Hn.
  destruct (10 ^ Z.of_nat (List.length fp))%Z as [|q|q]; try lia.
  destruct (digitsZ (ip ++ fp)) as [|p|p]; try lia; simpl.
  - reflexivity.
  - assert (Hq : (0 <= fst (fst (SFdiv_core_binary prec emax (Z.pos p) 0
                                                    (Z.pos q) 0)))%Z).
    { unfold SFdiv_core_binary.
      set (sh := (_ - _ - _)%Z).
      set (m' := match sh with
                 | Z0 => Z.pos p
                 | Z.pos _ => Z.shiftl (Z.pos p) sh
                 | Z.neg _ => 0%Z
                 end).
      assert (Hm' : (0 <= m')%Z).
      { unfold m'. destruct sh; try lia. apply Z.shiftl_nonneg. lia. }
      pose proof (Z.div_eucl_eq m' (Z.pos q) ltac:(lia)) as Heq.
      pose proof (Z.mod_pos_bound m' (Z.pos q) ltac:(lia)) as Hmod.
      unfold Z.modulo in Hmod.
      destruct (Z.div_eucl m' (Z.pos q)) as [qq rr]. simpl. nia. }
    destruct (SFdiv_core_binary prec emax (Z.pos p) 0 (Z.pos q) 0)
      as [[mz ez] lz].
    simpl in Hq.
    pose proof (binary_round_aux_sign false ez lz Hq) as Hs.
    unfold nonNegative.
    destruct (binary_round_aux prec emax false mz ez lz); auto.
Qed.

Lemma multiplier_positive suffix :
  exists m e, multiplier suffix = S754_finite false m e.
Proof.
  unfold multiplier.
  destruct suffix as [c|]; [|vm_compute; eauto].
  destruct (N.eq_dec c 107) as [->|H1]; [vm_compute; eauto|].
  destruct (N.eq_dec c 109) as [->|H2]; [vm_compute; eauto|].
  destruct (N.eq_dec c 98) as [->|H3]; [vm_compute; eauto|].
  assert (H : match c with
              | 107%N => ofZ 1000
              | 109%N => ofZ 1000000
              | 98%N => ofZ 1000000000
              | _ => ofZ 1
              end = ofZ 1).
  { destruct c as [|p]; [reflexivity|].
    do 7 (destruct p as [p|p|]; try reflexivity); congruence. }
  rewrite H. vm_compute; eauto.
Qed.

Lemma mul_nonNegative x suffix :
  nonNegative x -> nonNegative (mul x (multiplier suffix)).
Proof.
  intro H. destruct (multiplier_positive suffix) as [m [e ->]].
  destruct x as [sx|sx| |sx mx ex]; simpl in *; subst; try reflexivity;
    try contradiction.
  pose proof (@binary_round_aux_sign false (Z.pos (mx * m)) (ex + e)
                loc_Exact ltac:(lia)) as Hs.
  unfold mul, SFmul, nonNegative. simpl xorb.
  destruct (binary_round_aux prec emax false _ _ loc_Exact); auto.
Qed.

Lemma strictEq_refl x : nonNegative x -> strictEq x x = true.
Proof.
  destruct x as [sx|sx| |sx mx ex]; simpl; intro H; subst;
    try reflexivity; try contradiction.
  unfold strictEq, SFeqb, SFcompare.
  now rewrite Z.compare_refl, Pos.compare_cont_refl.
Qed.

(** ** The number pattern *)

Lemma span_spec p s :
  s = fst (span p s) ++ snd (span p s)
  /\ forallb p (fst (span p s)) = true
  /\ headIs p (snd (span p s)) = false.
Proof.
  induction s as [|c s IH]; simpl.
  - auto.
  - destruct (p c) eqn:E.
    + destruct (span p s) as [a b]. simpl in *.
      destruct IH as [H1 [H2 H3]]. rewrite E, H2, <- H1. auto.
    + simpl. now rewrite E.
Qed.

Lemma span_app p a b :
  forallb p a = true -> headIs p b = false -> span p (a ++ b) = (a, b).
Proof.
  intros Ha Hb. induction a as [|c a IH]; simpl in *.
  - destruct b as [|c b]; [reflexivity|]. simpl in *. now rewrite Hb.
  - apply andb_true_iff in Ha as [Hc Ha]. now rewrite Hc, IH.
Qed.

Lemma headIs_app p a b : a <> [] -> headIs p (a ++ b) = headIs p a.
Proof. now destruct a. Qed.

Lemma suffix_not_digit c : isSuffix c = true -> isDigit c = false.
Proof.
  unfold isSuffix, isDigit. rewrite !orb_true_iff, !N.eqb_eq.
  intros [[-> | ->] | ->]; reflexivity.
Qed.

Lemma suffix_not_dot c : isSuffix c = true -> (c =? DOT)%N = false.
Proof.
  unfold isSuffix. rewrite !orb_true_iff, !N.eqb_eq.
  intros [[-> | ->] | ->]; reflexivity.
Qed.

Lemma suffix_of_part sf rest :
  isSuffixPart sf rest ->
  match sf ++ rest with
  | c :: _ => if isSuffix c then Some c else None
  | [] => None
  end = hd_error sf.
Proof.
  intros [[c [-> Hc]] | [-> Hr]]; simpl.
  - now rewrite Hc.
  - destruct rest as [|c rest]; [reflexivity|]. simpl in Hr. now rewrite Hr.
Qed.

Lemma numberAt_shape ds frac sf rest :
  ds <> [] -> forallb isDigit ds = true ->
  isFraction frac (sf ++ rest) -> isSuffixPart sf rest ->
  numberAt (ds ++ frac ++ sf ++ rest) = (ds ++ frac, hd_error sf).
Proof.
  intros Hne Hds Hfrac Hsf. unfold numberAt.
  pose proof (@suffix_of_part sf rest Hsf) as Hsuf.
  destruct Hfrac as [[-> Hnext] | [fs [-> [Hfs Hnext]]]].
  - change ([] ++ sf ++ rest) with (sf ++ rest).
    assert (Hd : headIs isDigit (sf ++ rest) = false).
    { destruct (sf ++ rest) as [|c r]; [reflexivity|]. simpl in *.
      now apply orb_false_iff in Hnext. }
    rewrite (span_app isDigit ds (sf ++ rest) Hds Hd). cbv beta iota.
    destruct (sf ++ rest) as [|c r] eqn:Et.
    + simpl. now rewrite <- Hsuf.
    + simpl in Hnext, Hd. apply orb_false_iff in Hnext as [_ Hc].
      rewrite Hc. simpl. rewrite Hd. now rewrite <- Hsuf.
  - assert (Hd : headIs isDigit ((DOT :: fs) ++ sf ++ rest) = false)
      by reflexivity.
    rewrite (span_app isDigit ds _ Hds Hd). cbv beta iota.
    change ((DOT :: fs) ++ sf ++ rest) with (DOT :: (fs ++ sf ++ rest)).
    cbv beta iota. rewrite N.eqb_refl.
    rewrite (span_app isDigit fs (sf ++ rest) Hfs Hnext). cbv beta iota.
    now rewrite Hsuf.
Qed.

Lemma matchNumber_skip pre s :
  noDigit pre = true -> matchNumber (pre ++ s) = matchNumber s.
Proof.
  intro H. induction pre as [|c pre IH]; simpl in *; [reflexivity|].
  apply andb_true_iff in H as [Hc Hp]. apply negb_true_iff in Hc.
  now rewrite Hc, IH.
Qed.

Lemma forallb_head (p : N -> bool) l :
  l <> [] -> forallb p l = true -> headIs p l = true.
Proof.
  destruct l as [|c l]; [congruence|]. simpl. intros _ H.
  now apply andb_true_iff in H.
Qed.

(** A text of the shape matches, with the number and the suffix of the
    shape as groups 1 and 2. *)
Lemma matchNumber_shape v pre ds frac sf rest :
  NumberShape v pre ds frac sf rest ->
  matchNumber v = Some (ds ++ frac, hd_error sf).
Proof.
  intros [-> Hpre Hne Hds Hfrac Hsf]. rewrite matchNumber_skip by assumption.
  rewrite <- (@numberAt_shape ds frac sf rest Hne Hds Hfrac Hsf).
  pose proof (@forallb_head isDigit ds Hne Hds) as Hh.
  destruct ds as [|c ds]; [congruence|]. simpl in Hh. simpl matchNumber.
  now rewrite Hh.
Qed.

Lemma matchNumber_none v : matchNumber v = None <-> noDigit v = true.
Proof.
  induction v as [|c v IH]; simpl.
  - tauto.
  - destruct (isDigit c); simpl.
    + split; discriminate.
    + exact IH.
Qed.

Lemma numberAt_complete s :
  headIs isDigit s = true ->
  exists ds frac sf rest,
    NumberShape s [] ds frac sf rest.
Proof.
  intro Hh.
  destruct (span_spec isDigit s) as [H1 [H2 H3]].
  set (ds := fst (span isDigit s)) in *.
  set (r := snd (span isDigit s)) in *.
  assert (Hne : ds <> []).
  { intro E. rewrite E in H1. simpl in H1. rewrite <- H1 in H3. congruence. }
  assert (Hsuf : forall t, exists sf rest,
             t = sf ++ rest /\ isSuffixPart sf rest).
  { intros [|c t].
    - exists [], []. split; [reflexivity|]. right. auto.
    - destruct (isSuffix c) eqn:Ec.
      + exists [c], t. split; [reflexivity|]. left. eauto.
      + exists [], (c :: t). split; [reflexivity|]. right. auto. }
  destruct r as [|c r'] eqn:Er.
  - exists ds, [], [], []. constructor; auto.
    + left. auto.
    + right. auto.
  - destruct (N.eqb_spec c DOT) as [-> | Hc].
    + destruct (span_spec isDigit r') as [G1 [G2 G3]].
      destruct (Hsuf (snd (span isDigit r'))) as [sf [rest [Hs Hp]]].
      exists ds, (DOT :: fst (span isDigit r')), sf, rest.
      constructor; auto.
      * simpl. rewrite <- Hs. simpl in G1. now rewrite <- G1.
      * right. exists (fst (span isDigit r')). rewrite <- Hs. auto.
    + destruct (Hsuf (c :: r')) as [sf [rest [Hs Hp]]].
      exists ds, [], sf, rest. constructor; auto.
      * simpl. now rewrite <- Hs.
      * left. split; [reflexivity|]. rewrite <- Hs. simpl. simpl in H3.
        rewrite H3. simpl. now apply N.eqb_neq.
Qed.

(** Every match has the shape. *)
Lemma matchNumber_complete v num suffix :
  matchNumber v = Some (num, suffix) ->
  exists pre ds frac sf rest,
    NumberShape v pre ds frac sf rest
    /\ num = ds ++ frac /\ suffix = hd_error sf.
Proof.
  intro H.
  assert (Hex : exists pre s, v = pre ++ s /\ noDigit pre = true
                              /\ headIs isDigit s = true).
  { revert H. generalize (num, suffix).
    induction v as [|c v IH]; intros x H; simpl in H; [discriminate|].
    destruct (isDigit c) eqn:Ec.
    - exists [], (c :: v). simpl. auto.
    - destruct (IH _ H) as [pre [s [-> [Hp Hs]]]].
      exists (c :: pre), s. simpl. unfold noDigit in *. simpl.
      now rewrite Ec, Hp. }
  destruct Hex as [pre [s [-> [Hp Hs]]]].
  destruct (numberAt_complete s Hs) as [ds [frac [sf [rest Hshape]]]].
  destruct Hshape as [Heq _ Hne Hds Hfrac Hsf]. simpl in Heq.
  exists pre, ds, frac, sf, rest.
  assert (Hshape : NumberShape (pre ++ s) pre ds frac sf rest)
    by (constructor; auto; now rewrite Heq).
  rewrite (@matchNumber_shape _ _ _ _ _ _ Hshape) in H. injection H as <- <-.
  auto.
Qed.

(** On the number of a shape [parseFloat] is the decimal value. *)
Lemma parseFloat_shape ds frac next :
  ds <> [] -> forallb isDigit ds = true -> isFraction frac next ->
  parseFloat (ds ++ frac) = ofDecimal ds (tl frac).
Proof.
  intros Hne Hds [[-> _] | [fs [-> [Hfs _]]]]; unfold parseFloat.
  - rewrite (span_app isDigit ds [] Hds eq_refl).
    destruct ds; [congruence | reflexivity].
  - rewrite (span_app isDigit ds (DOT :: fs) Hds eq_refl). cbv beta iota.
    rewrite N.eqb_refl.
    replace (span isDigit fs) with (fs, @nil N)
      by (rewrite <- (app_nil_r fs) at 2;
          now rewrite (span_app isDigit fs [] Hfs eq_refl)).
    simpl. destruct ds; [congruence | reflexivity].
Qed.

Lemma matchNumber_nonNegative v num suffix :
  matchNumber v = Some (num, suffix) ->
  nonNegative (parseFloat num).
Proof.
  intro H. apply matchNumber_complete in H
    as [pre [ds [frac [sf [rest [[_ _ Hne Hds Hfrac _] [-> _]]]]]]].
  rewrite (@parseFloat_shape ds frac _ Hne Hds Hfrac). apply ofDecimal_nonNegative.
Qed.

Lemma extract_nonNegative w rawText key v :
  extract w rawText = Some (key, v) -> nonNegative v.
Proof.
  unfold extract.
  destruct (findLabel (clean w rawText)) as [[key' label]|]; [|discriminate].
  destruct (matchNumber _) as [[num suffix]|] eqn:E; [|discriminate].
  intros [= _ <-]. apply mul_nonNegative.
  eapply matchNumber_nonNegative; eassumption.
Qed.

Lemma scoreValue_nonNegative w cleanText searchStr v :
  scoreValue w cleanText searchStr = Some v -> nonNegative v.
Proof.
  unfold scoreValue. destruct (includes cleanText searchStr); [|discriminate].
  destruct (matchNumber _) as [[num suffix]|] eqn:E; [|discriminate].
  intros [= <-]. apply mul_nonNegative.
  destruct (isFalsy (parseFloat num)); [reflexivity|].
  eapply matchNumber_nonNegative; eassumption.
Qed.

(** ** The stat extractor *)

Lemma startsWith_app sep s : startsWith (sep ++ s) sep = true.
Proof.
  induction sep as [|x sep IH]; simpl.
  - now destruct s.
  - unfold unit_eqb. now rewrite N.eqb_refl, IH.
Qed.

Lemma split_aux_skip sep cur : forall m s,
  split_aux sep m cur s = split_aux sep 0 cur (skipn m s).
Proof.
  induction m as [|m IH]; intro s; [reflexivity|].
  destruct s as [|c s]; [reflexivity|]. simpl. apply IH.
Qed.

Lemma split_aux_absent sep : forall s cur,
  includes s sep = false -> split_aux sep 0 cur s = [rev cur ++ s].
Proof.
  induction s as [|c s IH]; intros cur H.
  - simpl. now rewrite app_nil_r.
  - change (includes (c :: s) sep)
      with (startsWith (c :: s) sep || includes s sep) in H.
    apply orb_false_iff in H as [H1 H2].
    change (split_aux sep 0 cur (c :: s))
      with (if startsWith (c :: s) sep
            then rev cur :: split_aux sep (List.length sep - 1) [] s
            else split_aux sep 0 (c :: cur) s).
    rewrite H1, IH by exact H2. simpl. now rewrite <- app_assoc.
Qed.

(** [split] up to the first occurrence of the separator. *)
Lemma split_aux_indexOf sep : sep <> [] -> forall s cur n,
  indexOf s sep = Some n ->
  split_aux sep 0 cur s
  = (rev cur ++ firstn n s) :: split_aux sep 0 [] (following s sep n).
Proof.
  intros Hne. induction s as [|c s IH]; intros cur n H.
  - destruct sep; [congruence | discriminate].
  - change (split_aux sep 0 cur (c :: s))
      with (if startsWith (c :: s) sep
            then rev cur :: split_aux sep (List.length sep - 1) [] s
            else split_aux sep 0 (c :: cur) s).
    change (indexOf (c :: s) sep)
      with (if startsWith (c :: s) sep then Some 0
            else option_map S (indexOf s sep)) in H.
    destruct (startsWith (c :: s) sep).
    + injection H as <-. simpl firstn. rewrite app_nil_r.
      rewrite split_aux_skip. unfold following.
      destruct sep as [|x sep]; [congruence|]. simpl.
      now rewrite Nat.sub_0_r.
    + destruct (indexOf s sep) as [n'|] eqn:E; [|discriminate].
      injection H as <-. rewrite (IH _ _ eq_refl). simpl.
      now rewrite <- app_assoc.
Qed.

Lemma indexOf_includes s sep :
  includes s sep = true <-> exists n, indexOf s sep = Some n.
Proof.
  induction s as [|c s IH].
  - destruct sep; simpl.
    + split; eauto.
    + split; [discriminate | intros [i H]; discriminate].
  - change (includes (c :: s) sep)
      with (startsWith (c :: s) sep || includes s sep).
    change (indexOf (c :: s) sep)
      with (if startsWith (c :: s) sep then Some 0
            else option_map S (indexOf s sep)).
    destruct (startsWith (c :: s) sep); simpl.
    + split; eauto.
    + rewrite IH. split; intros [i H].
      * rewrite H. simpl. eauto.
      * destruct (indexOf s sep); [eauto | discriminate].
Qed.

Lemma digit_not_space c : isDigit c = true -> isWhiteSpace c = false.
Proof.
  unfold isDigit, isWhiteSpace, isLineTerminator. intro H.
  apply andb_true_iff in H as [H1 H2].
  apply N.leb_le in H1. apply N.leb_le in H2. simpl.
  repeat match goal with
         | |- context [(c =? ?n)%N] =>
             replace (c =? n)%N with false by (symmetry; apply N.eqb_neq; lia)
         end.
  replace (8192 <=? c)%N with false by (symmetry; apply N.leb_gt; lia).
  reflexivity.
Qed.

Lemma space_units c :
  isWhiteSpace c = true ->
  isDigit c = false /\ (c =? DOT)%N = false /\ isSuffix c = false.
Proof.
  intro H. unfold isWhiteSpace, isLineTerminator in H. simpl in H.
  unfold isDigit, isSuffix, DOT.
  repeat (apply orb_true_iff in H as [H | H]);
    try (apply N.eqb_eq in H; subst c; auto);
    try discriminate.
  apply andb_true_iff in H as [H1 H2].
  apply N.leb_le in H1. apply N.leb_le in H2.
  replace (c <=? 57)%N with false by (symmetry; apply N.leb_gt; lia).
  replace (c =? 46)%N with false by (symmetry; apply N.eqb_neq; lia).
  replace (c =? 107)%N with false by (symmetry; apply N.eqb_neq; lia).
  replace (c =? 109)%N with false by (symmetry; apply N.eqb_neq; lia).
  replace (c =? 98)%N with false by (symmetry; apply N.eqb_neq; lia).
  now rewrite andb_false_r.
Qed.

Lemma trimStart_spec s :
  exists ws, s = ws ++ trimStart s /\ forallb isWhiteSpace ws = true.
Proof.
  induction s as [|c s [ws [IH Hws]]]; [now exists []|]. simpl.
  destruct (isWhiteSpace c) eqn:E.
  - exists (c :: ws). simpl. rewrite E, Hws. split; [|reflexivity].
    now rewrite <- IH.
  - now exists [].
Qed.

Lemma spaces_noDigit ws : forallb isWhiteSpace ws = true -> noDigit ws = true.
Proof.
  induction ws as [|c ws IH]; [reflexivity|]. simpl. intro H.
  apply andb_true_iff in H as [Hc Hw].
  destruct (space_units c Hc) as [-> _]. now apply IH.
Qed.

Lemma headIs_spaces (p : N -> bool) ws :
  forallb isWhiteSpace ws = true ->
  (forall c, isWhiteSpace c = true -> p c = false) ->
  headIs p ws = false.
Proof.
  intros H Hp. destruct ws as [|c ws]; [reflexivity|]. simpl in *.
  apply andb_true_iff in H as [Hc _]. now apply Hp.
Qed.

Lemma headIs_app_spaces (p : N -> bool) l ws :
  forallb isWhiteSpace ws = true ->
  (forall c, isWhiteSpace c = true -> p c = false) ->
  headIs p (l ++ ws) = headIs p l.
Proof.
  intros H Hp. destruct l as [|c l]; [|reflexivity]. simpl.
  now apply headIs_spaces.
Qed.

(** White space at the end of a text changes nothing to the number read in
    it. *)
Lemma matchNumber_spaces v ws :
  forallb isWhiteSpace ws = true -> matchNumber (v ++ ws) = matchNumber v.
Proof.
  intro Hws. destruct (matchNumber v) as [[num suffix]|] eqn:E.
  - apply matchNumber_complete in E
      as (pre & ds & frac & sf & rest & [Hv Hpre Hne Hds Hfrac Hsf] & -> & ->).
    apply (@matchNumber_shape _ pre ds frac sf (rest ++ ws)).
    constructor; try assumption.
    + rewrite Hv, <- !app_assoc. reflexivity.
    + rewrite app_assoc.
      destruct Hfrac as [[-> Hn] | [fs [-> [Hfs Hn]]]]; [left | right].
      * split; [reflexivity|]. rewrite headIs_app_spaces; [exact Hn | exact Hws |].
        intros c Hc. destruct (space_units c Hc) as (-> & -> & _). reflexivity.
      * exists fs. repeat split; try assumption.
        rewrite headIs_app_spaces; [exact Hn | exact Hws |].
        intros c Hc. now destruct (space_units c Hc) as (-> & _).
    + destruct Hsf as [Hc | [-> Hn]]; [now left | right].
      split; [reflexivity|]. rewrite headIs_app_spaces; [exact Hn | exact Hws |].
      intros c Hc. now destruct (space_units c Hc) as (_ & _ & ->).
  - apply matchNumber_none. apply matchNumber_none in E.
    unfold noDigit in *. rewrite forallb_app, E. simpl.
    now apply spaces_noDigit.
Qed.

(** [trim] changes nothing to the number read in a text. *)
Lemma matchNumber_trim v : matchNumber (trim v) = matchNumber v.
Proof.
  unfold trim. transitivity (matchNumber (trimStart v)).
  - set (u := trimStart v).
    destruct (trimStart_spec (rev u)) as [ws' [Hr Hws']].
    assert (Hu : u = rev (trimStart (rev u)) ++ rev ws').
    { rewrite <- rev_app_distr, <- Hr. now rewrite rev_involutive. }
    assert (Hs : forallb isWhiteSpace (rev ws') = true).
    { rewrite forallb_forall in *. intros c Hc. apply Hws'.
      now apply in_rev. }
    rewrite <- (@matchNumber_spaces (rev (trimStart (rev u))) (rev ws') Hs).
    f_equal. symmetry. exact Hu.
  - destruct (trimStart_spec v) as [ws [Hv Hws]].
    rewrite <- (@matchNumber_skip ws (trimStart v))
      by now apply spaces_noDigit.
    f_equal. symmetry. exact Hv.
Qed.

(** The value part is the text after the first occurrence of the label,
    trimmed, when the label does not occur again in it. *)
Lemma valuePart_following cl label n :
  label <> [] ->
  indexOf cl label = Some n ->
  includes (following cl label n) label = false ->
  valuePart cl label = trim (following cl label n).
Proof.
  intros Hne Hi Hn. unfold valuePart, split.
  rewrite (@split_aux_indexOf label Hne cl [] n Hi).
  now rewrite split_aux_absent by exact Hn.
Qed.

Lemma findLabel_nonempty cl key label :
  findLabel cl = Some (key, label) -> label <> [].
Proof.
  unfold findLabel, labels. simpl.
  destruct (includes cl (str "money")); [intros [= <- <-]; discriminate|].
  destruct (includes cl (str "shards")); [intros [= <- <-]; discriminate|].
  discriminate.
Qed.

(** C2, as the code has it.  The extractor reads the number in the text
    that follows the first occurrence of the label in the cleaned text, for
    a text in which the label does not occur again: there it takes the
    leftmost longest match of the grammar digits[.][digits][k|m|b], where
    the dot is optional on its own, so "5." and "5.k" are numbers with the
    dot in them.  The value is the decimal [ds.fs], rounded to a number,
    times 1e3, 1e6 or 1e9 for the suffix k, m or b and times 1 without
    suffix; every result of the extractor arises in this way, and there is
    no result when no digit follows the label.  A number before the label
    is not read.  "Shards 1.22m" gives (shards, 1220000), "nothing
    relevant" gives nothing and "Money 500" gives (money, 500). *)
Theorem extract_grammar w :
  (forall rawText key label n,
      findLabel (clean w rawText) = Some (key, label) ->
      indexOf (clean w rawText) label = Some n ->
      includes (following (clean w rawText) label n) label = false ->
      valuePart (clean w rawText) label
      = trim (following (clean w rawText) label n)
      /\ (forall pre ds frac sf rest,
            NumberShape (following (clean w rawText) label n)
                        pre ds frac sf rest ->
            extract w rawText
            = Some (key, mul (ofDecimal ds (tl frac))
                             (multiplier (hd_error sf))))
      /\ (noDigit (following (clean w rawText) label n) = true ->
          extract w rawText = None)
      /\ (forall key' v,
            extract w rawText = Some (key', v) ->
            key' = key
            /\ exists pre ds frac sf rest,
                 NumberShape (following (clean w rawText) label n)
                             pre ds frac sf rest
                 /\ v = mul (ofDecimal ds (tl frac))
                            (multiplier (hd_error sf))))
  /\ (forall rawText key v,
      extract w rawText = Some (key, v) ->
      exists label pre ds frac sf rest,
        findLabel (clean w rawText) = Some (key, label)
        /\ NumberShape (valuePart (clean w rawText) label) pre ds frac sf rest
        /\ v = mul (ofDecimal ds (tl frac)) (multiplier (hd_error sf)))
  /\ (multiplier (Some 107%N) = ofZ 1000
      /\ multiplier (Some 109%N) = ofZ 1000000
      /\ multiplier (Some 98%N) = ofZ 1000000000
      /\ multiplier None = ofZ 1)
  /\ extract w (str "Shards 1.22m") = Some (Kshards, ofZ 1220000)
  /\ extract w (str "nothing relevant") = None
  /\ extract w (str "Money 500") = Some (Kmoney, ofZ 500)
  /\ extract w (str "5 Shards 7") = Some (Kshards, ofZ 7)
  /\ extract w (str "9 Money: 2.5k (3 Shards)") = Some (Kmoney, ofZ 2500).
Proof.
  repeat match goal with |- _ /\ _ => split end; try reflexivity.
  - intros rawText key label n Hl Hi Hn.
    pose proof (@valuePart_following _ _ _ (@findLabel_nonempty _ _ _ Hl) Hi Hn)
      as Hv.
    assert (Hm : forall r,
               matchNumber (following (clean w rawText) label n) = r ->
               extract w rawText
               = match r with
                 | Some (numStr, suffix) =>
                     Some (key, mul (parseFloat numStr) (multiplier suffix))
                 | None => None
                 end).
    { intros r <-. unfold extract. cbv zeta.
      now rewrite Hl, Hv, matchNumber_trim. }
    split; [exact Hv | split; [|split]].
    + intros pre ds frac sf rest Hs.
      rewrite (Hm _ (@matchNumber_shape _ _ _ _ _ _ Hs)).
      destruct Hs as [_ _ Hne Hds Hfrac _].
      now rewrite (@parseFloat_shape ds frac _ Hne Hds Hfrac).
    + intro Hd. apply matchNumber_none in Hd. now rewrite (Hm _ Hd).
    + intros key' v.
      destruct (matchNumber (following (clean w rawText) label n))
        as [[num suffix]|] eqn:E; rewrite (Hm _ eq_refl); [|discriminate].
      intros [= <- <-]. split; [reflexivity|].
      apply matchNumber_complete in E
        as (pre & ds & frac & sf & rest & Hs & -> & ->).
      exists pre, ds, frac, sf, rest. split; [exact Hs|].
      destruct Hs as [_ _ Hne Hds Hfrac _].
      now rewrite (@parseFloat_shape ds frac _ Hne Hds Hfrac).
  - intros rawText key v. unfold extract.
    destruct (findLabel (clean w rawText)) as [[key' label]|]; [|discriminate].
    destruct (matchNumber _) as [[num suffix]|] eqn:E; [|discriminate].
    intros [= <- <-].
    apply matchNumber_complete in E
      as [pre [ds [frac [sf [rest [Hs [-> ->]]]]]]].
    exists label, pre, ds, frac, sf, rest.
    split; [reflexivity|]. split; [exact Hs|].
    destruct Hs as [_ _ Hne Hds Hfrac _].
    now rewrite (@parseFloat_shape ds frac _ Hne Hds Hfrac).
Qed.

Lemma extract_grammar_witness :
  valuePart (clean plainWorld (str "5 Shards 5.k")) (str "shards")
  = trim (following (clean plainWorld (str "5 Shards 5.k")) (str "shards") 2)
  /\ extract plainWorld (str "5 Shards 5.k")
     = Some (Kshards, mul (ofDecimal (str "5") []) (multiplier (Some 107%N))).
Proof.
  destruct (proj1 (extract_grammar plainWorld) (str "5 Shards 5.k") Kshards
                  (str "shards") 2 eq_refl eq_refl eq_refl)
    as (Hv & Hs & _).
  split; [exact Hv|].
  apply (Hs [32%N] (str "5") [DOT] [107%N] []).
  constructor.
  - reflexivity.
  - reflexivity.
  - discriminate.
  - reflexivity.
  - right. exists []. repeat split.
  - left. exists 107%N. split; reflexivity.
Defined.

(** The claim C2 as the specification words it fails on "Shards 5.k": the
    grammar digits[.digits][k|m|b] reads the number 5 and stops at the
    dot, the code reads "5." and the suffix k, so 5000. *)
Lemma spec_grammar_differs :
  extract plainWorld (str "Shards 5.k") = Some (Kshards, ofZ 5000)
  /\ specExtract plainWorld (str "Shards 5.k") = Some (Kshards, ofZ 5).
Proof. split; reflexivity. Qed.

(** When the label occurs again after its first occurrence, the value part
    is the text between the two, and what comes after the second is not
    read. *)
Lemma valuePart_between cl label n m :
  label <> [] ->
  indexOf cl label = Some n ->
  indexOf (following cl label n) label = Some m ->
  valuePart cl label = trim (firstn m (following cl label n)).
Proof.
  intros Hne Hi Hm. unfold valuePart, split.
  rewrite (@split_aux_indexOf label Hne cl [] n Hi).
  now rewrite (@split_aux_indexOf label Hne _ [] m Hm).
Qed.

Example label_twice w :
  extract w (str "money money 5") = None
  /\ extract w (str "Money 3 money 5") = Some (Kmoney, ofZ 3).
Proof. split; reflexivity. Qed.

(** ** Merging a value into the statistics *)

Lemma stat_set_same key v d : stat key (set_stat key v d) = v.
Proof. now destruct key. Qed.

Lemma stat_set_other key key' v d :
  key' <> key -> stat key' (set_stat key v d) = stat key' d.
Proof. destruct key, key'; simpl; congruence. Qed.

Lemma emissions_app t t' : emissions (t ++ t') = emissions t ++ emissions t'.
Proof.
  induction t as [|e t IH]; simpl; [reflexivity|].
  destruct e; simpl; now rewrite IH.
Qed.

Lemma merged_settled k key v s a :
  map_get k (accounts s) = Some a ->
  strictEq (stat key (accountData a)) v = true ->
  merged k key v s = s.
Proof. intros Ha He. unfold merged. now rewrite Ha, He. Qed.

Lemma mergedQuietly_settled k key v s a :
  map_get k (accounts s) = Some a ->
  (forall x, v = Some x -> strictEq (stat key (accountData a)) x = true) ->
  mergedQuietly k key v s = (false, s).
Proof.
  intros Ha He. unfold mergedQuietly. rewrite Ha.
  destruct v as [x|]; [|reflexivity]. now rewrite (He x eq_refl).
Qed.

(** After the merge the stored value equals the one merged, and the other
    statistics are the ones stored before. *)
Lemma mergedQuietly_account k key v s a :
  map_get k (accounts s) = Some a ->
  (forall x, v = Some x -> nonNegative x) ->
  exists a',
    map_get k (accounts (snd (mergedQuietly k key v s))) = Some a'
    /\ (forall x, v = Some x -> strictEq (stat key (accountData a')) x = true)
    /\ (forall key', key' <> key ->
          stat key' (accountData a') = stat key' (accountData a)).
Proof.
  intros Ha Hv. unfold mergedQuietly. rewrite Ha.
  destruct v as [x|].
  - destruct (strictEq (stat key (accountData a)) x) eqn:E; simpl.
    + exists a. repeat split; auto. now intros y [= <-].
    + eexists. split; [apply get_set_same|]. simpl. split.
      * intros y [= <-]. rewrite stat_set_same. apply strictEq_refl. auto.
      * intros key' Hne. now apply stat_set_other.
  - exists a. repeat split; auto. discriminate.
Qed.

Lemma emitted_accounts s : accounts (emitted s) = accounts s.
Proof. reflexivity. Qed.

Lemma scoreUpdated_twice w k item s :
  scoreUpdated w k item (scoreUpdated w k item s) = scoreUpdated w k item s.
Proof.
  destruct item as [item|]; [|reflexivity].
  destruct (map_get k (accounts s)) as [a|] eqn:Ea;
    [|unfold scoreUpdated; now rewrite !Ea].
  set (vS := scoreValue w (itemText item) (str "Shards")).
  set (vM := scoreValue w (itemText item) (str "Money")).
  assert (HvS : forall x, vS = Some x -> nonNegative x)
    by (intros x Hx; eapply scoreValue_nonNegative; exact Hx).
  assert (HvM : forall x, vM = Some x -> nonNegative x)
    by (intros x Hx; eapply scoreValue_nonNegative; exact Hx).
  destruct (@mergedQuietly_account k Kshards vS s a Ea HvS)
    as [a1 [Ha1 [Hs1 _]]].
  destruct (@mergedQuietly_account k Kmoney vM _ a1 Ha1 HvM)
    as [a2 [Ha2 [Hm2 Ho2]]].
  set (r1 := mergedQuietly k Kshards vS s) in *.
  set (r2 := mergedQuietly k Kmoney vM (snd r1)) in *.
  assert (Hfinal : forall t,
             accounts t = accounts (snd r2) ->
             scoreUpdated w k (Some item) t = t).
  { intros t Ht. unfold scoreUpdated. rewrite Ht, Ha2. cbv zeta.
    fold vS vM.
    assert (H1 : mergedQuietly k Kshards vS t = (false, t)).
    { apply mergedQuietly_settled with (a := a2); [now rewrite Ht|].
      intros x Hx. rewrite Ho2 by discriminate. now apply Hs1. }
    rewrite H1. simpl.
    assert (H2 : mergedQuietly k Kmoney vM t = (false, t)).
    { apply mergedQuietly_settled with (a := a2); [now rewrite Ht|].
      exact Hm2. }
    now rewrite H2. }
  assert (Hform : scoreUpdated w k (Some item) s
                  = if fst r1 || fst r2 then emitted (snd r2) else snd r2).
  { unfold scoreUpdated. now rewrite Ea. }
  rewrite Hform. destruct (fst r1 || fst r2); apply Hfinal; reflexivity.
Qed.

Lemma scoreUpdated_trace w k item s :
  scoreUpdated w k item s = s
  \/ trace (scoreUpdated w k item s)
     = trace s ++ [Emit (map_values (accounts (scoreUpdated w k item s)))].
Proof.
  unfold scoreUpdated. destruct item as [item|]; [|now left].
  destruct (map_get k (accounts s)); [|now left]. cbv zeta.
  set (r1 := mergedQuietly k Kshards _ s).
  set (r2 := mergedQuietly k Kmoney _ (snd r1)).
  destruct (fst r1 || fst r2) eqn:E.
  - right. simpl. unfold r2, r1. now rewrite !mergedQuietly_trace.
  - left. apply orb_false_iff in E as [E1 E2]. unfold r2 in *.
    rewrite (mergedQuietly_false _ _ _ _ E2).
    unfold r1 in *. now rewrite (mergedQuietly_false _ _ _ _ E1).
Qed.

(** C3, as the code has it.  A value extracted from a text is written into
    the statistics of the account, with one emission of the new list, when
    it differs from the value stored under its key; when it equals it the
    state is left as it is.  Applying the same text a second time never
    changes the state, so the two applications emit once when the value
    differed from the one stored before the first, and never when it did
    not.  The same holds of a scoreboard entry handled twice by the
    'scoreUpdated' handler. *)
Theorem merge_idempotent w s k a :
  map_get k (accounts s) = Some a ->
  (forall rawText key v,
      ignored rawText = false ->
      extract w rawText = Some (key, v) ->
      let s1 := after w (UpdateStat k rawText) s in
      let s2 := after w (UpdateStat k rawText) s1 in
      (strictEq (stat key (accountData a)) v = true -> s1 = s)
      /\ (strictEq (stat key (accountData a)) v = false ->
          map_get k (accounts s1)
          = Some (with_accountData (set_stat key v (accountData a)) a)
          /\ trace s1 = trace s ++ [Emit (map_values (accounts s1))]
          /\ bots s1 = bots s /\ db s1 = db s)
      /\ s2 = s1
      /\ List.length (emissions (trace s2))
         = List.length (emissions (trace s))
           + (if strictEq (stat key (accountData a)) v then 0 else 1))
  /\ (forall item,
      let s1 := after w (ScoreUpdated k item) s in
      let s2 := after w (ScoreUpdated k item) s1 in
      s2 = s1
      /\ (s1 = s
          \/ trace s1 = trace s ++ [Emit (map_values (accounts s1))])).
Proof.
  intro Ha. split.
  - intros rawText key v Hi He s1 s2.
    assert (H1 : s1 = merged k key v s).
    { unfold s1, after. simpl. rewrite updateStat_eq. simpl.
      unfold statUpdated. now rewrite Hi, He. }
    assert (H2 : s2 = merged k key v s1).
    { unfold s2, after. simpl. rewrite updateStat_eq. simpl.
      unfold statUpdated. now rewrite Hi, He. }
    pose proof (@extract_nonNegative w rawText key v He) as Hv.
    clearbody s1 s2.
    destruct (strictEq (stat key (accountData a)) v) eqn:E.
    + assert (Hs1 : s1 = s)
        by (rewrite H1; now apply merged_settled with (a := a)).
      assert (Hs2 : s2 = s1)
        by (rewrite H2, Hs1; now apply merged_settled with (a := a)).
      repeat split; try discriminate; auto.
      rewrite Hs2, Hs1. lia.
    + assert (Hs1 : s1 = emitted (stored k (with_accountData
                                   (set_stat key v (accountData a)) a) s))
        by (rewrite H1; unfold merged; now rewrite Ha, E).
      assert (Hg : map_get k (accounts s1)
                   = Some (with_accountData (set_stat key v (accountData a)) a))
        by (rewrite Hs1; apply get_set_same).
      assert (Hs2 : s2 = s1).
      { rewrite H2. apply merged_settled with (1 := Hg). simpl.
        rewrite stat_set_same. now apply strictEq_refl. }
      repeat split; try discriminate; auto.
      * rewrite Hs1. reflexivity.
      * now rewrite Hs1.
      * now rewrite Hs1.
      * rewrite Hs2, Hs1. simpl. rewrite emissions_app, length_app.
        reflexivity.
  - intros item s1 s2.
    assert (H1 : s1 = scoreUpdated w k item s).
    { unfold s1, after. simpl. now rewrite onScoreUpdated_eq. }
    assert (H2 : s2 = scoreUpdated w k item s1).
    { unfold s2, after. simpl. now rewrite onScoreUpdated_eq. }
    clearbody s1 s2. subst s1 s2. split.
    + apply scoreUpdated_twice.
    + apply scoreUpdated_trace.
Qed.

Lemma merge_idempotent_witness :
  let s1 := after plainWorld (UpdateStat (str "a1") (str "Shards 1.22m"))
                  twoAccounts in
  let s2 := after plainWorld (UpdateStat (str "a1") (str "Shards 1.22m")) s1 in
  s2 = s1
  /\ List.length (emissions (trace s2))
     = List.length (emissions (trace twoAccounts)) + 1.
Proof.
  destruct (proj1 (@merge_idempotent plainWorld twoAccounts (str "a1")
                     (fresh (str "a1") (str "Steve") java) eq_refl)
                  (str "Shards 1.22m") Kshards (ofZ 1220000)
                  eq_refl eq_refl) as [_ [_ [H3 H4]]].
  split; [exact H3 | exact H4].
Defined.

(** The claim C3 as the specification words it fails when the value is the
    one already stored: a new account has 0 money, and "Money 0" applied
    twice emits nothing at all. *)
Lemma merge_of_stored_value_emits_nothing :
  extract plainWorld (str "Money 0") = Some (Kmoney, zero)
  /\ option_map (fun a => money (accountData a))
                (map_get (str "a1") (accounts twoAccounts)) = Some zero
  /\ emissions
       (trace (after plainWorld (UpdateStat (str "a1") (str "Money 0"))
                 (after plainWorld (UpdateStat (str "a1") (str "Money 0"))
                        twoAccounts)))
     = emissions (trace twoAccounts).
Proof. repeat split; reflexivity. Qed.

(** ** Label matching *)









Lemma findLabel_spec cl :
  findLabel cl
  = if includes cl (str "money") then Some (Kmoney, str "money")
    else if includes cl (str "shards") then Some (Kshards, str "shards")
    else None.
Proof.
  unfold findLabel, labels. simpl find.
  destruct (includes cl (str "money")); [reflexivity|].
  now destruct (includes cl (str "shards")).
Qed.

(** A text [updateStat] returns on at once has no label in it. *)
Lemma ignored_extract w rawText :
  ignored rawText = true -> extract w rawText = None.
Proof.
  unfold ignored. intro H. apply orb_true_iff in H as [H | H].
  - destruct rawText; [reflexivity | discriminate].
  - apply eqb_eq in H. subst. reflexivity.
Qed.

Lemma statUpdated_extract w k rawText s :
  statUpdated w k rawText s
  = match extract w rawText with
    | Some (key, v) => merged k key v s
    | None => s
    end.
Proof.
  unfold statUpdated. destruct (ignored rawText) eqn:E; [|reflexivity].
  now rewrite ignored_extract.
Qed.








(** * Further properties of the manager *)

(** ** Every call as a state transformer *)

Lemma run_eq w o s :
  run w o s
  = (match o with
     | AddAccount account =>
         if existsb (fun r => Js.eqb (row_id account) (row_id r)) (db s)
         then Throw (DuplicateId (row_id account)) else Return tt
     | ModalFormRequest _ data =>
         match formIndex w data with
         | inl err => Throw err
         | inr _ => Return tt
         end
     | _ => Return tt
     end, effectOf w o s).
Proof.
  destruct o; simpl;
    rewrite ?removeAccount_eq, ?connectBot_eq, ?disconnectBot_eq, ?log_eq,
            ?updateStat_eq, ?onSetScore_eq, ?onScoreUpdated_eq, ?onJoin_eq,
            ?onStop_eq; try reflexivity.
  - rewrite addAccount_eq. now destruct (existsb _ (db s)).
  - unfold bind. now rewrite onWindowOpen_eq.
  - unfold bind. rewrite onModalFormPacket_eq.
    now destruct (formIndex w data).
Qed.

Lemma after_eq w o s : after w o s = effectOf w o s.
Proof. unfold after. now rewrite run_eq. Qed.

Lemma scanButtons_texts w texts :
  scanButtons w (map Button_text texts) = inr (findIndex (isAfkButton w) texts).
Proof.
  induction texts as [|t texts IH]; simpl; [reflexivity|].
  destruct (isAfkButton w t); [reflexivity|]. now rewrite IH.
Qed.

Lemma scanButtons_throws w buttons err :
  scanButtons w buttons = inl err
  <-> exists texts m rest,
        buttons = map Button_text texts ++ Button_bad m :: rest
        /\ existsb (isAfkButton w) texts = false
        /\ err = TypeError m.
Proof.
  revert err. induction buttons as [|b buttons IH]; intro err; simpl.
  - split; [discriminate|]. intros (texts & m & rest & H & _).
    now destruct texts.
  - destruct b as [text|m0].
    + destruct (isAfkButton w text) eqn:Et.
      * split; [discriminate|]. intros (texts & m & rest & H & Hn & _).
        destruct texts as [|t texts]; [discriminate|].
        injection H as -> _. simpl in Hn. now rewrite Et in Hn.
      * destruct (scanButtons w buttons) as [e|i] eqn:Es.
        -- split.
           ++ intro H. injection H as <-.
              destruct (proj1 (IH e) eq_refl) as (texts & m & rest & -> & Hn & ->).
              exists (text :: texts), m, rest. simpl. now rewrite Et.
           ++ intros (texts & m & rest & H & Hn & ->).
              destruct texts as [|t texts]; [discriminate|].
              injection H as -> ->. simpl in Hn. rewrite Et in Hn.
              apply IH. now exists texts, m, rest.
        -- split; [discriminate|]. intros (texts & m & rest & H & Hn & ->).
           destruct texts as [|t texts]; [discriminate|].
           injection H as -> ->. simpl in Hn. rewrite Et in Hn.
           assert (Hc : @inr exn _ i = inl (TypeError m));
             [|discriminate].
           apply IH. now exists texts, m, rest.
    + split.
      * intro H. injection H as <-. now exists [], m0, buttons.
      * intros (texts & m & rest & H & _ & ->).
        destruct texts as [|t texts]; [|discriminate]. now injection H as ->.
Qed.

(** X1. Of the commands and the handlers, two can throw.  [addAccount]
    throws exactly when the table has a row with the id.  The
    'modal_form_request' handler throws exactly when the data of the packet
    are not JSON, hold no array of buttons, or hold a button without a text
    before any button that passes its test: it throws what [JSON.parse] or
    the access threw.  A call that throws leaves the manager as it was.
    [removeAccount], [connectBot], [disconnectBot], [log], [updateStat] and
    the 'set_score', 'scoreUpdated', 'login', 'spawn', 'error', 'end',
    'close' and 'windowOpen' handlers return, whatever the state and
    whatever id they are given; what an opener throws is caught. *)
Theorem calls_that_throw w o s :
  fst (run w o s)
  = match o with
    | AddAccount account =>
        if existsb (fun r => Js.eqb (row_id account) (row_id r)) (db s)
        then Throw (DuplicateId (row_id account))
        else Return tt
    | ModalFormRequest _ (Unparsable m) => Throw (SyntaxError m)
    | ModalFormRequest _ (NoButtons m) => Throw (TypeError m)
    | ModalFormRequest _ (Form buttons) =>
        match scanButtons w buttons with
        | inl err => Throw err
        | inr _ => Return tt
        end
    | _ => Return tt
    end
  /\ (forall err, fst (run w o s) = Throw err -> snd (run w o s) = s)
  /\ (forall buttons err,
        scanButtons w buttons = inl err
        <-> exists texts m rest,
              buttons = map Button_text texts ++ Button_bad m :: rest
              /\ existsb (isAfkButton w) texts = false
              /\ err = TypeError m)
  /\ (forall k texts,
        onModalFormPacket w k (Form (map Button_text texts)) s
        = onModalFormRequest w k texts s).
Proof.
  split; [|split; [|split]].
  - rewrite run_eq. simpl. destruct o; try reflexivity.
    destruct data as [m|m|buttons]; simpl; try reflexivity.
    now destruct (scanButtons w buttons) as [e|[i|]].
  - intros err. rewrite run_eq. simpl. destruct o; try discriminate.
    + simpl. now destruct (existsb _ (db s)).
    + simpl. now destruct (formIndex w data).
  - intros buttons err. apply scanButtons_throws.
  - intros k texts. rewrite onModalFormPacket_eq. unfold formIndex.
    rewrite scanButtons_texts. unfold onModalFormRequest, targetIdx, bind.
    rewrite log_eq. unfold clicking.
    now destruct (findIndex (isAfkButton w) texts).
Qed.

Lemma calls_that_throw_witness :
  fst (run plainWorld
           (ModalFormRequest (str "b2")
              (Form [Button_text (str "Back"); Button_bad (str "no text");
                     Button_text (str "Random AFK area")]))
           twoAccounts)
  = Throw (TypeError (str "no text"))
  /\ snd (run plainWorld
              (ModalFormRequest (str "b2")
                 (Form [Button_text (str "Back"); Button_bad (str "no text");
                        Button_text (str "Random AFK area")]))
              twoAccounts)
     = twoAccounts.
Proof.
  split.
  - exact (proj1 (calls_that_throw plainWorld
                    (ModalFormRequest (str "b2")
                       (Form [Button_text (str "Back");
                              Button_bad (str "no text");
                              Button_text (str "Random AFK area")]))
                    twoAccounts)).
  - apply (proj1 (proj2 (calls_that_throw plainWorld
                           (ModalFormRequest (str "b2")
                              (Form [Button_text (str "Back");
                                     Button_bad (str "no text");
                                     Button_text (str "Random AFK area")]))
                           twoAccounts))
                 (TypeError (str "no text"))).
    reflexivity.
Defined.

(** ** What a call may write *)

Lemma scoresSet_frame w k entries : forall s,
  bots (scoresSet w k entries s) = bots s
  /\ db (scoresSet w k entries s) = db s.
Proof.
  induction entries as [|e rest IH]; intro s; simpl; [auto|].
  destruct (IH (statUpdated w k e s)) as [-> ->].
  unfold statUpdated, merged. destruct (ignored e); [auto|].
  destruct (extract w e) as [[key v]|]; [|auto].
  destruct (map_get k (accounts s)); [|auto].
  destruct (strictEq _ _); auto.
Qed.

Lemma mergedQuietly_frame k key v s :
  bots (snd (mergedQuietly k key v s)) = bots s
  /\ db (snd (mergedQuietly k key v s)) = db s.
Proof.
  unfold mergedQuietly. destruct (map_get k (accounts s)); [|auto].
  destruct v; [|auto]. destruct (strictEq _ _); auto.
Qed.

(** X2. The table is written by [addAccount] and [removeAccount] only, and
    [bots] by [connectBot], [disconnectBot] and [removeAccount] only: no
    log, no statistic and no event of a connection changes either.  In
    particular the 'error', 'end' and 'close' handlers leave the connection
    object in [bots]. *)
Theorem writes_of_calls w o s :
  (writesTable o = false -> db (after w o s) = db s)
  /\ (writesBots o = false -> bots (after w o s) = bots s).
Proof.
  rewrite after_eq. split; intro H; destruct o; try discriminate; simpl.
  - unfold connected. destruct (map_get k (accounts s)) as [a|]; [|reflexivity].
    assert (Ho : db (opening w (type a) k (username a) (announced w k a s))
                 = db s).
    { unfold opening. cbv zeta. destruct (openerResult _ _ _); simpl;
        rewrite ?logged_db; simpl; unfold announced;
        now rewrite logged_db. }
    now destruct (status a).
  - unfold disconnected. destruct (map_get k (bots s)); [|reflexivity].
    simpl. now rewrite logged_db.
  - apply logged_db.
  - unfold statUpdated, merged. destruct (ignored rawText); [reflexivity|].
    destruct (extract w rawText) as [[key v]|]; [|reflexivity].
    destruct (map_get k (accounts s)); [|reflexivity].
    now destruct (strictEq _ _).
  - apply scoresSet_frame.
  - unfold scoreUpdated. destruct item; [|reflexivity].
    destruct (map_get k (accounts s)); [|reflexivity]. cbv zeta.
    destruct (_ || _); simpl;
      now rewrite (proj2 (mergedQuietly_frame _ _ _ _)),
                  (proj2 (mergedQuietly_frame _ _ _ _)).
  - unfold joined. destruct (map_get k (accounts s)); [|reflexivity].
    simpl. now rewrite logged_db.
  - unfold joined. destruct (map_get k (accounts s)); [|reflexivity].
    simpl. now rewrite logged_db.
  - unfold stopped. cbv zeta.
    destruct (map_get k (accounts (logged _ _ _ _))); simpl; apply logged_db.
  - unfold stopped. cbv zeta.
    destruct (map_get k (accounts (logged _ _ _ _))); simpl; apply logged_db.
  - unfold stopped. cbv zeta.
    destruct (map_get k (accounts (logged _ _ _ _))); simpl; apply logged_db.
  - unfold stopped. cbv zeta.
    destruct (map_get k (accounts (logged _ _ _ _))); simpl; apply logged_db.
  - apply logged_db.
  - destruct (formIndex w data); [reflexivity|]. apply logged_db.
  - destruct (existsb _ (db s)); reflexivity.
  - apply logged_bots.
  - unfold statUpdated, merged. destruct (ignored rawText); [reflexivity|].
    destruct (extract w rawText) as [[key v]|]; [|reflexivity].
    destruct (map_get k (accounts s)); [|reflexivity].
    now destruct (strictEq _ _).
  - apply scoresSet_frame.
  - unfold scoreUpdated. destruct item; [|reflexivity].
    destruct (map_get k (accounts s)); [|reflexivity]. cbv zeta.
    destruct (_ || _); simpl;
      now rewrite (proj1 (mergedQuietly_frame _ _ _ _)),
                  (proj1 (mergedQuietly_frame _ _ _ _)).
  - unfold joined. destruct (map_get k (accounts s)); [|reflexivity].
    simpl. now rewrite logged_bots.
  - unfold joined. destruct (map_get k (accounts s)); [|reflexivity].
    simpl. now rewrite logged_bots.
  - unfold stopped. cbv zeta.
    destruct (map_get k (accounts (logged _ _ _ _))); simpl; apply logged_bots.
  - unfold stopped. cbv zeta.
    destruct (map_get k (accounts (logged _ _ _ _))); simpl; apply logged_bots.
  - unfold stopped. cbv zeta.
    destruct (map_get k (accounts (logged _ _ _ _))); simpl; apply logged_bots.
  - unfold stopped. cbv zeta.
    destruct (map_get k (accounts (logged _ _ _ _))); simpl; apply logged_bots.
  - apply logged_bots.
  - destruct (formIndex w data); [reflexivity|]. apply logged_bots.
Qed.

(** ** The assignments of a call *)

Lemma updates_trans o a b c : updates o a b -> updates o b c -> updates o a c.
Proof.
  intros Hab Hbc. revert Hab.
  induction Hbc as [b|b c d Hbc IH Hcd]; intro Hab; [assumption|].
  eapply updates_more; [apply IH; exact Hab | exact Hcd].
Qed.

Lemma updates_one o a b : update o a b -> updates o a b.
Proof. intro H. eapply updates_more; [apply updates_none | exact H]. Qed.

Lemma changes_refl o k0 s : changes o k0 s s.
Proof.
  split; [reflexivity|].
  destruct (map_get k0 (accounts s)); [apply updates_none | exact I].
Qed.

Lemma changes_same o k0 s s' : accounts s' = accounts s -> changes o k0 s s'.
Proof. intro H. unfold changes. rewrite H. apply changes_refl. Qed.

Lemma changes_trans o k0 s1 s2 s3 :
  changes o k0 s1 s2 -> changes o k0 s2 s3 -> changes o k0 s1 s3.
Proof.
  intros [F1 H1] [F2 H2]. split.
  - intros k Hk. now rewrite F2, F1.
  - destruct (map_get k0 (accounts s1)), (map_get k0 (accounts s2)),
             (map_get k0 (accounts s3)); try tauto.
    eapply updates_trans; eassumption.
Qed.

Lemma changes_stored o k0 a a' s :
  map_get k0 (accounts s) = Some a -> update o a a' ->
  changes o k0 s (stored k0 a' s).
Proof.
  intros Ha Hu. split; simpl.
  - intros k Hk. now apply get_set_other.
  - rewrite Ha, get_set_same. now apply updates_one.
Qed.

Lemma changes_logged w o k0 msg s :
  writesLogs o = true -> changes o k0 s (logged w k0 msg s).
Proof.
  intro Hw. unfold logged.
  destruct (map_get k0 (accounts s)) as [a|] eqn:Ea; [|apply changes_refl].
  apply changes_trans with (s2 := set_clock (S (clock s)) s);
    [now apply changes_same|].
  eapply changes_trans; [|apply changes_same; reflexivity].
  apply changes_stored with (a := a); [exact Ea | now apply update_logs].
Qed.

Lemma changes_merged o k0 key v s :
  writesStats o = true -> key = Kmoney \/ key = Kshards -> nonNegative v ->
  changes o k0 s (merged k0 key v s).
Proof.
  intros Hw Hk Hv. unfold merged.
  destruct (map_get k0 (accounts s)) as [a|] eqn:Ea; [|apply changes_refl].
  destruct (strictEq _ _); [apply changes_refl|].
  eapply changes_trans; [|apply changes_same; reflexivity].
  apply changes_stored with (a := a); [exact Ea | now apply update_stat].
Qed.

Lemma extract_key w rawText key v :
  extract w rawText = Some (key, v) -> key = Kmoney \/ key = Kshards.
Proof.
  unfold extract. rewrite findLabel_spec.
  destruct (includes _ (str "money")).
  - destruct (matchNumber _) as [[n sf]|]; [|discriminate].
    intros [= <- _]. now left.
  - destruct (includes _ (str "shards")); [|discriminate].
    destruct (matchNumber _) as [[n sf]|]; [|discriminate].
    intros [= <- _]. now right.
Qed.

Lemma changes_statUpdated w o k0 rawText s :
  writesStats o = true -> changes o k0 s (statUpdated w k0 rawText s).
Proof.
  intro Hw. rewrite statUpdated_extract.
  destruct (extract w rawText) as [[key v]|] eqn:E; [|apply changes_refl].
  apply changes_merged; auto.
  - eapply extract_key; eassumption.
  - eapply extract_nonNegative; eassumption.
Qed.

Lemma changes_scoresSet w o k0 entries : forall s,
  writesStats o = true -> changes o k0 s (scoresSet w k0 entries s).
Proof.
  induction entries as [|e rest IH]; intros s Hw; simpl.
  - apply changes_refl.
  - eapply changes_trans; [now apply changes_statUpdated | now apply IH].
Qed.

Lemma changes_mergedQuietly o k0 key v s :
  writesStats o = true -> key = Kmoney \/ key = Kshards ->
  (forall x, v = Some x -> nonNegative x) ->
  changes o k0 s (snd (mergedQuietly k0 key v s)).
Proof.
  intros Hw Hk Hv. unfold mergedQuietly.
  destruct (map_get k0 (accounts s)) as [a|] eqn:Ea; [|apply changes_refl].
  destruct v as [x|]; [|apply changes_refl].
  destruct (strictEq _ _); [apply changes_refl|]. simpl.
  apply changes_stored with (a := a); [exact Ea|]. apply update_stat; auto.
Qed.

Lemma changes_scoreUpdated w o k0 item s :
  writesStats o = true -> changes o k0 s (scoreUpdated w k0 item s).
Proof.
  intro Hw. unfold scoreUpdated. destruct item as [item|]; [|apply changes_refl].
  destruct (map_get k0 (accounts s)); [|apply changes_refl]. cbv zeta.
  assert (H : changes o k0 s
                (snd (mergedQuietly k0 Kmoney
                        (scoreValue w (itemText item) (str "Money"))
                        (snd (mergedQuietly k0 Kshards
                                (scoreValue w (itemText item) (str "Shards"))
                                s))))).
  { eapply changes_trans; apply changes_mergedQuietly; auto;
      intros x Hx; eapply scoreValue_nonNegative; exact Hx. }
  destruct (_ || _); [|exact H].
  eapply changes_trans; [exact H | now apply changes_same].
Qed.

Lemma changes_joined w o k0 msg s :
  writesLogs o = true -> statusSet o = Some online ->
  changes o k0 s (joined w k0 msg s).
Proof.
  intros Hl Hs. unfold joined.
  destruct (map_get k0 (accounts s)) as [a|] eqn:Ea; [|apply changes_refl].
  eapply changes_trans; [|apply changes_same; reflexivity].
  eapply changes_trans; [|now apply changes_logged].
  apply changes_stored with (a := a); [exact Ea | now apply update_status].
Qed.

Lemma changes_stopped w o st k0 msg s :
  writesLogs o = true -> statusSet o = Some st ->
  changes o k0 s (stopped w st k0 msg s).
Proof.
  intros Hl Hs. unfold stopped. cbv zeta.
  set (s1 := logged w k0 msg s).
  set (s2 := match map_get k0 (accounts s1) with
             | Some a => stored k0 (with_status st a) s1
             | None => s1
             end).
  apply changes_trans with (s2 := s2); [|apply changes_same; reflexivity].
  apply changes_trans with (s2 := s1); [now apply changes_logged|].
  unfold s2. destruct (map_get k0 (accounts s1)) as [a|] eqn:Ea;
    [|apply changes_refl].
  apply changes_stored with (a := a); [exact Ea | now apply update_status].
Qed.

Lemma changes_disconnected w o k0 s :
  writesLogs o = true -> changes o k0 s (disconnected w k0 s).
Proof.
  intro Hl. unfold disconnected.
  destruct (map_get k0 (bots s)); [|apply changes_refl]. cbv zeta.
  eapply changes_trans; [now apply (changes_logged w o k0 DISCONNECTING s)|].
  now apply changes_same.
Qed.

Lemma changes_connected w o k0 s :
  writesLogs o = true -> statusSet o = Some connecting ->
  changes o k0 s (connected w k0 s).
Proof.
  intros Hl Hs. unfold connected.
  destruct (map_get k0 (accounts s)) as [a|] eqn:Ea; [|apply changes_refl].
  assert (H : changes o k0 s
                (opening w (type a) k0 (username a) (announced w k0 a s))).
  { apply changes_trans with (s2 := announced w k0 a s).
    - unfold announced.
      eapply changes_trans; [|now apply changes_logged].
      eapply changes_trans; [|apply changes_same; reflexivity].
      apply changes_stored with (a := a); [exact Ea | now apply update_status].
    - unfold opening. cbv zeta. destruct (openerResult _ _ _).
      + now apply changes_same.
      + eapply changes_trans; [|now apply changes_logged].
        now apply changes_same. }
  destruct (status a); try exact H. apply changes_refl.
Qed.

(** X3. A call touches no account but the one of its id.  To that one,
    every call but [addAccount] and [removeAccount] only makes assignments
    of its kind: a new log for the calls that log, the one status the call
    stands for (connecting for [connectBot], online for 'login' and 'spawn',
    error for 'error', offline for 'end' and 'close'), and for the calls
    that read statistics a number that is not NaN and not negative under
    the key money or shards.  An account appears only by [addAccount], as
    a fresh one, and disappears only by [removeAccount]. *)
Theorem account_evolution w o s :
  reachable s ->
  (forall k, k <> target o ->
     map_get k (accounts (after w o s)) = map_get k (accounts s))
  /\ match map_get (target o) (accounts s),
           map_get (target o) (accounts (after w o s)) with
     | Some a, Some a' => updates o a a'
     | None, None => True
     | Some _, None => exists k, o = RemoveAccount k
     | None, Some a' =>
         exists account,
           o = AddAccount account
           /\ a' = fresh (row_id account) (row_username account)
                         (row_type account)
     end.
Proof.
  intro Hr. apply reachable_Inv in Hr. rewrite after_eq.
  assert (Hsimple : forall s',
             changes o (target o) s s' ->
             (forall k, k <> target o ->
                map_get k (accounts s') = map_get k (accounts s))
             /\ match map_get (target o) (accounts s),
                      map_get (target o) (accounts s') with
                | Some a, Some a' => updates o a a'
                | None, None => True
                | Some _, None => exists k, o = RemoveAccount k
                | None, Some a' =>
                    exists account,
                      o = AddAccount account
                      /\ a' = fresh (row_id account) (row_username account)
                                    (row_type account)
                end).
  { intros s' [F H]. split; [exact F|].
    destruct (map_get (target o) (accounts s)),
             (map_get (target o) (accounts s')); tauto. }
  destruct o; simpl effectOf;
    try (apply Hsimple; simpl target;
         first [ now apply changes_connected
               | now apply changes_disconnected
               | now apply changes_logged
               | now apply changes_statUpdated
               | now apply changes_scoresSet
               | now apply changes_scoreUpdated
               | now apply changes_joined
               | now apply changes_stopped ]).
  - destruct (existsb _ (db s)) eqn:Ex; [apply Hsimple, changes_refl|].
    assert (Hn : map_get (row_id account) (accounts s) = None).
    { apply map_get_none. rewrite (inv_keys Hr). intro Hin.
      apply existsb_row_ids in Hin. congruence. }
    simpl. split.
    + intros k Hk. now apply get_set_other.
    + rewrite Hn, get_set_same. eauto.
  - simpl. unfold removed. cbv zeta. simpl. split.
    + intros k0 Hk. rewrite get_delete_other by assumption.
      destruct (changes_disconnected w (RemoveAccount k) k s eq_refl) as [F _].
      now apply F.
    + rewrite get_delete_same.
      destruct (map_get k (accounts s)); [eauto | exact I].
  - apply Hsimple. simpl target.
    destruct (formIndex w data); [apply changes_refl|].
    now apply changes_logged.
Qed.

Lemma account_evolution_witness :
  (forall k, k <> str "a1" ->
     map_get k (accounts (after plainWorld (Login (str "a1")) steveConnected))
     = map_get k (accounts steveConnected))
  /\ match map_get (str "a1") (accounts steveConnected),
           map_get (str "a1")
             (accounts (after plainWorld (Login (str "a1")) steveConnected))
     with
     | Some a, Some a' => updates (Login (str "a1")) a a'
     | None, None => True
     | Some _, None => exists k, Login (str "a1") = RemoveAccount k
     | None, Some a' =>
         exists account,
           Login (str "a1") = AddAccount account
           /\ a' = fresh (row_id account) (row_username account)
                         (row_type account)
     end.
Proof.
  apply (@account_evolution plainWorld (Login (str "a1")) steveConnected).
  unfold steveConnected, twoAccounts. do 3 apply reach_step.
  apply (reach_new []). constructor.
Defined.

(** ** The fields of an account from call to call *)

Lemma update_fields o a b :
  update o a b ->
  id b = id a /\ username b = username a /\ type b = type a
  /\ (status b = status a \/ statusSet o = Some (status b))
  /\ (logs b = logs a \/ writesLogs o = true)
  /\ (accountData b = accountData a \/ writesStats o = true)
  /\ (statsInOrder a -> statsInOrder b).
Proof.
  intros [a0 l Hl | a0 st Hst | a0 key v Hw Hk Hv]; simpl;
    (split; [reflexivity|]); (split; [reflexivity|]);
    (split; [reflexivity|]); (split; [auto|]); (split; [auto|]);
    (split; [auto|]); try (intro H; exact H).
  intros [H1 [H2 [H3 H4]]].
  unfold statsInOrder. destruct Hk as [-> | ->]; simpl; auto.
Qed.

Lemma updates_fields o a b :
  updates o a b ->
  id b = id a /\ username b = username a /\ type b = type a
  /\ (status b = status a \/ statusSet o = Some (status b))
  /\ (logs b = logs a \/ writesLogs o = true)
  /\ (accountData b = accountData a \/ writesStats o = true)
  /\ (statsInOrder a -> statsInOrder b).
Proof.
  induction 1 as [a | a b c Hab IH Hbc].
  - repeat (split; [first [reflexivity | now left] |]). auto.
  - destruct IH as [I1 [I2 [I3 [I4 [I5 [I6 I7]]]]]].
    destruct (update_fields Hbc) as [U1 [U2 [U3 [U4 [U5 [U6 U7]]]]]].
    split; [congruence|]. split; [congruence|]. split; [congruence|].
    split; [|split; [|split; [|auto]]].
    + destruct U4 as [U4 | U4]; [|now right].
      destruct I4 as [I4 | I4]; [left; congruence | right; congruence].
    + destruct U5 as [U5 | U5]; [|now right].
      destruct I5 as [I5 | I5]; [left; congruence | now right].
    + destruct U6 as [U6 | U6]; [|now right].
      destruct I6 as [I6 | I6]; [left; congruence | now right].
Qed.

(** X4. An account that is there before and after a call keeps its id,
    username and type.  Its status changes only under the call's own id and
    only to the status the call stands for, so it becomes online by 'login'
    or 'spawn' alone and never by [connectBot] itself; its log changes only
    by a call that logs, and its statistics only by a call that reads
    statistics. *)
Theorem field_changes w o s k a a' :
  reachable s ->
  map_get k (accounts s) = Some a ->
  map_get k (accounts (after w o s)) = Some a' ->
  id a' = id a /\ username a' = username a /\ type a' = type a
  /\ (status a' <> status a ->
      k = target o /\ statusSet o = Some (status a'))
  /\ (status a' = online -> status a <> online -> isJoin o = true)
  /\ (logs a' <> logs a -> k = target o /\ writesLogs o = true)
  /\ (accountData a' <> accountData a -> k = target o /\ writesStats o = true).
Proof.
  intros Hr Ha Ha'.
  destruct (account_evolution w o Hr) as [F H].
  destruct (list_eq_dec N.eq_dec k (target o)) as [-> | Hne].
  - rewrite Ha, Ha' in H.
    destruct (updates_fields H) as [U1 [U2 [U3 [U4 [U5 [U6 _]]]]]].
    repeat split; auto; try tauto.
    intros Hon Hoff. destruct U4 as [U4 | U4]; [congruence|].
    rewrite Hon in U4. destruct o; simpl in U4; try discriminate; reflexivity.
  - rewrite (F k Hne), Ha in Ha'. injection Ha' as <-.
    repeat split; auto; congruence.
Qed.

Lemma field_changes_witness :
  let a := fresh (str "a1") (str "Steve") java in
  let a' := with_logs [stamp plainWorld 0 (str "hello")] a in
  let o := Log (str "a1") (str "hello") in
  id a' = id a /\ username a' = username a /\ type a' = type a
  /\ (status a' <> status a ->
      str "a1" = target o /\ statusSet o = Some (status a'))
  /\ (status a' = online -> status a <> online -> isJoin o = true)
  /\ (logs a' <> logs a -> str "a1" = target o /\ writesLogs o = true)
  /\ (accountData a' <> accountData a ->
      str "a1" = target o /\ writesStats o = true).
Proof.
  apply (@field_changes plainWorld (Log (str "a1") (str "hello"))
           twoAccounts (str "a1")).
  - unfold twoAccounts. do 2 apply reach_step. apply (reach_new []).
    constructor.
  - reflexivity.
  - reflexivity.
Defined.

(** ** Statistics *)

Lemma loadAccounts_fold (P : jsstring * BotAccount -> Prop) rows : forall m,
  (forall r, P (ofRow r)) -> Forall P m ->
  Forall P (fold_left
              (fun m row =>
                 map_set (row_id row)
                   (fresh (row_id row) (row_username row) (row_type row)) m)
              rows m).
Proof.
  induction rows as [|r rows IH]; intros m Hp Hm; simpl; [exact Hm|].
  apply IH; [exact Hp|]. apply Forall_map_set; [exact Hm | apply (Hp r)].
Qed.

Lemma fresh_statsInOrder k user t : statsInOrder (fresh k user t).
Proof. repeat split. Qed.

(** X5. In every state the manager reaches, every account has kills and
    deaths at zero, which no call ever writes, and money and shards at
    numbers that are not NaN and not negative. *)
Theorem stats_in_order s k a :
  reachable s -> map_get k (accounts s) = Some a -> statsInOrder a.
Proof.
  intro Hr. revert k a. induction Hr as [rows Hnd | w o s Hr IH]; intros k a Ha.
  - apply map_get_in in Ha.
    assert (H : Forall (fun kv => statsInOrder (snd kv))
                       (accounts (newBotManager rows))).
    { apply loadAccounts_fold; [|constructor].
      intro r. apply fresh_statsInOrder. }
    rewrite Forall_forall in H. exact (H _ Ha).
  - destruct (account_evolution w o Hr) as [F H].
    destruct (list_eq_dec N.eq_dec k (target o)) as [-> | Hne].
    + rewrite Ha in H.
      destruct (map_get (target o) (accounts s)) as [a0|] eqn:E0.
      * apply (updates_fields H). eapply IH; eassumption.
      * destruct H as [account [_ ->]]. apply fresh_statsInOrder.
    + rewrite (F k Hne) in Ha. eapply IH; eassumption.
Qed.

Lemma stats_in_order_witness :
  statsInOrder
    (with_accountData
       (set_stat Kshards (ofZ 1220000)
                 (accountData (fresh (str "a1") (str "Steve") java)))
       (fresh (str "a1") (str "Steve") java)).
Proof.
  apply (@stats_in_order
           (after plainWorld (UpdateStat (str "a1") (str "Shards 1.22m"))
                  twoAccounts) (str "a1")).
  - unfold twoAccounts. do 3 apply reach_step. apply (reach_new []).
    constructor.
  - reflexivity.
Defined.

(** ** Accounts and the table *)

Lemma in_map_get (V : Type) (m : list (jsstring * V)) k v :
  NoDup (keys m) -> In (k, v) m -> map_get k m = Some v.
Proof.
  induction m as [|[k0 v0] m IH]; simpl; intros Hnd Hin; [contradiction|].
  inversion Hnd as [|? ? Hn Hnd']; subst.
  destruct Hin as [[= -> ->] | Hin].
  - now rewrite eqb_refl.
  - destruct (Js.eqb k k0) eqn:E.
    + apply eqb_eq in E. subst. exfalso. apply Hn.
      change k0 with (fst (k0, v)). now apply in_map.
    + now apply IH.
Qed.

Lemma NoDup_snoc (A : Type) (l : list A) x :
  NoDup l -> ~ In x l -> NoDup (l ++ [x]).
Proof.
  induction 1 as [|y l Hy Hl IH]; intro Hx; simpl.
  - constructor; [tauto | constructor].
  - constructor.
    + rewrite in_app_iff. simpl. intros [H | [H | []]]; [tauto|].
      subst. apply Hx. now left.
    + apply IH. intro H. apply Hx. now right.
Qed.

Lemma NoDup_row_ids_filter k rows :
  NoDup (row_ids rows) ->
  NoDup (row_ids (filter (fun r => negb (Js.eqb k (row_id r))) rows)).
Proof. intro H. rewrite row_ids_filter. now apply NoDup_filter. Qed.

Lemma disconnected_db w k s : db (disconnected w k s) = db s.
Proof.
  unfold disconnected. destruct (map_get k (bots s)); [|reflexivity].
  simpl. apply logged_db.
Qed.

(** Key by key: the rows have distinct ids and every account has its
    row. *)
Lemma reachable_rows s :
  reachable s ->
  NoDup (row_ids (db s))
  /\ forall k a, map_get k (accounts s) = Some a ->
       exists r, In r (db s) /\ row_id r = k /\ mirrors a r.
Proof.
  induction 1 as [rows Hnd | w o s Hr [IHn IH]].
  - split; [exact Hnd|]. intros k a Ha. apply map_get_in in Ha.
    assert (H : Forall (fun kv => exists r, In r rows /\ row_id r = fst kv
                                            /\ mirrors (snd kv) r)
                       (accounts (newBotManager rows))).
    { unfold newBotManager, loadAccounts. simpl.
      assert (G : forall rows0 m,
                 incl rows0 rows ->
                 Forall (fun kv => exists r, In r rows /\ row_id r = fst kv
                                             /\ mirrors (snd kv) r) m ->
                 Forall (fun kv => exists r, In r rows /\ row_id r = fst kv
                                             /\ mirrors (snd kv) r)
                   (fold_left
                      (fun m row =>
                         map_set (row_id row)
                           (fresh (row_id row) (row_username row)
                                  (row_type row)) m) rows0 m)).
      { induction rows0 as [|r rows0 IH0]; intros m Hi Hm; simpl; [exact Hm|].
        apply IH0.
        - intros x Hx. apply Hi. now right.
        - apply Forall_map_set; [exact Hm|]. exists r. simpl.
          split; [apply Hi; now left|]. repeat split. }
      apply G; [apply incl_refl | constructor]. }
    rewrite Forall_forall in H. exact (H _ Ha).
  - pose proof (reachable_Inv Hr) as Hinv.
    assert (Hkeep : forall k a',
               map_get k (accounts (after w o s)) = Some a' ->
               (exists a, map_get k (accounts s) = Some a
                          /\ id a' = id a /\ username a' = username a
                          /\ type a' = type a)
               \/ (exists account, o = AddAccount account
                                   /\ k = row_id account
                                   /\ map_get k (accounts s) = None
                                   /\ a' = snd (ofRow account))).
    { intros k a' Ha'. destruct (account_evolution w o Hr) as [F H].
      destruct (list_eq_dec N.eq_dec k (target o)) as [-> | Hne].
      - rewrite Ha' in H.
        destruct (map_get (target o) (accounts s)) as [a0|] eqn:E0.
        + left. exists a0. split; [reflexivity|].
          destruct (updates_fields H) as [U1 [U2 [U3 _]]]. auto.
        + right. destruct H as [account [-> ->]]. exists account. auto.
      - rewrite (F k Hne) in Ha'. left. exists a'. auto. }
    destruct (writesTable o) eqn:Ew.
    + destruct o; try discriminate; rewrite after_eq in *; simpl effectOf in *.
      * destruct (existsb _ (db s)) eqn:Ex; [now split|].
        simpl. split.
        -- unfold row_ids. rewrite map_app. simpl.
           apply NoDup_snoc; [exact IHn|]. intro Hin.
           apply existsb_row_ids in Hin. congruence.
        -- intros k a' Ha'. destruct (Hkeep k a' Ha') as
             [[a [Ha [E1 [E2 E3]]]] | [acc [Eo [-> [Hn ->]]]]].
           ++ destruct (IH k a Ha) as [r [Hin [Hid [M1 [M2 M3]]]]].
              exists r. split; [apply in_app_iff; now left|].
              split; [exact Hid|]. unfold mirrors. repeat split; congruence.
           ++ injection Eo as <-. exists account.
              split; [apply in_app_iff; right; now left|].
              repeat split.
      * simpl. rewrite disconnected_db. split.
        -- now apply NoDup_row_ids_filter.
        -- intros k0 a' Ha'. destruct (Hkeep k0 a' Ha') as
             [[a [Ha [E1 [E2 E3]]]] | [acc [Eo _]]]; [|discriminate].
           destruct (IH k0 a Ha) as [r [Hin [Hid [M1 [M2 M3]]]]].
           exists r. split.
           ++ apply filter_In. split; [exact Hin|].
              apply negb_true_iff, eqb_neq. intros ->.
              simpl in Ha'. rewrite Hid, get_delete_same in Ha'. discriminate.
           ++ split; [exact Hid|]. unfold mirrors. repeat split; congruence.
    + rewrite (proj1 (writes_of_calls w o s) Ew). split; [exact IHn|].
      intros k a' Ha'. destruct (Hkeep k a' Ha') as
        [[a [Ha [E1 [E2 E3]]]] | [acc [-> _]]]; [|discriminate].
      destruct (IH k a Ha) as [r [Hin [Hid [M1 [M2 M3]]]]].
      exists r. split; [exact Hin|]. split; [exact Hid|].
      unfold mirrors. repeat split; congruence.
Qed.

Lemma rows_in_place (m : list (jsstring * BotAccount)) : forall rows,
  keys m = row_ids rows ->
  NoDup (row_ids rows) ->
  (forall k a, map_get k m = Some a ->
     exists r, In r rows /\ row_id r = k /\ mirrors a r) ->
  Forall2 (fun kv r => fst kv = row_id r /\ mirrors (snd kv) r) m rows.
Proof.
  induction m as [|[k a] m IH]; intros [|r0 rows] Hk Hnd H;
    try discriminate; [constructor|].
  simpl in Hk. injection Hk as Hk0 Hk.
  inversion Hnd as [|? ? Hn Hnd']; subst.
  constructor.
  - simpl. split; [reflexivity|].
    destruct (H (row_id r0) a) as [r [Hin [Hid Hm]]].
    + simpl. now rewrite eqb_refl.
    + destruct Hin as [<- | Hin]; [exact Hm|].
      exfalso. apply Hn. rewrite <- Hid. now apply in_map.
  - apply IH; [exact Hk | exact Hnd' |].
    intros k' a' Ha'.
    assert (Hne : k' <> row_id r0).
    { intros ->. apply Hn. rewrite <- Hk. eapply map_get_some; eassumption. }
    destruct (H k' a') as [r [Hin [Hid Hm]]].
    + simpl. apply eqb_neq in Hne. now rewrite Hne.
    + exists r. split; [|auto].
      destruct Hin as [<- | Hin]; [congruence | exact Hin].
Qed.

Lemma reachable_in_place s :
  reachable s ->
  Forall2 (fun kv r => fst kv = row_id r /\ mirrors (snd kv) r)
          (accounts s) (db s).
Proof.
  intro Hr. destruct (reachable_rows Hr) as [Hnd H].
  apply rows_in_place; auto. apply (inv_keys (reachable_Inv Hr)).
Qed.

(** X6. In every state the manager reaches, the list [getAccounts] returns
    has pairwise distinct ids; every account is stored under its own id;
    and the accounts are, one for one and in the same order, the rows of
    the table, with the id, the username and the type of their row. *)
Theorem accounts_mirror_table s :
  reachable s ->
  NoDup (map id (map_values (accounts s)))
  /\ (forall a, In a (map_values (accounts s)) ->
        map_get (id a) (accounts s) = Some a)
  /\ Forall2 mirrors (map_values (accounts s)) (db s).
Proof.
  intro Hr. pose proof (reachable_in_place Hr) as Hf.
  destruct (reachable_rows Hr) as [Hnd _].
  pose proof (inv_keys (reachable_Inv Hr)) as Hk.
  assert (Hid : map id (map_values (accounts s)) = keys (accounts s)).
  { clear Hk Hnd. unfold map_values, keys.
    induction Hf as [|[k a] r m rows [H1 [H2 _]] Hf IH]; [reflexivity|].
    simpl in *. rewrite IH. f_equal. congruence. }
  split; [rewrite Hid, Hk; exact Hnd|]. split.
  - intros a Ha. unfold map_values in Ha. apply in_map_iff in Ha
      as [[k a0] [<- Hin]]. simpl.
    assert (Hka : id a0 = k).
    { clear Hid Hk Hnd.
      induction Hf as [|[k1 a1] r m rows [H1 [H2 _]] Hf IH]; [contradiction|].
      destruct Hin as [[= -> ->] | Hin]; [simpl in *; congruence | auto]. }
    rewrite Hka. apply in_map_get; [rewrite Hk; exact Hnd | exact Hin].
  - clear Hid Hk Hnd. unfold map_values.
    induction Hf as [|[k a] r m rows [_ Hm] Hf IH]; constructor; auto.
Qed.

Lemma accounts_mirror_table_witness :
  NoDup (map id (map_values (accounts steveConnected)))
  /\ (forall a, In a (map_values (accounts steveConnected)) ->
        map_get (id a) (accounts steveConnected) = Some a)
  /\ Forall2 mirrors (map_values (accounts steveConnected))
             (db steveConnected).
Proof.
  apply accounts_mirror_table.
  unfold steveConnected, twoAccounts. do 3 apply reach_step.
  apply (reach_new []). constructor.
Defined.

Lemma loadAccounts_rows rows : forall m,
  NoDup (keys m ++ row_ids rows) ->
  fold_left
    (fun m row =>
       map_set (row_id row)
         (fresh (row_id row) (row_username row) (row_type row)) m)
    rows m
  = m ++ map ofRow rows.
Proof.
  induction rows as [|r rows IH]; intros m Hnd; simpl.
  - now rewrite app_nil_r.
  - assert (Hn : ~ In (row_id r) (keys m)).
    { intro Hin. apply NoDup_remove_2 in Hnd. apply Hnd.
      apply in_app_iff. now left. }
    rewrite IH.
    + rewrite map_set_absent by now apply map_get_none.
      now rewrite <- app_assoc.
    + rewrite keys_set_absent by assumption. now rewrite <- app_assoc.
Qed.

(** X7. A restart keeps the identities and nothing else.  The manager
    built on the table a reachable state leaves behind has the same
    accounts in the same order, each with its id, username and type and
    with status offline, an empty log and all statistics zero; it has no
    connection, and it is itself a state the manager reaches. *)
Theorem restart_keeps_identity s :
  reachable s ->
  accounts (newBotManager (db s)) = map restarted (accounts s)
  /\ bots (newBotManager (db s)) = []
  /\ db (newBotManager (db s)) = db s
  /\ reachable (newBotManager (db s)).
Proof.
  intro Hr. destruct (reachable_rows Hr) as [Hnd _].
  pose proof (reachable_in_place Hr) as Hf.
  repeat split.
  - unfold newBotManager, loadAccounts. simpl.
    rewrite (@loadAccounts_rows (db s) []) by exact Hnd. simpl.
    clear Hnd. induction Hf as [|[k a] r m rows [H1 [H2 [H3 H4]]] Hf IH];
      [reflexivity|].
    simpl in *. rewrite IH. f_equal. unfold ofRow, restarted. simpl.
    congruence.
  - now apply reach_new.
Qed.

Lemma restart_keeps_identity_witness :
  accounts (newBotManager (db steveConnected))
  = map restarted (accounts steveConnected)
  /\ bots (newBotManager (db steveConnected)) = []
  /\ db (newBotManager (db steveConnected)) = db steveConnected
  /\ reachable (newBotManager (db steveConnected)).
Proof.
  apply restart_keeps_identity.
  unfold steveConnected, twoAccounts. do 3 apply reach_step.
  apply (reach_new []). constructor.
Defined.

(** ** Adding and removing *)

Lemma map_delete_set (V : Type) k (v : V) m :
  map_delete k (map_set k v m) = map_delete k m.
Proof.
  induction m as [|[k0 v0] m IH]; simpl.
  - now rewrite eqb_refl.
  - destruct (Js.eqb k k0) eqn:E; simpl.
    + now rewrite eqb_refl.
    + now rewrite E, IH.
Qed.

Lemma absent_no_bot s k :
  Inv s -> map_get k (accounts s) = None -> map_get k (bots s) = None.
Proof.
  intros Hinv Hn. apply map_get_none. intro Hin.
  apply map_get_none in Hn. apply Hn. now apply (inv_bots Hinv).
Qed.

(** X8. Adding an account under a new id and removing it again gives back
    the account map, the table and the connections of before; the two calls
    leave two 'update' events in the trace, the list with the new account
    and the list without it. *)
Theorem add_then_remove w account s :
  reachable s ->
  map_get (row_id account) (accounts s) = None ->
  after w (RemoveAccount (row_id account)) (after w (AddAccount account) s)
  = {| bots := bots s; accounts := accounts s; db := db s;
       trace := trace s
                ++ [Emit (map_values (accounts s)
                          ++ [fresh (row_id account) (row_username account)
                                    (row_type account)]);
                    Emit (map_values (accounts s))];
       clock := clock s |}.
Proof.
  intros Hr Hn. pose proof (reachable_Inv Hr) as Hinv.
  pose proof (@absent_no_bot s _ Hinv Hn) as Hb.
  pose proof Hn as Hk. apply map_get_none in Hk.
  assert (Hd : ~ In (row_id account) (row_ids (db s)))
    by (rewrite <- (inv_keys Hinv); exact Hk).
  rewrite !after_eq. simpl effectOf at 2.
  destruct (existsb _ (db s)) eqn:Ex;
    [apply existsb_row_ids in Ex; contradiction|].
  simpl. unfold removed, disconnected. simpl. rewrite Hb. cbv zeta.
  unfold emitted, performed, set_trace, set_accounts, set_db. simpl.
  rewrite map_delete_set, map_delete_absent by exact Hk.
  rewrite filter_app, filter_rows_absent by exact Hd. simpl.
  rewrite eqb_refl. simpl. rewrite app_nil_r.
  rewrite map_set_absent by exact Hn.
  now rewrite map_values_app, <- app_assoc.
Qed.

Lemma add_then_remove_witness :
  after plainWorld (RemoveAccount (row_id alex))
        (after plainWorld (AddAccount alex)
               (after plainWorld (AddAccount steve) (newBotManager [])))
  = {| bots := bots (after plainWorld (AddAccount steve) (newBotManager []));
       accounts :=
         accounts (after plainWorld (AddAccount steve) (newBotManager []));
       db := db (after plainWorld (AddAccount steve) (newBotManager []));
       trace :=
         trace (after plainWorld (AddAccount steve) (newBotManager []))
         ++ [Emit (map_values
                     (accounts (after plainWorld (AddAccount steve)
                                      (newBotManager [])))
                   ++ [fresh (row_id alex) (row_username alex)
                             (row_type alex)]);
             Emit (map_values
                     (accounts (after plainWorld (AddAccount steve)
                                      (newBotManager []))))];
       clock := clock (after plainWorld (AddAccount steve)
                             (newBotManager [])) |}.
Proof.
  apply add_then_remove.
  - apply reach_step. apply (reach_new []). constructor.
  - reflexivity.
Defined.

Lemma removed_keys w k s :
  keys (accounts (after w (RemoveAccount k) s))
  = filter (fun k' => negb (Js.eqb k k')) (keys (accounts s)).
Proof.
  rewrite after_eq. simpl. rewrite keys_delete. f_equal.
  unfold disconnected. destruct (map_get k (bots s)); [|reflexivity].
  simpl. apply logged_keys.
Qed.

Lemma reachable_ids s :
  reachable s -> map id (map_values (accounts s)) = keys (accounts s).
Proof.
  intro Hr. pose proof (reachable_in_place Hr) as Hf.
  unfold map_values, keys.
  induction Hf as [|[k a] r m rows [H1 [H2 _]] Hf IH]; [reflexivity|].
  simpl in *. rewrite IH. f_equal. congruence.
Qed.

Lemma removeEach_keys w l : forall s,
  keys (accounts (removeEach w l s))
  = filter (fun k => negb (existsb (fun acc => Js.eqb (id acc) k) l))
           (keys (accounts s)).
Proof.
  induction l as [|acc l IH]; intro s; simpl.
  - induction (keys (accounts s)) as [|k ks IHk]; simpl; congruence.
  - rewrite IH, removed_keys.
    induction (keys (accounts s)) as [|k ks IHk]; simpl; [reflexivity|].
    destruct (Js.eqb (id acc) k); simpl; [exact IHk|].
    destruct (existsb _ l); simpl; [exact IHk | now rewrite IHk].
Qed.

Lemma removeEach_reachable w l : forall s,
  reachable s -> reachable (removeEach w l s).
Proof.
  induction l as [|acc l IH]; intros s Hr; simpl; [exact Hr|].
  apply IH. now apply reach_step.
Qed.

(** X9. Calling [removeAccount] for every account of the list
    [getAccounts] returns, as the set-up of the tests does, leaves a manager
    without accounts, without rows and without connections. *)
Theorem removeEach_empties w s :
  reachable s ->
  accounts (removeEach w (map_values (accounts s)) s) = []
  /\ db (removeEach w (map_values (accounts s)) s) = []
  /\ bots (removeEach w (map_values (accounts s)) s) = [].
Proof.
  intro Hr. set (s' := removeEach w (map_values (accounts s)) s).
  assert (Hk : keys (accounts s') = []).
  { unfold s'. rewrite removeEach_keys.
    assert (H : forall k, In k (keys (accounts s)) ->
                existsb (fun acc => Js.eqb (id acc) k)
                        (map_values (accounts s)) = true).
    { intros k Hin. rewrite <- (reachable_ids Hr) in Hin.
      apply in_map_iff in Hin as [acc [<- Hin]].
      apply existsb_exists. exists acc. split; [exact Hin | apply eqb_refl]. }
    induction (keys (accounts s)) as [|k ks IH]; [reflexivity|].
    simpl. rewrite (H k) by now left. simpl. apply IH.
    intros k' Hin'. apply H. now right. }
  pose proof (reachable_Inv
                (@removeEach_reachable w (map_values (accounts s)) s Hr))
    as Hinv.
  fold s' in Hinv. destruct Hinv as [H1 H2 _]. rewrite Hk in H1, H2.
  split; [|split].
  - destruct (accounts s'); [reflexivity | discriminate].
  - destruct (db s'); [reflexivity | discriminate].
  - destruct (bots s') as [|[k b] l]; [reflexivity|].
    exfalso. apply (H2 k). now left.
Qed.

Lemma removeEach_empties_witness :
  accounts (removeEach plainWorld (map_values (accounts steveConnected))
                       steveConnected) = []
  /\ db (removeEach plainWorld (map_values (accounts steveConnected))
                    steveConnected) = []
  /\ bots (removeEach plainWorld (map_values (accounts steveConnected))
                      steveConnected) = [].
Proof.
  apply removeEach_empties.
  unfold steveConnected, twoAccounts. do 3 apply reach_step.
  apply (reach_new []). constructor.
Defined.

(** X10. Whatever the state, [removeAccount] leaves nothing of the id
    behind: no account, no connection and no row; the connection there
    was has been told to quit or to close; and the accounts, the
    connections and the rows of the other ids are what they were. *)
Theorem removeAccount_complete w k s :
  let s' := after w (RemoveAccount k) s in
  map_get k (accounts s') = None
  /\ map_get k (bots s') = None
  /\ ~ In k (row_ids (db s'))
  /\ (forall bot, map_get k (bots s) = Some bot ->
        In (Quit bot) (trace s') \/ In (Close bot) (trace s'))
  /\ (forall k', k' <> k ->
        map_get k' (accounts s') = map_get k' (accounts s)
        /\ map_get k' (bots s') = map_get k' (bots s))
  /\ (forall r, row_id r <> k -> (In r (db s') <-> In r (db s))).
Proof.
  intro s'. unfold s'. rewrite after_eq. simpl effectOf. unfold removed.
  cbv zeta. simpl. rewrite disconnected_db.
  repeat match goal with |- _ /\ _ => split end.
  - apply get_delete_same.
  - apply map_get_none, disconnected_no_bot.
  - rewrite row_ids_filter. intro Hin. apply filter_In in Hin as [_ Hin].
    now rewrite eqb_refl in Hin.
  - intros bot Hb. unfold disconnected. rewrite Hb. cbv zeta. simpl.
    unfold closing.
    destruct (option_map type _) as [[|]|];
      [left | right | right]; apply in_app_iff; left; apply in_app_iff;
      right; now left.
  - intros k' Hne. rewrite get_delete_other by assumption. split.
    + unfold disconnected. destruct (map_get k (bots s)); [|reflexivity].
      simpl. now apply logged_get_other.
    + unfold disconnected. destruct (map_get k (bots s)); [|reflexivity].
      simpl. rewrite logged_bots. now apply get_delete_other.
  - intros r Hne. rewrite filter_In, negb_true_iff, eqb_neq.
    split; [tauto|]. intro Hin. split; [exact Hin|]. congruence.
Qed.

(** X11. In a state the manager reaches, a call about an id that has no
    account changes nothing: [connectBot], [disconnectBot], [log], the
    statistic readers and the 'login', 'spawn', 'windowOpen' and
    'modal_form_request' handlers leave the state as it was.  [removeAccount] and the 'error', 'end' and 'close'
    handlers do the same but for the one 'update' they emit without
    looking, with the unchanged list; [addAccount] adds the account. *)
Theorem missing_account w o s :
  reachable s ->
  map_get (target o) (accounts s) = None ->
  after w o s
  = match o with
    | AddAccount account => added account s
    | RemoveAccount _ | JavaError _ _ | BedrockError _ _ | End _ _
    | Closed _ => emitted s
    | _ => s
    end.
Proof.
  intros Hr Hn. pose proof (reachable_Inv Hr) as Hinv.
  pose proof (@absent_no_bot s _ Hinv Hn) as Hb.
  rewrite after_eq. destruct o; simpl in *.
  - destruct (existsb _ (db s)) eqn:Ex; [|reflexivity].
    apply existsb_row_ids in Ex. rewrite <- (inv_keys Hinv) in Ex.
    apply map_get_none in Hn. contradiction.
  - unfold removed, disconnected. rewrite Hb. cbv zeta. simpl.
    apply map_get_none in Hn.
    rewrite filter_rows_absent by (rewrite <- (inv_keys Hinv); exact Hn).
    rewrite map_delete_absent by exact Hn. now destruct s.
  - unfold connected. now rewrite Hn.
  - unfold disconnected. now rewrite Hb.
  - now apply logged_absent.
  - unfold statUpdated, merged. destruct (ignored rawText); [reflexivity|].
    destruct (extract w rawText) as [[key v]|]; [|reflexivity].
    now rewrite Hn.
  - induction entries as [|e rest IH]; [reflexivity|]. simpl.
    assert (He : statUpdated w k e s = s).
    { unfold statUpdated, merged. destruct (ignored e); [reflexivity|].
      destruct (extract w e) as [[key v]|]; [|reflexivity]. now rewrite Hn. }
    rewrite He. exact IH.
  - unfold scoreUpdated. destruct item; [|reflexivity]. now rewrite Hn.
  - unfold joined. now rewrite Hn.
  - unfold joined. now rewrite Hn.
  - unfold stopped. cbv zeta. rewrite logged_absent by exact Hn.
    now rewrite Hn.
  - unfold stopped. cbv zeta. rewrite logged_absent by exact Hn.
    now rewrite Hn.
  - unfold stopped. cbv zeta. rewrite logged_absent by exact Hn.
    now rewrite Hn.
  - unfold stopped. cbv zeta. rewrite logged_absent by exact Hn.
    now rewrite Hn.
  - now apply logged_absent.
  - destruct (formIndex w data); [reflexivity|]. now apply logged_absent.
Qed.

Lemma missing_account_witness :
  after plainWorld (End (str "zz") (str "timeout")) twoAccounts
  = emitted twoAccounts.
Proof.
  apply (@missing_account plainWorld (End (str "zz") (str "timeout"))
           twoAccounts).
  - unfold twoAccounts. do 2 apply reach_step. apply (reach_new []).
    constructor.
  - reflexivity.
Defined.

(** ** What observers hold *)

Lemma current_emitted s : current (emitted s).
Proof.
  exists (emissions (trace s)). unfold emitted, performed. simpl.
  now rewrite emissions_app.
Qed.

Lemma current_quiet s s' :
  current s -> accounts s' = accounts s ->
  emissions (trace s') = emissions (trace s) -> current s'.
Proof. intros [pre H] Ha He. exists pre. now rewrite He, Ha. Qed.

Lemma logged_current w k msg s a :
  map_get k (accounts s) = Some a -> current (logged w k msg s).
Proof. intro H. unfold logged. rewrite H. apply current_emitted. Qed.

Lemma emissions_quiet t e :
  match e with Emit _ => False | _ => True end ->
  emissions (t ++ [e]) = emissions t.
Proof.
  intro H. rewrite emissions_app. destruct e; try contradiction;
    simpl; apply app_nil_r.
Qed.

Lemma quiet_or_current_trans s1 s2 s3 :
  (accounts s2 = accounts s1 /\ emissions (trace s2) = emissions (trace s1))
  \/ current s2 ->
  (accounts s3 = accounts s2 /\ emissions (trace s3) = emissions (trace s2))
  \/ current s3 ->
  (accounts s3 = accounts s1 /\ emissions (trace s3) = emissions (trace s1))
  \/ current s3.
Proof.
  intros [[A1 E1] | C1] [[A2 E2] | C2]; auto.
  - left. split; congruence.
  - right. now apply current_quiet with (s := s2).
Qed.

Lemma statUpdated_quiet_or_current w k rawText s :
  (accounts (statUpdated w k rawText s) = accounts s
   /\ emissions (trace (statUpdated w k rawText s)) = emissions (trace s))
  \/ current (statUpdated w k rawText s).
Proof.
  unfold statUpdated, merged. destruct (ignored rawText); [now left|].
  destruct (extract w rawText) as [[key v]|]; [|now left].
  destruct (map_get k (accounts s)); [|now left].
  destruct (strictEq _ _); [now left|]. right. apply current_emitted.
Qed.

Lemma call_quiet_or_current w o s :
  (accounts (after w o s) = accounts s
   /\ emissions (trace (after w o s)) = emissions (trace s))
  \/ current (after w o s).
Proof.
  rewrite after_eq. destruct o; simpl effectOf.
  - destruct (existsb _ (db s)); [now left|]. right. apply current_emitted.
  - right. apply current_emitted.
  - unfold connected.
    destruct (map_get k (accounts s)) as [a|] eqn:Ea; [|now left].
    assert (Ha : map_get k (accounts (announced w k a s))
                 = Some (with_logs
                           (pushShift (logs a)
                              (stamp w (clock s) (CONNECTING w (type a))))
                           (with_status connecting a))).
    { unfold announced, logged. simpl. rewrite get_set_same. simpl.
      apply get_set_same. }
    assert (Hc : current (announced w k a s)).
    { unfold announced. eapply logged_current. simpl. apply get_set_same. }
    assert (H : current (opening w (type a) k (username a)
                                 (announced w k a s))).
    { unfold opening. cbv zeta. destruct (openerResult _ _ _).
      - apply current_quiet with (s := announced w k a s);
          [exact Hc | reflexivity |].
        simpl. apply emissions_quiet. now destruct (type a).
      - eapply logged_current. simpl. exact Ha. }
    destruct (status a); auto.
  - unfold disconnected. destruct (map_get k (bots s)) as [bot|]; [|now left].
    cbv zeta.
    assert (Hq : forall s1,
               accounts (set_bots
                           (map_delete k
                              (bots (performed
                                       (closing (map_get k (accounts s1)) bot)
                                       s1)))
                           (performed (closing (map_get k (accounts s1)) bot)
                                      s1))
               = accounts s1
               /\ emissions
                    (trace (set_bots
                              (map_delete k
                                 (bots (performed
                                          (closing (map_get k (accounts s1))
                                                   bot) s1)))
                              (performed
                                 (closing (map_get k (accounts s1)) bot) s1)))
                  = emissions (trace s1)).
    { intro s1. split; [reflexivity|]. simpl. apply emissions_quiet.
      unfold closing. now destruct (option_map type _) as [[|]|]. }
    destruct (map_get k (accounts s)) as [a|] eqn:Ea.
    + right. destruct (Hq (logged w k DISCONNECTING s)) as [A E].
      eapply current_quiet; [eapply logged_current; exact Ea | exact A
                            | exact E].
    + left. rewrite (logged_absent w k DISCONNECTING s Ea). apply Hq.
  - destruct (map_get k (accounts s)) as [a|] eqn:Ea.
    + right. eapply logged_current; exact Ea.
    + left. now rewrite logged_absent.
  - apply statUpdated_quiet_or_current.
  - revert s. induction entries as [|e rest IH]; intro s; simpl; [now left|].
    eapply quiet_or_current_trans;
      [apply statUpdated_quiet_or_current | apply IH].
  - destruct (scoreUpdated_trace w k item s) as [-> | H]; [now left|].
    right. exists (emissions (trace s)). rewrite H, emissions_app.
    reflexivity.
  - unfold joined. destruct (map_get k (accounts s)); [|now left].
    right. apply current_emitted.
  - unfold joined. destruct (map_get k (accounts s)); [|now left].
    right. apply current_emitted.
  - right. apply current_emitted.
  - right. apply current_emitted.
  - right. apply current_emitted.
  - right. apply current_emitted.
  - destruct (map_get k (accounts s)) as [a|] eqn:Ea.
    + right. eapply logged_current; exact Ea.
    + left. now rewrite logged_absent.
  - destruct (formIndex w data); [now left|].
    destruct (map_get k (accounts s)) as [a|] eqn:Ea.
    + right. eapply logged_current; exact Ea.
    + left. now rewrite logged_absent.
Qed.

(** X12. Observers are never left behind.  A call either leaves the list
    of accounts and the emissions as they were, or the last 'update' it
    emits carries the list of accounts as the call leaves it.  So in every
    state the manager reaches, either nothing has been emitted yet and the
    accounts are the ones loaded from the table at the start, or the last
    'update' emitted is the present list. *)
Theorem observers_hold_current_list s :
  reachable s ->
  ((emissions (trace s) = []
    /\ exists rows, accounts s = loadAccounts rows)
   \/ current s)
  /\ forall w o,
       (accounts (after w o s) = accounts s
        /\ emissions (trace (after w o s)) = emissions (trace s))
       \/ current (after w o s).
Proof.
  intro Hr. split; [|intros w o; apply call_quiet_or_current].
  induction Hr as [rows Hnd | w o s Hr IH].
  - left. split; [reflexivity|]. now exists rows.
  - destruct (call_quiet_or_current w o s) as [[A E] | C]; [|now right].
    destruct IH as [[E0 [rows R]] | C0].
    + left. split; [congruence|]. exists rows. congruence.
    + right. now apply current_quiet with (s := s).
Qed.

Lemma observers_hold_current_list_witness :
  ((emissions (trace steveConnected) = []
    /\ exists rows, accounts steveConnected = loadAccounts rows)
   \/ current steveConnected)
  /\ forall w o,
       (accounts (after w o steveConnected) = accounts steveConnected
        /\ emissions (trace (after w o steveConnected))
           = emissions (trace steveConnected))
       \/ current (after w o steveConnected).
Proof.
  apply observers_hold_current_list.
  unfold steveConnected, twoAccounts. do 3 apply reach_step.
  apply (reach_new []). constructor.
Defined.

(** ** A connection that opens *)



(** ** The log from call to call *)

Lemma appended_quiet w k s s' :
  clock s' = clock s ->
  (forall a, map_get k (accounts s) = Some a ->
             exists a', map_get k (accounts s') = Some a' /\ logs a' = logs a) ->
  appended w k 0 s s'.
Proof.
  intros Hc H a Ha Hb. split; [lia|].
  destruct (H a Ha) as [a' [Ha' Hl]]. exists a', [].
  split; [exact Ha'|]. split; [reflexivity|]. split; [constructor|].
  rewrite app_nil_r, Hl. symmetry. now apply lastN_all.
Qed.

Lemma appended_same w k s s' :
  accounts s' = accounts s -> clock s' = clock s -> appended w k 0 s s'.
Proof.
  intros Ha Hc. apply appended_quiet; [exact Hc|].
  intros a H. exists a. now rewrite Ha.
Qed.

Lemma appended_absent w k n s s' :
  map_get k (accounts s) = None -> appended w k n s s'.
Proof. intros H a Ha. congruence. Qed.

Lemma appended_stored w k (f : BotAccount -> BotAccount) a0 s :
  map_get k (accounts s) = Some a0 ->
  logs (f a0) = logs a0 ->
  appended w k 0 s (stored k (f a0) s).
Proof.
  intros H0 Hf. apply appended_quiet; [reflexivity|].
  intros a Ha. exists (f a0). simpl. rewrite get_set_same.
  split; [reflexivity|]. congruence.
Qed.

Lemma appended_logged w k msg s : appended w k 1 s (logged w k msg s).
Proof.
  intros a Ha Hb. destruct (logged_account w k msg s Ha) as [Hg Hc].
  split; [lia|].
  exists (with_logs (pushShift (logs a) (stamp w (clock s) msg)) a),
         [stamp w (clock s) msg].
  split; [exact Hg|]. split; [reflexivity|]. split.
  - constructor; [|constructor]. exists (clock s), msg. split; [lia|].
    reflexivity.
  - simpl. now apply pushShift_lastN.
Qed.

Lemma appended_trans w k n m p s1 s2 s3 :
  appended w k n s1 s2 -> appended w k m s2 s3 -> n + m = p ->
  appended w k p s1 s3.
Proof.
  intros H1 H2 <- a Ha Hb.
  destruct (H1 a Ha Hb) as [Hc1 (a2 & l1 & Ha2 & Hn1 & Hf1 & Hl1)].
  assert (Hb2 : List.length (logs a2) <= 100).
  { rewrite Hl1, lastN_length. apply Nat.le_min_l. }
  destruct (H2 a2 Ha2 Hb2) as [Hc2 (a3 & l2 & Ha3 & Hn2 & Hf2 & Hl2)].
  split; [lia|]. exists a3, (l1 ++ l2).
  split; [exact Ha3|]. split; [rewrite length_app; lia|]. split.
  - apply Forall_app. split.
    + eapply Forall_impl; [|exact Hf1].
      intros line (t & msg & Ht & ->). exists t, msg. split; [lia|reflexivity].
    + eapply Forall_impl; [|exact Hf2].
      intros line (t & msg & Ht & ->). exists t, msg. split; [lia|reflexivity].
  - now rewrite Hl2, Hl1, lastN_app, <- app_assoc.
Qed.

Lemma appended_merged w k key v s : appended w k 0 s (merged k key v s).
Proof.
  unfold merged. destruct (map_get k (accounts s)) as [a|] eqn:Ea;
    [|now apply appended_same].
  destruct (strictEq _ _); [now apply appended_same|].
  eapply appended_trans;
    [apply (@appended_stored w k
              (with_accountData (set_stat key v (accountData a))) a s Ea eq_refl)
    | now apply appended_same | reflexivity].
Qed.

Lemma appended_statUpdated w k rawText s :
  appended w k 0 s (statUpdated w k rawText s).
Proof.
  unfold statUpdated. destruct (ignored rawText); [now apply appended_same|].
  destruct (extract w rawText) as [[key v]|]; [|now apply appended_same].
  apply appended_merged.
Qed.

Lemma appended_scoresSet w k entries : forall s,
  appended w k 0 s (scoresSet w k entries s).
Proof.
  induction entries as [|e rest IH]; intro s; simpl.
  - now apply appended_same.
  - eapply appended_trans;
      [apply appended_statUpdated | apply IH | reflexivity].
Qed.

Lemma appended_mergedQuietly w k key v s :
  appended w k 0 s (snd (mergedQuietly k key v s)).
Proof.
  unfold mergedQuietly. destruct (map_get k (accounts s)) as [a|] eqn:Ea;
    [|now apply appended_same].
  destruct v as [v|]; [|now apply appended_same].
  destruct (strictEq _ _); [now apply appended_same|]. simpl.
  apply (@appended_stored w k
           (with_accountData (set_stat key v (accountData a))) a s Ea eq_refl).
Qed.

Lemma appended_scoreUpdated w k item s :
  appended w k 0 s (scoreUpdated w k item s).
Proof.
  unfold scoreUpdated. destruct item as [item|]; [|now apply appended_same].
  destruct (map_get k (accounts s)); [|now apply appended_same]. cbv zeta.
  assert (H : appended w k 0 s
                (snd (mergedQuietly k Kmoney
                        (scoreValue w (itemText item) (str "Money"))
                        (snd (mergedQuietly k Kshards
                                (scoreValue w (itemText item) (str "Shards"))
                                s))))).
  { eapply appended_trans;
      [apply appended_mergedQuietly | apply appended_mergedQuietly
      | reflexivity]. }
  destruct (_ || _); [|exact H].
  eapply appended_trans; [exact H | now apply appended_same | reflexivity].
Qed.

Lemma appended_joined w k msg s :
  exists n, n <= 1 /\ appended w k n s (joined w k msg s).
Proof.
  unfold joined. destruct (map_get k (accounts s)) as [a|] eqn:Ea.
  - exists 1. split; [lia|].
    apply appended_trans
      with (n := 1) (m := 0)
           (s2 := logged w k msg (stored k (with_status online a) s));
      [|now apply appended_same|reflexivity].
    eapply appended_trans;
      [apply (@appended_stored w k (with_status online) a s Ea eq_refl)
      | apply appended_logged | reflexivity].
  - exists 0. split; [lia|]. now apply appended_same.
Qed.

Lemma appended_stopped w st k msg s :
  appended w k 1 s (stopped w st k msg s).
Proof.
  unfold stopped. cbv zeta. set (s1 := logged w k msg s).
  apply appended_trans with (n := 1) (m := 0) (s2 := s1);
    [apply appended_logged | | reflexivity].
  destruct (map_get k (accounts s1)) as [a|] eqn:Ea.
  - eapply appended_trans;
      [apply (@appended_stored w k (with_status st) a s1 Ea eq_refl)
      | now apply appended_same | reflexivity].
  - now apply appended_same.
Qed.

Lemma appended_disconnected w k s :
  exists n, n <= 1 /\ appended w k n s (disconnected w k s).
Proof.
  unfold disconnected. destruct (map_get k (bots s)).
  - exists 1. split; [lia|]. cbv zeta.
    eapply appended_trans;
      [apply appended_logged | now apply appended_same | reflexivity].
  - exists 0. split; [lia|]. now apply appended_same.
Qed.

Lemma appended_connected w k s :
  exists n, n <= 2 /\ appended w k n s (connected w k s).
Proof.
  unfold connected. destruct (map_get k (accounts s)) as [a|] eqn:Ea.
  - assert (Ha : appended w k 1 s (announced w k a s)).
    { unfold announced.
      apply appended_trans
        with (n := 0) (m := 1)
             (s2 := emitted (stored k (with_status connecting a) s));
        [|apply appended_logged|reflexivity].
      eapply appended_trans;
        [apply (@appended_stored w k (with_status connecting) a s Ea eq_refl)
        | now apply appended_same | reflexivity]. }
    assert (H : exists n,
               n <= 2
               /\ appended w k n s
                    (opening w (type a) k (username a) (announced w k a s))).
    { unfold opening. cbv zeta. destruct (openerResult _ _ _).
      - exists 1. split; [lia|].
        eapply appended_trans; [exact Ha | now apply appended_same | reflexivity].
      - exists 2. split; [lia|].
        apply appended_trans
          with (n := 1) (m := 1) (s2 := announced w k a s);
          [exact Ha | | reflexivity].
        eapply appended_trans;
          [now apply appended_same with
                 (s := performed (openerCall w (type a) (username a))
                                 (announced w k a s))
          | apply appended_logged | reflexivity]. }
    destruct (status a); try exact H.
    exists 0. split; [lia|]. now apply appended_same.
  - exists 0. split; [lia|]. now apply appended_same.
Qed.

(** What a call appends to the log of its account, for every call but
    [removeAccount], which leaves no account. *)
Lemma appended_call w o s :
  Inv s -> (forall k, o <> RemoveAccount k) ->
  exists n, n <= linesBound o /\ appended w (target o) n s (effectOf w o s).
Proof.
  intros Hinv Hrm. destruct o; simpl target; simpl effectOf; simpl linesBound.
  - exists 0. split; [lia|].
    destruct (existsb _ (db s)) eqn:Ex; [now apply appended_same|].
    apply appended_absent, map_get_none. rewrite (inv_keys Hinv). intro Hin.
    apply existsb_row_ids in Hin. congruence.
  - now contradiction (Hrm k).
  - apply appended_connected.
  - apply appended_disconnected.
  - exists 1. split; [lia | apply appended_logged].
  - exists 0. split; [lia | apply appended_statUpdated].
  - exists 0. split; [lia | apply appended_scoresSet].
  - exists 0. split; [lia | apply appended_scoreUpdated].
  - apply appended_joined.
  - apply appended_joined.
  - exists 1. split; [lia | apply appended_stopped].
  - exists 1. split; [lia | apply appended_stopped].
  - exists 1. split; [lia | apply appended_stopped].
  - exists 1. split; [lia | apply appended_stopped].
  - exists 1. split; [lia | apply appended_logged].
  - destruct (formIndex w data).
    + exists 0. split; [lia|]. now apply appended_same.
    + exists 1. split; [lia | apply appended_logged].
Qed.

(** A call leaves the accounts of the other ids as they are. *)
Lemma others_untouched w o s k :
  k <> target o ->
  map_get k (accounts (effectOf w o s)) = map_get k (accounts s).
Proof.
  intro Hk. destruct o; simpl target in Hk; simpl effectOf.
  - destruct (existsb _ (db s)); [reflexivity|]. simpl.
    now apply get_set_other.
  - unfold removed. cbv zeta. simpl. rewrite get_delete_other by assumption.
    now apply (proj1 (@changes_disconnected w (RemoveAccount k0) k0 s eq_refl)).
  - now apply (proj1 (@changes_connected w (ConnectBot k0) k0 s
                        eq_refl eq_refl)).
  - now apply (proj1 (@changes_disconnected w (DisconnectBot k0) k0 s eq_refl)).
  - now apply (proj1 (@changes_logged w (Log k0 msg) k0 msg s eq_refl)).
  - now apply (proj1 (@changes_statUpdated w (UpdateStat k0 rawText) k0
                        rawText s eq_refl)).
  - now apply (proj1 (@changes_scoresSet w (SetScore k0 entries) k0 entries s
                        eq_refl)).
  - now apply (proj1 (@changes_scoreUpdated w (ScoreUpdated k0 item) k0 item s
                        eq_refl)).
  - now apply (proj1 (@changes_joined w (Login k0) k0 _ s eq_refl eq_refl)).
  - now apply (proj1 (@changes_joined w (Spawn k0) k0 _ s eq_refl eq_refl)).
  - now apply (proj1 (@changes_stopped w (JavaError k0 msg) error k0 _ s
                        eq_refl eq_refl)).
  - now apply (proj1 (@changes_stopped w (BedrockError k0 msg) error k0 _ s
                        eq_refl eq_refl)).
  - now apply (proj1 (@changes_stopped w (End k0 reason) offline k0 _ s
                        eq_refl eq_refl)).
  - now apply (proj1 (@changes_stopped w (Closed k0) offline k0 _ s
                        eq_refl eq_refl)).
  - now apply (proj1 (@changes_logged w (Log k0 []) k0 _ s eq_refl)).
  - destruct (formIndex w data); [reflexivity|].
    now apply (proj1 (@changes_logged w (Log k0 []) k0 _ s eq_refl)).
Qed.

(** X14. No call rewrites a log.  In a state the manager reaches, whatever
    the call, the log of an account that is there before and after is the
    last 100 of its former lines followed by the lines the call appended:
    at most two for [connectBot], at most one for the other calls that log,
    none for the calls that do not log and none for a call about another
    id.  Each new line is a message under the time stamp of a clock reading
    made during the call.  So lines are only added at the end and only
    dropped from the start, and a call drops at most as many as it adds. *)
Theorem log_only_grows w o s k a a' :
  reachable s ->
  map_get k (accounts s) = Some a ->
  map_get k (accounts (after w o s)) = Some a' ->
  exists lines,
    logs a' = lastN 100 (logs a ++ lines)
    /\ List.length lines <= linesBound o
    /\ Forall (stampedIn w (clock s) (clock (after w o s))) lines
    /\ (k <> target o -> lines = []).
Proof.
  intros Hr Ha Ha'. pose proof (reachable_Inv Hr) as Hinv.
  pose proof (Inv_account k Hinv Ha) as Hb.
  rewrite after_eq in *.
  destruct (list_eq_dec N.eq_dec k (target o)) as [-> | Hne].
  - assert (Hrm : forall k0, o <> RemoveAccount k0).
    { intros k0 ->. simpl in Ha'. unfold removed in Ha'. cbv zeta in Ha'.
      simpl in Ha'. rewrite get_delete_same in Ha'. discriminate. }
    destruct (appended_call w Hinv Hrm) as [n [Hn H]].
    destruct (H a Ha Hb) as [_ (a2 & lines & Ha2 & Hlen & Hf & Hl)].
    rewrite Ha2 in Ha'. injection Ha' as <-.
    exists lines. split; [exact Hl|]. split; [lia|]. split; [exact Hf|].
    congruence.
  - rewrite (others_untouched w o s Hne), Ha in Ha'. injection Ha' as <-.
    exists []. rewrite app_nil_r. split; [symmetry; now apply lastN_all|].
    split; [simpl; lia|]. split; [constructor | reflexivity].
Qed.

Lemma log_only_grows_witness :
  exists lines,
    logs (with_logs [stamp plainWorld 0 (str "hello")]
                    (fresh (str "a1") (str "Steve") java))
    = lastN 100 (logs (fresh (str "a1") (str "Steve") java) ++ lines)
    /\ List.length lines <= 1
    /\ Forall (stampedIn plainWorld (clock twoAccounts)
                 (clock (after plainWorld (Log (str "a1") (str "hello"))
                               twoAccounts))) lines
    /\ (str "a1" <> str "a1" -> lines = []).
Proof.
  apply (@log_only_grows plainWorld (Log (str "a1") (str "hello"))
           twoAccounts (str "a1")).
  - unfold twoAccounts. do 2 apply reach_step. apply (reach_new []).
    constructor.
  - reflexivity.
  - reflexivity.
Defined.

(** ** Scoreboard entries of the Java connection *)

(** X15. The 'scoreUpdated' handler reads one number from an entry, the
    first of the whole text, wherever the labels stand.  So for an entry
    that contains both "Shards" and "Money" the two labels have the same
    value, and after the handler the shards and the money of the account
    are both equal to it; when the entry has no digit the state is left as
    it is. *)
Theorem scoreboard_one_number w k item s a :
  map_get k (accounts s) = Some a ->
  includes (itemText item) (str "Shards") = true ->
  includes (itemText item) (str "Money") = true ->
  scoreValue w (itemText item) (str "Shards")
  = scoreValue w (itemText item) (str "Money")
  /\ match scoreValue w (itemText item) (str "Shards") with
     | Some v =>
         exists a',
           map_get k (accounts (after w (ScoreUpdated k (Some item)) s))
           = Some a'
           /\ strictEq (shards (accountData a')) v = true
           /\ strictEq (money (accountData a')) v = true
     | None => after w (ScoreUpdated k (Some item)) s = s
     end.
Proof.
  intros Ha Hs Hm.
  assert (Heq : scoreValue w (itemText item) (str "Shards")
                = scoreValue w (itemText item) (str "Money"))
    by (unfold scoreValue; now rewrite Hs, Hm).
  split; [exact Heq|].
  rewrite after_eq. simpl effectOf. unfold scoreUpdated. rewrite Ha.
  cbv zeta. rewrite <- Heq.
  destruct (scoreValue w (itemText item) (str "Shards")) as [v|] eqn:Ev.
  - assert (Hv : forall x, Some v = Some x -> nonNegative x).
    { intros x [= <-]. eapply scoreValue_nonNegative; exact Ev. }
    destruct (@mergedQuietly_account k Kshards (Some v) s a Ha Hv)
      as [a1 [Ha1 [Hs1 _]]].
    destruct (@mergedQuietly_account k Kmoney (Some v) _ a1 Ha1 Hv)
      as [a2 [Ha2 [Hm2 Ho2]]].
    exists a2. split.
    + destruct (fst _ || fst _); simpl; exact Ha2.
    + split; [|now apply Hm2].
      change (shards (accountData a2)) with (stat Kshards (accountData a2)).
      rewrite Ho2 by discriminate. now apply Hs1.
  - unfold mergedQuietly. rewrite Ha. simpl. now rewrite Ha.
Qed.

Lemma scoreboard_one_number_witness :
  scoreValue plainWorld (itemText (entry (str "7k Money Shards")))
             (str "Shards")
  = scoreValue plainWorld (itemText (entry (str "7k Money Shards")))
               (str "Money")
  /\ match scoreValue plainWorld
                      (itemText (entry (str "7k Money Shards")))
                      (str "Shards") with
     | Some v =>
         exists a',
           map_get (str "a1")
             (accounts (after plainWorld
                          (ScoreUpdated (str "a1")
                             (Some (entry (str "7k Money Shards"))))
                          twoAccounts))
           = Some a'
           /\ strictEq (shards (accountData a')) v = true
           /\ strictEq (money (accountData a')) v = true
     | None =>
         after plainWorld
               (ScoreUpdated (str "a1")
                  (Some (entry (str "7k Money Shards")))) twoAccounts
         = twoAccounts
     end.
Proof.
  apply (@scoreboard_one_number plainWorld (str "a1")
           (entry (str "7k Money Shards")) twoAccounts
           (fresh (str "a1") (str "Steve") java)); reflexivity.
Defined.

(** ** The AFK menu *)

Lemma findIndex_some (A : Type) (p : A -> bool) l : forall i,
  findIndex p l = Some i ->
  (exists x, nth_error l i = Some x /\ p x = true)
  /\ forall j y, j < i -> nth_error l j = Some y -> p y = false.
Proof.
  induction l as [|x l IH]; intros i H; simpl in H; [discriminate|].
  destruct (p x) eqn:E.
  - injection H as <-. split; [exists x; auto|]. intros j y Hj. lia.
  - destruct (findIndex p l) as [i0|]; [|discriminate].
    injection H as <-. destruct (IH i0 eq_refl) as [Hx Hbefore].
    split; [exact Hx|]. intros [|j] y Hj Hy.
    + simpl in Hy. congruence.
    + simpl in Hy. apply (Hbefore j); [lia | exact Hy].
Qed.

Lemma findIndex_none (A : Type) (p : A -> bool) l :
  findIndex p l = None <-> forall x, In x l -> p x = false.
Proof.
  induction l as [|x l IH]; simpl.
  - split; [intros _ y [] | reflexivity].
  - destruct (p x) eqn:E.
    + split; [discriminate|]. intro H. rewrite (H x) in E by now left.
      discriminate.
    + destruct (findIndex p l) as [i|]; simpl.
      * split; [discriminate|]. intro H.
        assert (Hn : Some i = None) by (apply IH; intros y Hy; apply H; now right).
        discriminate.
      * split; [|reflexivity]. intros _ y [<- | Hy]; [exact E|].
        now apply (proj1 IH).
Qed.

(** X16. The 'modal_form_request' handler logs one line and answers with
    the index of the first button whose text, in lower case, contains
    "random afk area" or "click to teleport"; no button before it does.
    When no button does it answers 0.  The index it answers is that of a
    button whenever the form has one. *)
Theorem modal_form_answer w k buttons s :
  onModalFormRequest w k buttons s
  = (Return (targetIdx w buttons),
     logged w k (str "Clicking button index "
                 ++ numberToString (targetIdx w buttons) ++ str "...") s)
  /\ (buttons <> [] -> targetIdx w buttons < List.length buttons)
  /\ (forall j b,
        nth_error buttons j = Some b -> isAfkButton w b = true ->
        targetIdx w buttons <= j
        /\ exists b0, nth_error buttons (targetIdx w buttons) = Some b0
                      /\ isAfkButton w b0 = true)
  /\ ((forall b, In b buttons -> isAfkButton w b = false) ->
      targetIdx w buttons = 0).
Proof.
  split; [|split; [|split]].
  - unfold onModalFormRequest, bind. now rewrite log_eq.
  - intro Hne. unfold targetIdx.
    destruct (findIndex (isAfkButton w) buttons) as [i|] eqn:E.
    + apply findIndex_some in E as [[x [Hx _]] _].
      apply nth_error_Some. congruence.
    + destruct buttons; [congruence | simpl; lia].
  - intros j b Hj Hb. unfold targetIdx.
    destruct (findIndex (isAfkButton w) buttons) as [i|] eqn:E.
    + apply findIndex_some in E as [[x [Hx Hpx]] Hbefore]. split.
      * destruct (Nat.le_gt_cases i j) as [Hle | Hgt]; [exact Hle|].
        rewrite (Hbefore j b Hgt Hj) in Hb. discriminate.
      * exists x. auto.
    + exfalso. rewrite findIndex_none in E.
      rewrite (E b) in Hb; [discriminate|].
      eapply nth_error_In; eassumption.
  - intro H. unfold targetIdx. apply findIndex_none in H. now rewrite H.
Qed.

Lemma modal_form_answer_witness :
  targetIdx plainWorld [str "Spawn"; str "Click to TELEPORT"; str "Shop"] <= 1
  /\ exists b0,
       nth_error [str "Spawn"; str "Click to TELEPORT"; str "Shop"]
                 (targetIdx plainWorld
                    [str "Spawn"; str "Click to TELEPORT"; str "Shop"])
       = Some b0
       /\ isAfkButton plainWorld b0 = true.
Proof.
  apply (proj1 (proj2 (proj2 (modal_form_answer plainWorld (str "b2")
           [str "Spawn"; str "Click to TELEPORT"; str "Shop"] twoAccounts)))
           1 (str "Click to TELEPORT")); reflexivity.
Defined.

Lemma find_first (A : Type) (p : A -> bool) l x :
  find p l = Some x ->
  exists j, nth_error l j = Some x /\ p x = true
            /\ forall i y, i < j -> nth_error l i = Some y -> p y = false.
Proof.
  induction l as [|x0 l IH]; simpl; [discriminate|].
  destruct (p x0) eqn:E.
  - intros [= <-]. exists 0. repeat split; auto. intros i y Hi. lia.
  - intro H. destruct (IH H) as [j [Hj [Hp Hbefore]]].
    exists (S j). repeat split; auto.
    intros [|i] y Hi Hy; simpl in Hy; [congruence|].
    apply (Hbefore i); [lia | exact Hy].
Qed.

(** X17. The 'windowOpen' handler logs one line in every case.  It clicks
    a slot only when some slot of the window has NBT data whose text, in
    lower case, contains "click to teleport to a random afk area"; the slot
    it clicks is then the number recorded in the first such slot.  When no
    slot has such data it clicks nothing and logs that the item could not
    be found. *)
Theorem window_click w k slots s :
  match onWindowOpen w k slots s with
  | (Return (Some n), s') =>
      (exists j item,
          nth_error slots j = Some (Some item)
          /\ slot item = n
          /\ isAfkItem w (Some item) = true
          /\ forall i x, i < j -> nth_error slots i = Some x ->
                         isAfkItem w x = false)
      /\ s' = logged w k (str "Clicking button index " ++ numberToString n
                          ++ str "...") s
  | (Return None, s') =>
      (forall x, In x slots -> isAfkItem w x = false)
      /\ s' = logged w k (str "Could not find the Random AFK item") s
  | (Throw _, _) => False
  end.
Proof.
  unfold onWindowOpen.
  destruct (find (isAfkItem w) slots) as [[item|]|] eqn:E.
  - unfold bind. rewrite log_eq. simpl. split; [|reflexivity].
    apply find_first in E as [j [Hj [Hp Hb]]]. exists j, item. auto.
  - apply find_some in E as [_ E]. discriminate.
  - unfold bind. rewrite log_eq. simpl. split; [|reflexivity].
    intros x Hx. exact (find_none _ _ E x Hx).
Qed.

(** ** The control messages of the server *)

Lemma disconnected_twice w k s :
  disconnected w k (disconnected w k s) = disconnected w k s.
Proof.
  unfold disconnected at 1.
  pose proof (disconnected_no_bot w k s) as H. apply map_get_none in H.
  now rewrite H.
Qed.

(** X18. The message handler of the '/ws' route never throws and never
    writes the table.  It leaves the manager as it is when the message has
    no id or an empty one, when its type is neither "connect" nor
    "disconnect", and, in a state the manager reaches, when no account has
    the id. *)
Theorem wsMessage_safe w type id s :
  fst (wsMessage w type id s) = Return tt
  /\ db (snd (wsMessage w type id s)) = db s
  /\ (truthy id = false -> snd (wsMessage w type id s) = s)
  /\ (Js.eqb type (str "connect") = false ->
      Js.eqb type (str "disconnect") = false ->
      snd (wsMessage w type id s) = s)
  /\ (reachable s ->
      forall k, id = Some k -> map_get k (accounts s) = None ->
                snd (wsMessage w type id s) = s).
Proof.
  unfold wsMessage. cbv zeta.
  destruct (Js.eqb type (str "connect") && truthy id) eqn:Ec.
  - rewrite connectBot_eq. simpl.
    apply andb_true_iff in Ec as [Ec Et]. rewrite Ec, Et.
    repeat match goal with |- _ /\ _ => split end;
      try reflexivity; try discriminate.
    + pose proof (proj1 (writes_of_calls w (ConnectBot
                   match id with Some k => k | None => [] end) s) eq_refl)
        as H.
      now rewrite after_eq in H.
    + intros Hr k -> Hn. unfold connected. now rewrite Hn.
  - destruct (Js.eqb type (str "disconnect") && truthy id) eqn:Ed.
    + rewrite disconnectBot_eq. simpl.
      apply andb_true_iff in Ed as [Ed Et]. rewrite Ed, Et.
      repeat match goal with |- _ /\ _ => split end;
        try reflexivity; try discriminate.
      * apply disconnected_db.
      * intros Hr k -> Hn. unfold disconnected.
        now rewrite (@absent_no_bot s k (reachable_Inv Hr) Hn).
    + simpl. repeat match goal with |- _ /\ _ => split end; reflexivity.
Qed.

Lemma wsMessage_safe_witness :
  snd (wsMessage plainWorld (str "connect") (Some (str "non-existent"))
                 twoAccounts)
  = twoAccounts.
Proof.
  refine (proj2 (proj2 (proj2 (proj2
            (wsMessage_safe plainWorld (str "connect")
               (Some (str "non-existent")) twoAccounts))))
            _ (str "non-existent") eq_refl eq_refl).
  unfold twoAccounts. do 2 apply reach_step. apply (reach_new []).
  constructor.
Defined.

(** ** Commands given twice *)

(** X19. [disconnectBot] and [removeAccount] are idempotent.  A second
    [disconnectBot] for the same id changes nothing.  A second
    [removeAccount] for the same id leaves the accounts, the table and the
    connections of the first and only emits the list once more. *)
Theorem commands_twice w k s :
  after w (DisconnectBot k) (after w (DisconnectBot k) s)
  = after w (DisconnectBot k) s
  /\ after w (RemoveAccount k) (after w (RemoveAccount k) s)
     = emitted (after w (RemoveAccount k) s).
Proof.
  rewrite !after_eq. simpl effectOf. split; [apply disconnected_twice|].
  set (s1 := removed w k s).
  assert (Hb : map_get k (bots s1) = None).
  { unfold s1, removed. cbv zeta. simpl. apply map_get_none.
    apply disconnected_no_bot. }
  assert (Ha : ~ In k (keys (accounts s1))).
  { unfold s1, removed. cbv zeta. simpl. rewrite keys_delete_in. tauto. }
  assert (Hd : ~ In k (row_ids (db s1))).
  { unfold s1, removed. cbv zeta. simpl. rewrite row_ids_filter.
    intro Hin. apply filter_In in Hin as [_ Hin].
    now rewrite eqb_refl in Hin. }
  clearbody s1. unfold removed, disconnected. rewrite Hb. cbv zeta.
  unfold emitted, performed, set_trace, set_accounts, set_db. simpl.
  rewrite filter_rows_absent by exact Hd.
  rewrite map_delete_absent by exact Ha. reflexivity.
Qed.

(** ** The status a call leaves *)

Lemma logged_status w k msg s a :
  map_get k (accounts s) = Some a ->
  exists a', map_get k (accounts (logged w k msg s)) = Some a'
             /\ status a' = status a.
Proof.
  intro Ha. destruct (logged_account w k msg s Ha) as [H _].
  eexists. split; [exact H | reflexivity].
Qed.

Lemma stopped_status w st k msg s a :
  map_get k (accounts s) = Some a ->
  exists a', map_get k (accounts (stopped w st k msg s)) = Some a'
             /\ status a' = st.
Proof.
  intro Ha. unfold stopped. cbv zeta.
  destruct (logged_status w k msg s Ha) as [a1 [H1 _]].
  rewrite H1. simpl. eexists. split; [apply get_set_same | reflexivity].
Qed.

(** X20. A call that stands for a status leaves the account of its id, when
    there is one, with that status: error after 'error', offline after
    'end' and 'close', online after 'login' and 'spawn', and connecting
    after [connectBot], whether the opener returns or throws, unless the
    account was online, which [connectBot] leaves online. *)
Theorem status_after_call w o s a st :
  map_get (target o) (accounts s) = Some a ->
  statusSet o = Some st ->
  exists a',
    map_get (target o) (accounts (after w o s)) = Some a'
    /\ status a'
       = match o, status a with
         | ConnectBot _, online => online
         | _, _ => st
         end.
Proof.
  intros Ha Hst. rewrite after_eq.
  destruct o; simpl in Hst; try discriminate; injection Hst as <-;
    simpl in Ha; simpl target; simpl effectOf.
  - unfold connected. rewrite Ha.
    assert (H : exists a',
               map_get k (accounts (opening w (type a) k (username a)
                                            (announced w k a s))) = Some a'
               /\ status a' = connecting).
    { assert (Hg : map_get k (accounts (announced w k a s))
                   = Some (with_logs
                             (pushShift (logs a)
                                (stamp w (clock s) (CONNECTING w (type a))))
                             (with_status connecting a))).
      { unfold announced, logged. simpl. rewrite get_set_same. simpl.
        apply get_set_same. }
      unfold opening. cbv zeta. destruct (openerResult _ _ _).
      - simpl. eexists. split; [exact Hg | reflexivity].
      - destruct (logged_status w k (failureText (type a) message0)
                    (performed (openerCall w (type a) (username a))
                               (announced w k a s)) Hg) as [a' [H1 H2]].
        exists a'. split; [exact H1 | exact H2]. }
    destruct (status a) eqn:Es; try exact H. exists a. auto.
  - unfold joined. rewrite Ha. simpl.
    destruct (logged_status w k (str "Logged in successfully!")
                (stored k (with_status online a) s) (get_set_same _ _ _))
      as [a' [H1 H2]].
    exists a'. split; [exact H1|]. rewrite H2. now destruct (status a).
  - unfold joined. rewrite Ha. simpl.
    destruct (logged_status w k (str "Bedrock bot spawned!")
                (stored k (with_status online a) s) (get_set_same _ _ _))
      as [a' [H1 H2]].
    exists a'. split; [exact H1|]. rewrite H2. now destruct (status a).
  - destruct (stopped_status w error k (str "Error: " ++ msg) s Ha)
      as [a' [H1 H2]].
    exists a'. split; [exact H1|]. rewrite H2. now destruct (status a).
  - destruct (stopped_status w error k (str "Bedrock Error: " ++ msg) s Ha)
      as [a' [H1 H2]].
    exists a'. split; [exact H1|]. rewrite H2. now destruct (status a).
  - destruct (stopped_status w offline k
                (str "Bot disconnected. Reason: "
                 ++ match reason with
                    | [] => str "Socket closed"
                    | _ => reason
                    end) s Ha) as [a' [H1 H2]].
    exists a'. split; [exact H1|]. rewrite H2. now destruct (status a).
  - destruct (stopped_status w offline k (str "Bedrock connection closed.")
                s Ha) as [a' [H1 H2]].
    exists a'. split; [exact H1|]. rewrite H2. now destruct (status a).
Qed.

Lemma status_after_call_witness :
  exists a',
    map_get (str "a1")
      (accounts (after plainWorld (Login (str "a1")) steveConnected))
    = Some a'
    /\ status a' = online.
Proof.
  destruct (@status_after_call plainWorld (Login (str "a1")) steveConnected
              (with_logs [stamp plainWorld 0 (CONNECTING plainWorld java)]
                 (with_status connecting
                    (fresh (str "a1") (str "Steve") java)))
              online eq_refl eq_refl) as [a' [H1 H2]].
  exists a'. split; [exact H1 | exact H2].
Defined.

(** ** Connections and the order of the list *)

(** X21. In every state the manager reaches, an id under which [bots]
    holds a connection has an account in the map and a row in the table.
    This is about the connections [bots] holds: a connection that a later
    [connectBot] has replaced under its id is not among them. *)
Theorem stored_connection_has_account s k bot :
  reachable s ->
  map_get k (bots s) = Some bot ->
  (exists a, map_get k (accounts s) = Some a) /\ In k (row_ids (db s)).
Proof.
  intros Hr Hb. pose proof (reachable_Inv Hr) as Hinv.
  assert (Hk : In k (keys (accounts s))).
  { apply (inv_bots Hinv). eapply map_get_some; eassumption. }
  split.
  - destruct (map_get k (accounts s)) as [a|] eqn:E; [eauto|].
    apply map_get_none in E. contradiction.
  - now rewrite <- (inv_keys Hinv).
Qed.

Lemma stored_connection_has_account_witness :
  (exists a, map_get (str "a1") (accounts steveConnected) = Some a)
  /\ In (str "a1") (row_ids (db steveConnected)).
Proof.
  apply (@stored_connection_has_account steveConnected (str "a1") 1).
  - unfold steveConnected, twoAccounts. do 3 apply reach_step.
    apply (reach_new []). constructor.
  - reflexivity.
Defined.

(** X22. The list of accounts keeps its order.  In a state the manager
    reaches, [addAccount] puts a new id last, [removeAccount] takes its id
    out and leaves the others in their places, and no other call changes
    which ids are listed or in which order. *)
Theorem listing_order w o s :
  reachable s ->
  keys (accounts (after w o s))
  = match o with
    | AddAccount account =>
        if existsb (fun r => Js.eqb (row_id account) (row_id r)) (db s)
        then keys (accounts s)
        else keys (accounts s) ++ [row_id account]
    | RemoveAccount k =>
        filter (fun k' => negb (Js.eqb k k')) (keys (accounts s))
    | _ => keys (accounts s)
    end.
Proof.
  intro Hr. pose proof (reachable_Inv Hr) as Hinv.
  pose proof (reachable_Inv (reach_step w o Hr)) as Hinv'.
  assert (Hother : writesTable o = false ->
                   keys (accounts (after w o s)) = keys (accounts s)).
  { intro Hw. rewrite (inv_keys Hinv'), (inv_keys Hinv).
    now rewrite (proj1 (writes_of_calls w o s) Hw). }
  destruct o; try (apply Hother; reflexivity).
  - rewrite (inv_keys Hinv'), (inv_keys Hinv), after_eq. simpl.
    destruct (existsb _ (db s)); [reflexivity|]. simpl.
    unfold row_ids. now rewrite map_app.
  - apply removed_keys.
Qed.

Lemma listing_order_witness :
  keys (accounts (after plainWorld (Login (str "a1")) steveConnected))
  = keys (accounts steveConnected).
Proof.
  apply (@listing_order plainWorld (Login (str "a1")) steveConnected).
  unfold steveConnected, twoAccounts. do 3 apply reach_step.
  apply (reach_new []). constructor.
Defined.

(** ** Instances *)

Lemma writes_of_calls_witness :
  bots (after plainWorld (End (str "a1") (str "timeout")) steveConnected)
  = bots steveConnected.
Proof.
  apply (proj2 (writes_of_calls plainWorld (End (str "a1") (str "timeout"))
                                steveConnected)).
  reflexivity.
Defined.

Lemma removeAccount_complete_witness :
  In (Quit 1)
     (trace (after plainWorld (RemoveAccount (str "a1")) steveConnected))
  \/ In (Close 1)
        (trace (after plainWorld (RemoveAccount (str "a1")) steveConnected)).
Proof.
  apply (proj1 (proj2 (proj2 (proj2
           (removeAccount_complete plainWorld (str "a1") steveConnected))))).
  reflexivity.
Defined.
